(** * llm-gateway: the request-authentication subsystem

    A shallow embedding of the Go packages [internal/infrastructure/auth]
    (manager.go, interceptors.go, context.go), of the usage-callback handlers
    of [internal/infrastructure/transport/grpcadapter] and of the HTTP bridge
    of [internal/infrastructure/server/httpgateway], with the properties the
    specification states about them.

    Conventions of the embedding.
    - A Go [string] is a sequence of bytes: Rocq's [string]; a [[]byte] is a
      [list byte].
    - [int64] is a [Z] with the two's-complement wrap-around written out
      ([wrap64]); [uint32] words of SHA-256 are [Z] modulo [2^32].
    - [time.Time] is a [Z]: nanoseconds since the Unix epoch (the wall clock;
      monotonic readings and the limits of the representable range are not
      modelled). [time.Duration] is a [Z] of nanoseconds.
    - A Go map is a [gmap], a [map[string]struct{}] a [gset string].
    - A [*Manager] that the code tests against [nil] is an [option Manager];
      methods that mutate the manager return the new manager.
    - [(value, error)] results are sums or pairs with an [option] error. *)

From Stdlib Require Import ZArith List Ascii String DecimalString DecimalPos.
From Stdlib.Strings Require Import Byte.
From stdpp Require Import gmap strings list fin_maps sorting.

Local Open Scope string_scope.
Local Open Scope list_scope.
Local Open Scope Z_scope.

(** ** Bytes and strings *)

Definition Z_of_byte (b : byte) : Z := Z.of_N (Byte.to_N b).

Definition byte_of_Z (z : Z) : byte :=
  match Byte.of_N (Z.to_N (z mod 256)) with
  | Some b => b
  | None => x00
  end.

(** [[]byte(s)] and [string(b)]. *)
Definition bytes_of_string (s : string) : list byte := list_byte_of_string s.
Definition string_of_bytes (b : list byte) : string := string_of_list_byte b.

Definition Z_of_ascii (c : ascii) : Z := Z.of_N (N_of_ascii c).

(** [s == ""] for Go strings. *)
Definition is_empty (s : string) : bool :=
  match s with
  | EmptyString => true
  | String _ _ => false
  end.

(** The newline byte, ['\n']. *)
Definition LF : string := String (ascii_of_nat 10) EmptyString.

(** ** encoding/hex *)
Module hex.

Definition hextable : string := "0123456789abcdef".

(** [hextable[i]] for [0 <= i < 16]. *)
Definition hexdigit (i : Z) : ascii :=
  match String.get (Z.to_nat i) hextable with
  | Some c => c
  | None => "0"%char
  end.

(** [EncodeToString]: each byte [v] becomes [hextable[v>>4]],
    [hextable[v&0x0f]]. *)
Fixpoint EncodeToString (src : list byte) : string :=
  match src with
  | [] => EmptyString
  | v :: rest =>
      String (hexdigit (Z.shiftr (Z_of_byte v) 4))
        (String (hexdigit (Z.land (Z_of_byte v) 15)) (EncodeToString rest))
  end.

(** [reverseHexTable]: the value of a hexadecimal digit (either case),
    [0xff] for every other byte. *)
Definition reverseHexTable (c : byte) : Z :=
  let n := Z_of_byte c in
  if (48 <=? n) && (n <=? 57) then n - 48
  else if (97 <=? n) && (n <=? 102) then n - 97 + 10
  else if (65 <=? n) && (n <=? 70) then n - 65 + 10
  else 255.

Inductive error : Type :=
| InvalidByteError (b : byte)
| ErrLength.

(** [Decode]: pairs of digits are decoded from the left; the first invalid
    byte stops the loop with the bytes decoded so far; a trailing single
    byte is reported as invalid when it is no digit and as [ErrLength]
    otherwise. *)
Fixpoint Decode (src : list byte) : list byte * option error :=
  match src with
  | [] => ([], None)
  | [p] =>
      if 15 <? reverseHexTable p then ([], Some (InvalidByteError p))
      else ([], Some ErrLength)
  | p :: q :: rest =>
      let a := reverseHexTable p in
      let b := reverseHexTable q in
      if 15 <? a then ([], Some (InvalidByteError p))
      else if 15 <? b then ([], Some (InvalidByteError q))
      else
        let '(dst, err) := Decode rest in
        (byte_of_Z (Z.lor (Z.shiftl a 4) b) :: dst, err)
  end.

Definition DecodeString (s : string) : list byte * option error :=
  Decode (bytes_of_string s).

End hex.

(** ** crypto/sha256 (FIPS 180-4), after the generic block function *)
Module sha256.

Definition mask32 (x : Z) : Z := x mod 4294967296.
Definition add32 (x y : Z) : Z := mask32 (x + y).
(** [bits.RotateLeft32(x, -n)] *)
Definition rotr (x n : Z) : Z :=
  Z.lor (Z.shiftr x n) (mask32 (Z.shiftl x (32 - n))).
(** [^x] on a [uint32] *)
Definition not32 (x : Z) : Z := 4294967295 - x.

Definition _K : list Z :=
  [ 0x428a2f98; 0x71374491; 0xb5c0fbcf; 0xe9b5dba5; 0x3956c25b; 0x59f111f1; 0x923f82a4; 0xab1c5ed5 ]
  ++ [ 0xd807aa98; 0x12835b01; 0x243185be; 0x550c7dc3; 0x72be5d74; 0x80deb1fe; 0x9bdc06a7; 0xc19bf174 ]
  ++ [ 0xe49b69c1; 0xefbe4786; 0x0fc19dc6; 0x240ca1cc; 0x2de92c6f; 0x4a7484aa; 0x5cb0a9dc; 0x76f988da ]
  ++ [ 0x983e5152; 0xa831c66d; 0xb00327c8; 0xbf597fc7; 0xc6e00bf3; 0xd5a79147; 0x06ca6351; 0x14292967 ]
  ++ [ 0x27b70a85; 0x2e1b2138; 0x4d2c6dfc; 0x53380d13; 0x650a7354; 0x766a0abb; 0x81c2c92e; 0x92722c85 ]
  ++ [ 0xa2bfe8a1; 0xa81a664b; 0xc24b8b70; 0xc76c51a3; 0xd192e819; 0xd6990624; 0xf40e3585; 0x106aa070 ]
  ++ [ 0x19a4c116; 0x1e376c08; 0x2748774c; 0x34b0bcb5; 0x391c0cb3; 0x4ed8aa4a; 0x5b9cca4f; 0x682e6ff3 ]
  ++ [ 0x748f82ee; 0x78a5636f; 0x84c87814; 0x8cc70208; 0x90befffa; 0xa4506ceb; 0xbef9a3f7; 0xc67178f2 ].

Definition init : list Z :=
  [ 0x6a09e667; 0xbb67ae85; 0x3c6ef372; 0xa54ff53a;
    0x510e527f; 0x9b05688c; 0x1f83d9ab; 0x5be0cd19 ].

(** Big-endian words of a chunk: [w[i] = p[j]<<24 | p[j+1]<<16 | ...]. *)
Fixpoint be_words (p : list Z) : list Z :=
  match p with
  | b0 :: b1 :: b2 :: b3 :: rest =>
      Z.lor (Z.lor (Z.lor (Z.shiftl b0 24) (Z.shiftl b1 16)) (Z.shiftl b2 8)) b3
        :: be_words rest
  | _ => []
  end.

Definition word_at (w : list Z) (i : nat) : Z := nth i w 0.

(** The message schedule: [w] holds the words computed so far, [w[i]] is
    appended for [i = length w], [n] more times. *)
Fixpoint schedule (n : nat) (w : list Z) : list Z :=
  match n with
  | O => w
  | S n' =>
      let i := length w in
      let v1 := word_at w (i - 2) in
      let t1 := Z.lxor (Z.lxor (rotr v1 17) (rotr v1 19)) (Z.shiftr v1 10) in
      let v2 := word_at w (i - 15) in
      let t2 := Z.lxor (Z.lxor (rotr v2 7) (rotr v2 18)) (Z.shiftr v2 3) in
      schedule n'
        (w ++ [add32 (add32 (add32 t1 (word_at w (i - 7))) t2) (word_at w (i - 16))])
  end.

Record regs : Type := Regs { ra : Z; rb : Z; rc : Z; rd : Z; re : Z; rf : Z; rg : Z; rh : Z }.

Definition round (s : regs) (kw : Z * Z) : regs :=
  let '(Regs a b c d e f g h) := s in
  let t1 :=
    add32 (add32 (add32 (add32 h
      (Z.lxor (Z.lxor (rotr e 6) (rotr e 11)) (rotr e 25)))
      (Z.lxor (Z.land e f) (Z.land (not32 e) g))) (fst kw)) (snd kw) in
  let t2 :=
    add32 (Z.lxor (Z.lxor (rotr a 2) (rotr a 13)) (rotr a 22))
      (Z.lxor (Z.lxor (Z.land a b) (Z.land a c)) (Z.land b c)) in
  Regs (add32 t1 t2) a b c (add32 d t1) e f g.

Definition regs_of (h : list Z) : regs :=
  Regs (word_at h 0) (word_at h 1) (word_at h 2) (word_at h 3)
       (word_at h 4) (word_at h 5) (word_at h 6) (word_at h 7).

(** One 64-byte chunk. *)
Definition block (h : list Z) (chunk : list Z) : list Z :=
  let w := schedule 48 (be_words chunk) in
  let '(Regs a b c d e f g h') := fold_left round (combine _K w) (regs_of h) in
  [ add32 (word_at h 0) a; add32 (word_at h 1) b; add32 (word_at h 2) c;
    add32 (word_at h 3) d; add32 (word_at h 4) e; add32 (word_at h 5) f;
    add32 (word_at h 6) g; add32 (word_at h 7) h' ].

(** All chunks of a padded message; [n] bounds their number. *)
Fixpoint blocks (n : nat) (h : list Z) (p : list Z) : list Z :=
  match n with
  | O => h
  | S n' =>
      match p with
      | [] => h
      | _ => blocks n' (block h (firstn 64 p)) (skipn 64 p)
      end
  end.

(** The 8 big-endian bytes of a [uint64]. *)
Definition be64 (x : Z) : list Z :=
  map (fun k => Z.land (Z.shiftr x (8 * k)) 255) [7; 6; 5; 4; 3; 2; 1; 0].

(** Padding: [0x80], zeros up to 56 modulo 64, the length in bits. *)
Definition pad (msg : list Z) : list Z :=
  let len := Z.of_nat (length msg) in
  let zeros := Z.to_nat ((55 - len) mod 64) in
  msg ++ [128] ++ repeat 0 zeros ++ be64 (8 * len).

Definition be32 (x : Z) : list Z :=
  map (fun k => Z.land (Z.shiftr x (8 * k)) 255) [3; 2; 1; 0].

(** [sha256.Sum256] *)
Definition Sum256 (data : list byte) : list byte :=
  let p := pad (map Z_of_byte data) in
  map byte_of_Z (flat_map be32 (blocks (length p) init p)).

End sha256.

(** ** crypto/hmac with SHA-256 *)
Module hmac.

Definition blocksize : nat := 64.

Definition xor_with (c : Z) (key : list byte) : list byte :=
  map (fun b => byte_of_Z (Z.lxor (Z_of_byte b) c)) key.

(** [hmac.New(sha256.New, key)], [Write(msg)], [Sum(nil)]: keys longer than
    a block are hashed first, shorter ones are padded with zeros. *)
Definition SumSHA256 (key msg : list byte) : list byte :=
  let key0 := if Nat.ltb blocksize (length key) then sha256.Sum256 key else key in
  let key1 := key0 ++ repeat x00 (blocksize - length key0) in
  sha256.Sum256 (xor_with 0x5c key1 ++ sha256.Sum256 (xor_with 0x36 key1 ++ msg)).

(** [hmac.Equal]: [subtle.ConstantTimeCompare(a, b) == 1], which holds
    exactly when the slices have the same length and the same bytes. *)
Fixpoint Equal (a b : list byte) : bool :=
  match a, b with
  | [], [] => true
  | x :: a', y :: b' => Byte.eqb x y && Equal a' b'
  | _, _ => false
  end.

End hmac.

(** ** encoding/base64, [RawURLEncoding] (URL alphabet, no padding) *)
Module base64.

Definition encodeURL : string :=
  "ABCDEFGHIJKLMNOPQRSTUVWXYZabcdefghijklmnopqrstuvwxyz0123456789-_".

Definition digit (i : Z) : ascii :=
  match String.get (Z.to_nat i) encodeURL with
  | Some c => c
  | None => "A"%char
  end.

Fixpoint RawURLEncodeToString (src : list byte) : string :=
  match src with
  | [] => EmptyString
  | [b0] =>
      let v := Z.shiftl (Z_of_byte b0) 16 in
      String (digit (Z.land (Z.shiftr v 18) 63))
        (String (digit (Z.land (Z.shiftr v 12) 63)) EmptyString)
  | [b0; b1] =>
      let v := Z.lor (Z.shiftl (Z_of_byte b0) 16) (Z.shiftl (Z_of_byte b1) 8) in
      String (digit (Z.land (Z.shiftr v 18) 63))
        (String (digit (Z.land (Z.shiftr v 12) 63))
          (String (digit (Z.land (Z.shiftr v 6) 63)) EmptyString))
  | b0 :: b1 :: b2 :: rest =>
      let v := Z.lor (Z.lor (Z.shiftl (Z_of_byte b0) 16) (Z.shiftl (Z_of_byte b1) 8))
                     (Z_of_byte b2) in
      String (digit (Z.land (Z.shiftr v 18) 63))
        (String (digit (Z.land (Z.shiftr v 12) 63))
          (String (digit (Z.land (Z.shiftr v 6) 63))
            (String (digit (Z.land v 63)) (RawURLEncodeToString rest))))
  end.

End base64.

(** ** Integers, strings and time of the Go runtime *)

(** An [int64] computed in [Z], wrapped to two's complement. *)
Definition wrap64 (z : Z) : Z :=
  (z + 9223372036854775808) mod 18446744073709551616 - 9223372036854775808.

(** The verb [%d] on an [int64]: decimal digits, a leading [-] when negative. *)
Definition FormatInt (z : Z) : string := NilEmpty.string_of_int (Z.to_int z).

Module strings.

(** [strings.HasSuffix] *)
Definition HasSuffix (s suffix : string) : bool :=
  (String.length suffix <=? String.length s)%nat
  && String.eqb
       (String.substring (String.length s - String.length suffix)
                         (String.length suffix) s)
       suffix.

(** [strings.HasPrefix] *)
Definition HasPrefix (s prefix : string) : bool := String.prefix prefix s.

Definition lower_byte (c : ascii) : ascii :=
  let n := Z_of_ascii c in
  if (65 <=? n) && (n <=? 90) then ascii_of_N (Z.to_N (n + 32)) else c.

(** [strings.ToLower] on ASCII strings (header keys are ASCII tokens). *)
Fixpoint ToLower (s : string) : string :=
  match s with
  | EmptyString => EmptyString
  | String c rest => String (lower_byte c) (ToLower rest)
  end.

End strings.

Module time.

Definition Time : Type := Z.
Definition Duration : Type := Z.

Definition Second : Duration := 1000000000.
Definition Minute : Duration := 60 * Second.

Definition Unix (sec nsec : Z) : Time := sec * Second + nsec.
Definition Add (t : Time) (d : Duration) : Time := t + d.
Definition Before (t u : Time) : bool := t <? u.
Definition After (t u : Time) : bool := u <? t.

End time.

(** ** Go errors: [errors.New], wrapping with [%w], [errors.Is] *)

Inductive error : Type :=
| errors_New (text : string)
| Errorf_w (wrapped : error) (suffix : string).

(** [err.Error()] of [fmt.Errorf("%w" + suffix, wrapped)]. *)
Fixpoint Error (e : error) : string :=
  match e with
  | errors_New text => text
  | Errorf_w w suffix => Error w +:+ suffix
  end.

Fixpoint error_eqb (a b : error) : bool :=
  match a, b with
  | errors_New x, errors_New y => String.eqb x y
  | Errorf_w a' x, Errorf_w b' y => error_eqb a' b' && String.eqb x y
  | _, _ => false
  end.

(** [errors.Is]: the error or one it wraps is the target. *)
Fixpoint errors_Is (e target : error) : bool :=
  error_eqb e target
  || match e with
     | errors_New _ => false
     | Errorf_w w _ => errors_Is w target
     end.

(** ** crypto/rand: a tape of random bytes; reading past its end is the
       reader's error *)
Definition rand_Read (tape : list byte) (n : nat) : (list byte * list byte) + error :=
  if (n <=? length tape)%nat then inl (firstn n tape, skipn n tape)
  else inr (errors_New "crypto/rand: read failed").

(** ** net/url: the two fields of a parsed URL that the code reads *)
Module url.
Record URL : Type := { Scheme : string; Host : string }.
End url.

(** ** Package auth: manager.go *)

Definition ErrUnauthenticated : error := errors_New "unauthenticated".
Definition ErrForbidden : error := errors_New "forbidden".

Record ServiceToken : Type := { Name : string; Token : string }.

Record TemporaryCredentials : Type := {
  AccessKeyID : string;
  AccessKeySecret : string;
  ExpiresAt : time.Time;
  Subject : string
}.

Record tempRecord : Type := {
  secret : string;
  expiresAt : time.Time;
  subject : string
}.

Record Manager : Type := {
  enabled : bool;
  serviceTokens : gmap string ServiceToken;
  tempTTL : time.Duration;
  temps : gmap string tempRecord;
  usageCallbackAllowlist : gmap string (gset string)
}.

Definition set_temps (m : Manager) (t : gmap string tempRecord) : Manager :=
  {| enabled := enabled m; serviceTokens := serviceTokens m; tempTTL := tempTTL m;
     temps := t; usageCallbackAllowlist := usageCallbackAllowlist m |}.

Definition set_allowlist (m : Manager) (a : gmap string (gset string)) : Manager :=
  {| enabled := enabled m; serviceTokens := serviceTokens m; tempTTL := tempTTL m;
     temps := temps m; usageCallbackAllowlist := a |}.

(** The loop of [NewManager]: tokens with an empty [Token] are skipped, a
    later entry with the same token replaces an earlier one. *)
Fixpoint tokenMap (l : list ServiceToken) (st : gmap string ServiceToken)
  : gmap string ServiceToken :=
  match l with
  | [] => st
  | t :: rest =>
      if is_empty (Token t) then tokenMap rest st
      else tokenMap rest (<[Token t := t]> st)
  end.

Definition NewManager (tokens : list ServiceToken) (ttl : time.Duration) : Manager :=
  let st := tokenMap tokens ∅ in
  let ttl' := if ttl <=? 0 then 15 * time.Minute else ttl in
  {| enabled := (0 <? size st)%nat;
     serviceTokens := st;
     tempTTL := ttl';
     temps := ∅;
     usageCallbackAllowlist := ∅ |}.

(** [m.Enabled()] on a manager that is not [nil]. *)
Definition Enabled (m : Manager) : bool := enabled m.

(** [m.Enabled()] on a [*Manager]: [m != nil && m.enabled]. *)
Definition EnabledPtr (m : option Manager) : bool :=
  match m with
  | None => false
  | Some m' => enabled m'
  end.

Definition AuthenticateServiceToken (m : Manager) (token : string) : string * bool :=
  if negb (Enabled m) then ("", true)
  else if is_empty token then ("", false)
  else
    match serviceTokens m !! token with
    | None => ("", false)
    | Some t => if negb (is_empty (Name t)) then (Name t, true) else ("service", true)
    end.

Definition randHex (tape : list byte) (nBytes : nat) : (string * list byte) + error :=
  match rand_Read tape nBytes with
  | inr err => inr err
  | inl (b, tape') => inl (hex.EncodeToString b, tape')
  end.

Definition randB64 (tape : list byte) (nBytes : nat) : (string * list byte) + error :=
  match rand_Read tape nBytes with
  | inr err => inr err
  | inl (b, tape') => inl (base64.RawURLEncodeToString b, tape')
  end.

(** [IssueTemporaryCredentials]: the manager and the random tape are threaded
    through; [now] is the value of [time.Now()]. *)
Definition IssueTemporaryCredentials (m : Manager) (tape : list byte)
    (serviceToken : string) (now : time.Time)
  : Manager * list byte * (TemporaryCredentials + error) :=
  if negb (Enabled m) then (m, tape, inr (Errorf_w ErrForbidden ": auth not configured"))
  else
    let '(subject, ok) := AuthenticateServiceToken m serviceToken in
    if negb ok then (m, tape, inr ErrUnauthenticated)
    else
      match randHex tape 16 with
      | inr err => (m, tape, inr err)
      | inl (akid, tape1) =>
          match randB64 tape1 32 with
          | inr err => (m, tape1, inr err)
          | inl (secret, tape2) =>
              let exp := time.Add now (tempTTL m) in
              (set_temps m
                 (<[akid := {| secret := secret; expiresAt := exp; subject := subject |}]>
                    (temps m)),
               tape2,
               inl {| AccessKeyID := akid; AccessKeySecret := secret;
                      ExpiresAt := exp; Subject := subject |})
          end
      end.

Record SignatureInput : Type := {
  in_AccessKeyID : string;
  in_Signature : string;
  in_Timestamp : Z;
  in_Nonce : string;
  in_CallbackURL : string;
  in_HTTPMethod : string;
  in_HTTPPath : string;
  in_HTTPQuery : string;
  in_BodySHA256 : string;
  in_GRPCFullMethod : string
}.

(** [canonicalString]: [fmt.Sprintf] with the verbs [%d] and [%s] and literal
    newlines between them. *)
Definition canonicalString (i : SignatureInput) : string :=
  if negb (is_empty (in_HTTPMethod i)) && negb (is_empty (in_HTTPPath i)) then
    let resource := in_HTTPPath i in
    let resource :=
      if negb (is_empty (in_HTTPQuery i)) then resource +:+ "?" +:+ in_HTTPQuery i
      else resource in
    FormatInt (in_Timestamp i) +:+ LF +:+ in_Nonce i +:+ LF +:+ in_HTTPMethod i +:+ LF
      +:+ resource +:+ LF +:+ in_BodySHA256 i +:+ LF +:+ in_CallbackURL i
  else
    FormatInt (in_Timestamp i) +:+ LF +:+ in_Nonce i +:+ LF +:+ "GRPC" +:+ LF
      +:+ in_GRPCFullMethod i +:+ LF +:+ in_CallbackURL i.

Definition hmacSHA256Hex (secret msg : string) : string :=
  hex.EncodeToString (hmac.SumSHA256 (bytes_of_string secret) (bytes_of_string msg)).

Definition is_nil {A : Type} (e : option A) : bool :=
  match e with
  | None => true
  | Some _ => false
  end.

Definition AuthenticateSignature (m : Manager) (i : SignatureInput) (now : time.Time)
  : string * bool :=
  if negb (Enabled m) then ("", true)
  else if is_empty (in_AccessKeyID i) || is_empty (in_Signature i)
          || (in_Timestamp i =? 0) || is_empty (in_Nonce i) then ("", false)
  else
    let ts := time.Unix (in_Timestamp i) 0 in
    if time.Before ts (time.Add now (-5 * time.Minute))
       || time.After ts (time.Add now (5 * time.Minute)) then ("", false)
    else
      match temps m !! in_AccessKeyID i with
      | None => ("", false)
      | Some rec =>
          if time.After now (expiresAt rec) then ("", false)
          else
            let canonical := canonicalString i in
            let expected := hmacSHA256Hex (secret rec) canonical in
            let '(a, errA) := hex.DecodeString expected in
            let '(b, errB) := hex.DecodeString (in_Signature i) in
            if negb (is_nil errA) || negb (is_nil errB) then ("", false)
            else if negb (hmac.Equal a b) then ("", false)
            else (subject rec, true)
      end.

(** The allowlist functions call [url.Parse]; the parser of the Go standard
    library is a parameter of this part of the development. *)
Section Allowlist.

Variable url_Parse : string → url.URL + error.

Definition validateCallbackURL (raw : string) : option error :=
  match url_Parse raw with
  | inr _ => Some (Errorf_w ErrForbidden ": invalid callback url")
  | inl u =>
      if negb (String.eqb (url.Scheme u) "http") && negb (String.eqb (url.Scheme u) "https")
      then Some (Errorf_w ErrForbidden ": callback url scheme must be http or https")
      else if is_empty (url.Host u)
      then Some (Errorf_w ErrForbidden ": callback url host is empty")
      else None
  end.

(** The loop of [SetUsageCallbackAllowlist] over [urls]: empty strings are
    skipped, the first URL that does not validate ends the loop with its
    error. *)
Fixpoint collectURLs (urls : list string) (set : gset string) : gset string + error :=
  match urls with
  | [] => inl set
  | u :: rest =>
      if is_empty u then collectURLs rest set
      else
        match validateCallbackURL u with
        | Some err => inr err
        | None => collectURLs rest ({[u]} ∪ set)
        end
  end.

Definition SetUsageCallbackAllowlist (m : Manager) (subject : string) (urls : list string)
  : Manager * option error :=
  if negb (Enabled m) then (m, Some (Errorf_w ErrForbidden ": auth not configured"))
  else if is_empty subject then (m, Some (Errorf_w ErrForbidden ": missing subject"))
  else
    match collectURLs urls ∅ with
    | inr err => (m, Some err)
    | inl set =>
        if (size set =? 0)%nat
        then (set_allowlist m (delete subject (usageCallbackAllowlist m)), None)
        else (set_allowlist m (<[subject := set]> (usageCallbackAllowlist m)), None)
    end.

End Allowlist.

Definition IsUsageCallbackAllowed (m : Manager) (subject url : string) : bool :=
  if negb (Enabled m) then false
  else if is_empty subject || is_empty url then false
  else
    match usageCallbackAllowlist m !! subject with
    | None => false
    | Some set => if (size set =? 0)%nat then false else bool_decide (url ∈ set)
    end.

(** [UsageCallbackAllowlist]: the elements of the subject's set, sorted by
    [sort.Strings] (bytewise order). *)
Definition UsageCallbackAllowlist (m : Manager) (subject : string) : list string :=
  if negb (Enabled m) then []
  else if is_empty subject then []
  else
    match usageCallbackAllowlist m !! subject with
    | None => []
    | Some set =>
        if (size set =? 0)%nat then []
        else merge_sort String.le (elements set)
    end.

(** ** Package auth: context.go *)

Definition Method : Type := string.
Definition MethodServiceToken : Method := "service_token".
Definition MethodSignature : Method := "signature".

(** [metadata.MD] *)
Definition MD_Get (md : gmap string (list string)) (k : string) : list string :=
  match md !! strings.ToLower k with
  | Some v => v
  | None => []
  end.

(** A call context: the two values this package attaches and the incoming
    metadata of the call (empty when the context carries none). *)
Record Context : Type := {
  ctxSubject : option string;
  ctxMethod : option Method;
  incomingMD : gmap string (list string)
}.

Definition WithSubject (ctx : Context) (subject : string) : Context :=
  if is_empty subject then ctx
  else {| ctxSubject := Some subject; ctxMethod := ctxMethod ctx;
          incomingMD := incomingMD ctx |}.

Definition SubjectFromContext (ctx : Context) : string :=
  match ctxSubject ctx with
  | Some v => v
  | None => ""
  end.

Definition WithMethod (ctx : Context) (m : Method) : Context :=
  if is_empty m then ctx
  else {| ctxSubject := ctxSubject ctx; ctxMethod := Some m;
          incomingMD := incomingMD ctx |}.

Definition MethodFromContext (ctx : Context) : Method :=
  match ctxMethod ctx with
  | Some v => v
  | None => ""
  end.

(** ** Package auth: interceptors.go *)

Inductive Code : Type :=
| Unauthenticated
| PermissionDenied
| InvalidArgument
| FailedPrecondition
| Internal.

(** [status.Error(code, msg)] *)
Record Status : Type := { code : Code; message : string }.

Definition mdServiceToken : string := "x-service-token".
Definition mdAccessKeyID : string := "x-access-key-id".
Definition mdSignature : string := "x-signature".
Definition mdTimestamp : string := "x-timestamp".
Definition mdNonce : string := "x-nonce".
Definition mdCallbackURL : string := "x-usage-callback".
Definition mdHTTPMethod : string := "x-llmgw-http-method".
Definition mdHTTPPath : string := "x-llmgw-http-path".
Definition mdHTTPQuery : string := "x-llmgw-http-query".
Definition mdBodySHA256 : string := "x-llmgw-body-sha256".

Definition first (v : list string) : string :=
  match v with
  | [] => ""
  | x :: _ => x
  end.

(** The loop of [parseInt64]; [i] is the index of the byte [r], [n] and
    [sign] the two variables of the function. The source ranges over runes: a
    byte below [0x80] is a rune of its own, and any byte from [0x80] on
    belongs to a rune that is no digit (or is invalid, which decodes to
    [U+FFFD]), so that the loop returns 0 at it either way. *)
Fixpoint parseInt64_from (s : string) (i : nat) (n sign : Z) : Z :=
  match s with
  | EmptyString => wrap64 (n * sign)
  | String r rest =>
      if (i =? 0)%nat && (Z_of_ascii r =? 45) then parseInt64_from rest (S i) n (-1)
      else if (Z_of_ascii r <? 48) || (57 <? Z_of_ascii r) then 0
      else parseInt64_from rest (S i) (wrap64 (n * 10 + (Z_of_ascii r - 48))) sign
  end.

Definition parseInt64 (s : string) : Z := parseInt64_from s 0 0 1.

(** The [SignatureInput] that [authenticate] assembles from the metadata. *)
Definition signatureInputOf (md : gmap string (list string)) (fullMethod : string)
  : SignatureInput :=
  {| in_AccessKeyID := first (MD_Get md mdAccessKeyID);
     in_Signature := first (MD_Get md mdSignature);
     in_Timestamp := parseInt64 (first (MD_Get md mdTimestamp));
     in_Nonce := first (MD_Get md mdNonce);
     in_CallbackURL := first (MD_Get md mdCallbackURL);
     in_HTTPMethod := first (MD_Get md mdHTTPMethod);
     in_HTTPPath := first (MD_Get md mdHTTPPath);
     in_HTTPQuery := first (MD_Get md mdHTTPQuery);
     in_BodySHA256 := first (MD_Get md mdBodySHA256);
     in_GRPCFullMethod := fullMethod |}.

(** [authenticate]; [now] is the value of [time.Now()]. *)
Definition authenticate (ctx : Context) (mgr : Manager) (fullMethod : string)
    (now : time.Time) : (string * Method) + Status :=
  let md := incomingMD ctx in
  let tok := first (MD_Get md mdServiceToken) in
  if negb (is_empty tok) then
    let '(subject, ok) := AuthenticateServiceToken mgr tok in
    if ok then inl (subject, MethodServiceToken)
    else inr {| code := Unauthenticated; message := "invalid service token" |}
  else if strings.HasSuffix fullMethod "/IssueTemporaryCredentials" then
    inr {| code := Unauthenticated; message := "service token required" |}
  else
    let i := signatureInputOf md fullMethod in
    let '(subject, ok) := AuthenticateSignature mgr i now in
    if ok then inl (subject, MethodSignature)
    else inr {| code := Unauthenticated; message := "invalid signature" |}.

(** [UnaryServerInterceptor]: the handler is a function of the context and of
    a state [S] of its own; a rejected call does not run it. *)
Definition UnaryServerInterceptor {S Resp : Type} (mgr : option Manager)
    (ctx : Context) (fullMethod : string) (now : time.Time)
    (handler : Context → S → S * (Resp + Status)) (st : S) : S * (Resp + Status) :=
  match mgr with
  | None => handler ctx st
  | Some m =>
      if negb (Enabled m) then handler ctx st
      else
        match authenticate ctx m fullMethod now with
        | inr err => (st, inr err)
        | inl (subject, method) =>
            handler (WithMethod (WithSubject ctx subject) method) st
        end
  end.

(** [StreamServerInterceptor]: the same decision on the context of the
    stream; the handler runs on the stream with the new context. *)
Definition StreamServerInterceptor {S : Type} (mgr : option Manager)
    (ssContext : Context) (fullMethod : string) (now : time.Time)
    (handler : Context → S → S * option Status) (st : S) : S * option Status :=
  match mgr with
  | None => handler ssContext st
  | Some m =>
      if negb (Enabled m) then handler ssContext st
      else
        match authenticate ssContext m fullMethod now with
        | inr err => (st, Some err)
        | inl (subject, method) =>
            handler (WithMethod (WithSubject ssContext subject) method) st
        end
  end.

(** ** Package grpcadapter: the usage-callback handlers

    The state of a handler is the service's [authMgr] pointer. *)
Section Handlers.

Variable url_Parse : string → url.URL + error.

Definition SetUsageCallback (ctx : Context) (urls : list string)
    (authMgr : option Manager) : option Manager * (list string + Status) :=
  match authMgr with
  | None => (None, inr {| code := FailedPrecondition; message := "auth not configured" |})
  | Some m =>
      if negb (String.eqb (MethodFromContext ctx) MethodServiceToken) then
        (Some m, inr {| code := PermissionDenied; message := "service token required" |})
      else
        let subject := SubjectFromContext ctx in
        if is_empty subject then
          (Some m, inr {| code := PermissionDenied; message := "missing subject" |})
        else
          match SetUsageCallbackAllowlist url_Parse m subject urls with
          | (m', Some err) =>
              if errors_Is err ErrForbidden then
                (Some m', inr {| code := InvalidArgument; message := Error err |})
              else (Some m', inr {| code := Internal; message := Error err |})
          | (m', None) => (Some m', inl (UsageCallbackAllowlist m' subject))
          end
  end.

Definition GetUsageCallback (ctx : Context) (authMgr : option Manager)
  : option Manager * (list string + Status) :=
  match authMgr with
  | None => (None, inr {| code := FailedPrecondition; message := "auth not configured" |})
  | Some m =>
      if negb (String.eqb (MethodFromContext ctx) MethodServiceToken) then
        (Some m, inr {| code := PermissionDenied; message := "service token required" |})
      else
        let subject := SubjectFromContext ctx in
        if is_empty subject then
          (Some m, inr {| code := PermissionDenied; message := "missing subject" |})
        else (Some m, inl (UsageCallbackAllowlist m subject))
  end.

End Handlers.

(** ** Package httpgateway: the handler in front of the gRPC gateway *)
Module httpgateway.

(** [validHeaderFieldByte] of net/textproto: the token bytes of RFC 7230. *)
Definition validHeaderFieldByte (c : ascii) : bool :=
  let n := Z_of_ascii c in
  ((48 <=? n) && (n <=? 57)) || ((65 <=? n) && (n <=? 90)) || ((97 <=? n) && (n <=? 122))
  || existsb (Z.eqb n) [33; 35; 36; 37; 38; 39; 42; 43; 45; 46; 94; 95; 96; 124; 126].

Fixpoint allValid (s : string) : bool :=
  match s with
  | EmptyString => true
  | String c rest => validHeaderFieldByte c && allValid rest
  end.

Definition upper_byte (c : ascii) : ascii :=
  let n := Z_of_ascii c in
  if (97 <=? n) && (n <=? 122) then ascii_of_N (Z.to_N (n - 32)) else c.

Fixpoint canon (upper : bool) (s : string) : string :=
  match s with
  | EmptyString => EmptyString
  | String c rest =>
      let c' := if upper then upper_byte c else strings.lower_byte c in
      String c' (canon (Z_of_ascii c' =? 45) rest)
  end.

(** [textproto.CanonicalMIMEHeaderKey]: a key with a byte that is no token
    byte is returned as it is; otherwise the first letter and every letter
    after a hyphen are upper case and the others lower case. *)
Definition CanonicalMIMEHeaderKey (s : string) : string :=
  if allValid s then canon true s else s.

(** [http.Header] *)
Definition Header_Get (h : gmap string (list string)) (key : string) : string :=
  match h !! CanonicalMIMEHeaderKey key with
  | Some (v :: _) => v
  | _ => ""
  end.

Definition Header_Set (h : gmap string (list string)) (key value : string)
  : gmap string (list string) :=
  <[CanonicalMIMEHeaderKey key := [value]]> h.

(** A request body as a reader: the bytes it yields, followed by the end
    of the stream or by a read error. *)
Record Body : Type := { data : list byte; readError : bool }.

Record Request : Type := {
  Method_ : string;
  URL_Path : string;
  URL_RawQuery : string;
  Header : gmap string (list string);
  Body_ : Body
}.

Fixpoint take (n : Z) (l : list byte) : list byte :=
  match l with
  | [] => []
  | x :: rest => if n <=? 0 then [] else x :: take (n - 1) rest
  end.

(** [io.ReadAll(io.LimitReader(body, n))]: at most [n] bytes; the error of
    the reader is met only when the limit is not reached first. *)
Definition ReadAllLimited (body : Body) (n : Z) : list byte * bool :=
  if n <=? Z.of_nat (length (data body)) then (take n (data body), false)
  else (data body, readError body).

Definition maxBody : Z := Z.shiftl 10 20.

Definition StatusRequestEntityTooLarge : Z := 413.

(** What the handler does with a request: answer with [http.Error], or
    hand the request (headers and body as it left them) to the gateway
    mux. *)
Inductive Outcome : Type :=
| HttpError (msg : string) (status : Z)
| ServeGateway (r : Request).

Definition with_Header (r : Request) (h : gmap string (list string)) : Request :=
  {| Method_ := Method_ r; URL_Path := URL_Path r; URL_RawQuery := URL_RawQuery r;
     Header := h; Body_ := Body_ r |}.

Definition with_Body (r : Request) (b : Body) : Request :=
  {| Method_ := Method_ r; URL_Path := URL_Path r; URL_RawQuery := URL_RawQuery r;
     Header := Header r; Body_ := b |}.

(** The local [hasSig] of the handler: signature auth is attempted. *)
Definition hasSig (h : gmap string (list string)) : bool :=
  negb (is_empty (Header_Get h "X-Access-Key-Id"))
  || negb (is_empty (Header_Get h "X-Signature"))
  || negb (is_empty (Header_Get h "X-Timestamp"))
  || negb (is_empty (Header_Get h "X-Nonce")).

(** The handler registered on ["/"] by [Start]. *)
Definition handler (r : Request) : Outcome :=
  let r := with_Header r (Header_Set (Header r) "X-LLMGW-HTTP-Method" (Method_ r)) in
  let r := with_Header r (Header_Set (Header r) "X-LLMGW-HTTP-Path" (URL_Path r)) in
  let r := with_Header r (Header_Set (Header r) "X-LLMGW-HTTP-Query" (URL_RawQuery r)) in
  if negb (hasSig (Header r)) then
    let sum := sha256.Sum256 [] in
    ServeGateway
      (with_Header r (Header_Set (Header r) "X-LLMGW-Body-SHA256" (hex.EncodeToString sum)))
  else
    let '(b, err) := ReadAllLimited (Body_ r) (maxBody + 1) in
    if err || (maxBody <? Z.of_nat (length b)) then
      HttpError "request body too large for signature verification"
                StatusRequestEntityTooLarge
    else
      let r := with_Body r {| data := b; readError := false |} in
      let sum := sha256.Sum256 b in
      ServeGateway
        (with_Header r (Header_Set (Header r) "X-LLMGW-Body-SHA256" (hex.EncodeToString sum))).

(** The matcher given to [runtime.WithIncomingHeaderMatcher]; the default
    matcher of the gateway runtime is a parameter. *)
Definition headerMatcher (DefaultHeaderMatcher : string → string * bool) (key : string)
  : string * bool :=
  let k := strings.ToLower key in
  if existsb (String.eqb k)
       [ "x-service-token"; "x-access-key-id"; "x-signature"; "x-timestamp"; "x-nonce";
         "x-usage-callback"; "x-llmgw-http-method"; "x-llmgw-http-path";
         "x-llmgw-http-query"; "x-llmgw-body-sha256" ]
  then (k, true)
  else DefaultHeaderMatcher key.

End httpgateway.

(** * The use cases behind the gateway and the rest of the gRPC adapter *)

(** ** Package llm (domain): errors.go and the types of the use cases

    A [float32] or [float64] is kept as its IEEE bits; this code copies such
    values and computes nothing with them. [uint32] counters are [Z]. *)
Module llm.

Definition float32 : Type := Z.
Definition float64 : Type := Z.

Definition ErrInvalidArgument : error := errors_New "invalid argument".

(** [InvalidArgument]: [fmt.Errorf("%w: %s", ErrInvalidArgument, msg)]. *)
Definition InvalidArgument (msg : string) : error :=
  if is_empty msg then ErrInvalidArgument
  else Errorf_w ErrInvalidArgument (": " +:+ msg).

Record Model : Type := {
  model_ID : string;
  model_Name : string;
  model_Provider : string;
  model_Capabilities : list string
}.

Record Embedding : Type := { emb_Index : Z; emb_Vector : list float32 }.

Record TokenUsage : Type := {
  PromptTokens : Z;
  CompletionTokens : Z;
  TotalTokens : Z
}.

Record ImageURL : Type := { img_URL : string; img_Detail : string }.

Record ContentPart : Type := {
  part_Type : string;
  part_Text : string;
  part_ImageURL : option ImageURL
}.

Record ChatMessage : Type := {
  msg_Role : string;
  msg_Content : string;
  msg_ContentParts : list ContentPart;
  msg_Name : string
}.

Record ChatCompletionChoice : Type := {
  choice_Index : Z;
  choice_Message : ChatMessage;
  choice_FinishReason : string
}.

Record ChatCompletionRequest : Type := {
  chat_Model : string;
  chat_Messages : list ChatMessage;
  chat_Temperature : float64;
  chat_MaxTokens : Z;
  chat_User : string
}.

Record ChatCompletionResponse : Type := {
  chatr_ID : string;
  chatr_Created : Z;
  chatr_Model : string;
  chatr_Choices : list ChatCompletionChoice;
  chatr_Usage : TokenUsage
}.

Record EmbeddingsRequest : Type := {
  embq_Model : string;
  embq_Input : list string;
  embq_User : string
}.

Record EmbeddingsUsage : Type := { embu_PromptTokens : Z; embu_TotalTokens : Z }.

Record EmbeddingsResponse : Type := {
  embr_ID : string;
  embr_Model : string;
  embr_Data : list Embedding;
  embr_Usage : EmbeddingsUsage
}.

Record Generation : Type := {
  gen_ID : string;
  gen_Model : string;
  gen_Created : Z;
  gen_Usage : TokenUsage
}.

End llm.

(** [strings.SplitN(s, sep, 2)] for a separator of one byte: the string
    itself when it has no separator, the text before the first separator and
    the text after it otherwise. *)
Fixpoint strings_SplitN_2 (s : string) (sep : ascii) : list string :=
  match s with
  | EmptyString => [EmptyString]
  | String c rest =>
      if Ascii.eqb c sep then [EmptyString; rest]
      else
        match strings_SplitN_2 rest sep with
        | [before; after] => [String c before; after]
        | _ => [s]
        end
  end.

(** ** Package llmgateway (application): service.go, ports.go

    A provider is an upstream service: here a function from the request to
    its answer. A generation repository has a state [S] of its own, threaded
    through the calls. *)
Module llmgateway.

Record Provider : Type := {
  CreateChatCompletion_ : llm.ChatCompletionRequest → llm.ChatCompletionResponse + error;
  CreateEmbeddings_ : llm.EmbeddingsRequest → llm.EmbeddingsResponse + error
}.

Record GenerationRepository (S : Type) : Type := {
  Save : S → llm.Generation → S * option error;
  Get : S → string → llm.Generation + error
}.
Arguments Save {S}.
Arguments Get {S}.

Record ModelSpec : Type := {
  spec_ID : string;
  spec_Name : string;
  spec_Provider : string;
  spec_Capabilities : list string;
  spec_UpstreamModel : string
}.

(** [providers[name]] is [nil] for a name without an entry: [None]. *)
Record Service (S : Type) : Type := {
  providers : gmap string Provider;
  models : gmap string ModelSpec;
  generations : option (GenerationRepository S)
}.
Arguments providers {S}.
Arguments models {S}.
Arguments generations {S}.

(** The loop of [NewService]: a later spec replaces an earlier one with the
    same ID. *)
Fixpoint modelMap (l : list ModelSpec) (mm : gmap string ModelSpec) : gmap string ModelSpec :=
  match l with
  | [] => mm
  | m :: rest => modelMap rest (<[spec_ID m := m]> mm)
  end.

Definition NewService {S : Type} (provs : gmap string Provider) (specs : list ModelSpec)
    (gens : option (GenerationRepository S)) : Service S :=
  {| providers := provs; models := modelMap specs ∅; generations := gens |}.

Definition toModel (m : ModelSpec) : llm.Model :=
  {| llm.model_ID := spec_ID m; llm.model_Name := spec_Name m;
     llm.model_Provider := spec_Provider m; llm.model_Capabilities := spec_Capabilities m |}.

(** [ListModels] ranges over the map, in no specified order: here the order
    of [map_to_list]. *)
Definition ListModels {S : Type} (s : Service S) : list llm.Model + error :=
  inl (map (fun kv => toModel (snd kv)) (map_to_list (models s))).

Definition GetModel {S : Type} (s : Service S) (id : string) : llm.Model + error :=
  if is_empty id then inr (llm.InvalidArgument "id is required")
  else
    match models s !! id with
    | None => inr (llm.InvalidArgument ("unknown model: " +:+ id))
    | Some m => inl (toModel m)
    end.

Definition resolveProviderAndUpstreamModel {S : Type} (s : Service S) (routedModel : string)
  : (Provider * string) + error :=
  let derive :=
    match strings_SplitN_2 routedModel "/" with
    | [providerName; upstreamModel] =>
        if is_empty providerName || is_empty upstreamModel then
          inr (llm.InvalidArgument "invalid model format, expected provider/model")
        else
          match providers s !! providerName with
          | None => inr (llm.InvalidArgument ("unknown provider: " +:+ providerName))
          | Some p => inl (p, upstreamModel)
          end
    | _ => inr (llm.InvalidArgument "invalid model format, expected provider/model")
    end in
  match models s !! routedModel with
  | Some m =>
      match providers s !! spec_Provider m with
      | None => inr (errors_New ("no provider configured: " +:+ spec_Provider m))
      | Some p =>
          if negb (is_empty (spec_UpstreamModel m)) then inl (p, spec_UpstreamModel m)
          else derive
      end
  | None => derive
  end.

Definition buildGenerationFromChat (routedModel : string) (resp : llm.ChatCompletionResponse)
  : llm.Generation :=
  {| llm.gen_ID := llm.chatr_ID resp; llm.gen_Model := routedModel;
     llm.gen_Created := llm.chatr_Created resp; llm.gen_Usage := llm.chatr_Usage resp |}.

Definition buildGenerationFromEmbeddings (routedModel : string)
    (resp : llm.EmbeddingsResponse) : llm.Generation :=
  let usage :=
    {| llm.PromptTokens := llm.embu_PromptTokens (llm.embr_Usage resp);
       llm.CompletionTokens := 0;
       llm.TotalTokens := llm.embu_TotalTokens (llm.embr_Usage resp) |} in
  {| llm.gen_ID := llm.embr_ID resp; llm.gen_Model := routedModel;
     llm.gen_Created := 0; llm.gen_Usage := usage |}.

(** The best-effort [Save]: its error is dropped. *)
Definition saveBestEffort {S : Type} (s : Service S) (st : S) (gen : llm.Generation) : S :=
  match generations s with
  | None => st
  | Some repo => fst (Save repo st gen)
  end.

Definition CreateEmbeddings {S : Type} (s : Service S) (st : S) (req : llm.EmbeddingsRequest)
  : S * (llm.EmbeddingsResponse + error) :=
  if is_empty (llm.embq_Model req) then (st, inr (llm.InvalidArgument "model is required"))
  else if (length (llm.embq_Input req) =? 0)%nat then
    (st, inr (llm.InvalidArgument "input is required"))
  else
    let routedModel := llm.embq_Model req in
    match resolveProviderAndUpstreamModel s routedModel with
    | inr err => (st, inr err)
    | inl (p, upstreamModel) =>
        let req :=
          {| llm.embq_Model := upstreamModel; llm.embq_Input := llm.embq_Input req;
             llm.embq_User := llm.embq_User req |} in
        match CreateEmbeddings_ p req with
        | inr err => (st, inr err)
        | inl resp =>
            (saveBestEffort s st (buildGenerationFromEmbeddings routedModel resp), inl resp)
        end
    end.

Definition CreateChatCompletion {S : Type} (s : Service S) (st : S)
    (req : llm.ChatCompletionRequest) : S * (llm.ChatCompletionResponse + error) :=
  if is_empty (llm.chat_Model req) then (st, inr (llm.InvalidArgument "model is required"))
  else if (length (llm.chat_Messages req) =? 0)%nat then
    (st, inr (llm.InvalidArgument "messages is required"))
  else
    let routedModel := llm.chat_Model req in
    match resolveProviderAndUpstreamModel s routedModel with
    | inr err => (st, inr err)
    | inl (p, upstreamModel) =>
        let req :=
          {| llm.chat_Model := upstreamModel; llm.chat_Messages := llm.chat_Messages req;
             llm.chat_Temperature := llm.chat_Temperature req;
             llm.chat_MaxTokens := llm.chat_MaxTokens req;
             llm.chat_User := llm.chat_User req |} in
        match CreateChatCompletion_ p req with
        | inr err => (st, inr err)
        | inl resp =>
            (saveBestEffort s st (buildGenerationFromChat routedModel resp), inl resp)
        end
    end.

Definition GetGeneration {S : Type} (s : Service S) (st : S) (id : string)
  : llm.Generation + error :=
  if is_empty id then inr (llm.InvalidArgument "id is required")
  else
    match generations s with
    | None => inr (llm.InvalidArgument "generation repository not configured")
    | Some repo => Get repo st id
    end.

End llmgateway.

(** ** Package usagecallback: the payload of a notification *)
Module usagecallback.

Record Payload : Type := {
  Event : string;
  Subject_ : string;
  RequestID : string;
  Operation : string;
  GenerationID : string;
  Model_ : string;
  CreatedUnix : Z;
  PromptTokens_ : Z;
  CompletionTokens_ : Z;
  TotalTokens_ : Z;
  OccurredAtUnix : Z
}.

End usagecallback.

(** ** structpb: the values of a [google.protobuf.Value]

    The [Kind] of a [*structpb.Value] is one of six wrappers, none of them
    a [nil] pointer of its type, or [nil] ([KindNil]). A [*Struct], a
    [*ListValue] and a [*Value] inside them are pointers that may be [nil]:
    [None]. A [nil] map of fields reads as the empty map. Numbers are kept as
    their IEEE bits. *)
Module structpb.

#[warnings="-register-all"]
Inductive Value : Type :=
| KindNil
| NullValue
| NumberValue (f : llm.float64)
| StringValue (s : string)
| BoolValue (b : bool)
| StructValue (fields : option (gmap string (option Value)))
| ListValue (values : option (list (option Value))).

Definition NewStringValue (v : string) : Value := StringValue v.

End structpb.

(** ** Package grpcadapter: the other functions of llmgateway_service.go *)
Module grpcadapter.

(** [t.Unix()]: the seconds of a time. *)
Definition time_Unix_of (t : time.Time) : Z := t / time.Second.

Record TemporaryCredentialsResponse : Type := {
  AccessKeyId : string;
  AccessKeySecret_ : string;
  ExpiresAtUnix : Z
}.

(** The handler [IssueTemporaryCredentials]; the state is the service's
    manager and the random tape. *)
Definition IssueTemporaryCredentials (ctx : Context) (authMgr : option Manager)
    (tape : list byte) (now : time.Time)
  : option Manager * list byte * (TemporaryCredentialsResponse + Status) :=
  match authMgr with
  | None =>
      (None, tape, inr {| code := FailedPrecondition; message := "auth not configured" |})
  | Some m =>
      let serviceToken := first (MD_Get (incomingMD ctx) "x-service-token") in
      match IssueTemporaryCredentials m tape serviceToken now with
      | (m', tape', inr err) =>
          if errors_Is err ErrUnauthenticated then
            (Some m', tape',
             inr {| code := Unauthenticated; message := "invalid service token" |})
          else if errors_Is err ErrForbidden then
            (Some m', tape', inr {| code := FailedPrecondition; message := Error err |})
          else (Some m', tape', inr {| code := Internal; message := Error err |})
      | (m', tape', inl creds) =>
          (Some m', tape',
           inl {| AccessKeyId := AccessKeyID creds;
                  AccessKeySecret_ := AccessKeySecret creds;
                  ExpiresAtUnix := time_Unix_of (ExpiresAt creds) |})
      end
  end.

(** [toStatusErr]; [None] is the [nil] error. *)
Definition toStatusErr (err : option error) : option Status :=
  match err with
  | None => None
  | Some e =>
      if errors_Is e llm.ErrInvalidArgument then
        Some {| code := InvalidArgument; message := Error e |}
      else Some {| code := Internal; message := Error e |}
  end.

(** The service value; [cbSender] tells whether a callback sender is set. *)
Record LLMGatewayService (S : Type) : Type := {
  app : llmgateway.Service S;
  authMgr : option Manager;
  cbSender : bool
}.
Arguments app {S}.
Arguments authMgr {S}.
Arguments cbSender {S}.

(** [NewLLMGatewayService] always sets a sender. *)
Definition NewLLMGatewayService {S : Type} (app : llmgateway.Service S)
    (mgr : option Manager) : LLMGatewayService S :=
  {| app := app; authMgr := mgr; cbSender := true |}.

(** [maybeSendUsageCallback]: the notification that the function starts to
    send in a goroutine of its own, its URL and payload, or [None] when it
    sends nothing; [now] is the value of [time.Now()]. *)
Definition maybeSendUsageCallback {S : Type} (s : LLMGatewayService S) (ctx : Context)
    (op : string) (gen : llm.Generation) (now : time.Time)
  : option (string * usagecallback.Payload) :=
  match authMgr s with
  | None => None
  | Some mgr =>
      if negb (cbSender s) then None
      else
        let subject := SubjectFromContext ctx in
        if is_empty subject then None
        else
          let cbURL := first (MD_Get (incomingMD ctx) "x-usage-callback") in
          if is_empty cbURL then None
          else if negb (IsUsageCallbackAllowed mgr subject cbURL) then None
          else
            let requestID := first (MD_Get (incomingMD ctx) "x-request-id") in
            Some (cbURL,
                  {| usagecallback.Event := "llm.usage";
                     usagecallback.Subject_ := subject;
                     usagecallback.RequestID := requestID;
                     usagecallback.Operation := op;
                     usagecallback.GenerationID := llm.gen_ID gen;
                     usagecallback.Model_ := llm.gen_Model gen;
                     usagecallback.CreatedUnix := llm.gen_Created gen;
                     usagecallback.PromptTokens_ := llm.PromptTokens (llm.gen_Usage gen);
                     usagecallback.CompletionTokens_ := llm.CompletionTokens (llm.gen_Usage gen);
                     usagecallback.TotalTokens_ := llm.TotalTokens (llm.gen_Usage gen);
                     usagecallback.OccurredAtUnix := time_Unix_of now |})
  end.

(** The messages of the embeddings call. *)
Record CreateEmbeddingsRequest : Type := {
  pbq_Model : string;
  pbq_Input : list string;
  pbq_User : string
}.

Record pbEmbedding : Type := { pb_Index : Z; pb_Embedding : list llm.float32 }.

Record pbEmbeddingsUsage : Type := { pb_PromptTokens : Z; pb_TotalTokens : Z }.

Record CreateEmbeddingsResponse : Type := {
  pbr_Id : string;
  pbr_Model : string;
  pbr_Data : list pbEmbedding;
  pbr_Usage : pbEmbeddingsUsage
}.

(** The handler [CreateEmbeddings]: the state of the repository, the pair
    that the Go function returns (response and error) and the notification
    that it starts to send. *)
Definition CreateEmbeddings {S : Type} (s : LLMGatewayService S) (ctx : Context)
    (req : CreateEmbeddingsRequest) (st : S) (now : time.Time)
  : S * (option CreateEmbeddingsResponse * option Status)
    * option (string * usagecallback.Payload) :=
  match llmgateway.CreateEmbeddings (app s) st
          {| llm.embq_Model := pbq_Model req; llm.embq_Input := pbq_Input req;
             llm.embq_User := pbq_User req |} with
  | (st', inr err) => (st', (None, toStatusErr (Some err)), None)
  | (st', inl res) =>
      let sent :=
        maybeSendUsageCallback s ctx "embeddings"
          {| llm.gen_ID := llm.embr_ID res; llm.gen_Model := llm.embr_Model res;
             llm.gen_Created := 0;
             llm.gen_Usage :=
               {| llm.PromptTokens := llm.embu_PromptTokens (llm.embr_Usage res);
                  llm.CompletionTokens := 0;
                  llm.TotalTokens := llm.embu_TotalTokens (llm.embr_Usage res) |} |} now in
      let data :=
        map (fun e => {| pb_Index := llm.emb_Index e; pb_Embedding := llm.emb_Vector e |})
          (llm.embr_Data res) in
      (st',
       (Some {| pbr_Id := llm.embr_ID res; pbr_Model := llm.embr_Model res; pbr_Data := data;
                pbr_Usage :=
                  {| pb_PromptTokens := llm.embu_PromptTokens (llm.embr_Usage res);
                     pb_TotalTokens := llm.embu_TotalTokens (llm.embr_Usage res) |} |},
        None),
       sent)
  end.

(** The outcome of a call that may stop with a nil-pointer panic. *)
Inductive Outcome (A : Type) : Type :=
| Returns (a : A)
| Panics.
Arguments Returns {A}.
Arguments Panics {A}.

Definition bind {A B : Type} (o : Outcome A) (f : A → Outcome B) : Outcome B :=
  match o with
  | Returns a => f a
  | Panics => Panics
  end.

(** The value of a string variable [x] after the source has looked up the
    field [name]: a field that is present and of the string kind is assigned
    to [x], any other kind leaves [x] as it is, and reading the kind of a
    [nil] value panics. *)
Definition stringField (fields : gmap string (option structpb.Value)) (name : string)
    (x : string) : Outcome string :=
  match fields !! name with
  | None => Returns x
  | Some None => Panics
  | Some (Some (structpb.StringValue s)) => Returns s
  | Some (Some _) => Returns x
  end.

Definition parseContentPart (v : option structpb.Value)
  : Outcome (llm.ContentPart + error) :=
  match v with
  | None => Panics
  | Some (structpb.StructValue (Some fields)) =>
      bind (stringField fields "type" "") (fun type_ =>
      bind (stringField fields "text" "") (fun text =>
      bind (match fields !! "image_url" with
            | None => Returns None
            | Some None => Panics
            | Some (Some (structpb.StructValue (Some imgFields))) =>
                bind (stringField imgFields "url" "") (fun url_ =>
                bind (stringField imgFields "detail" "") (fun detail =>
                Returns (Some {| llm.img_URL := url_; llm.img_Detail := detail |})))
            | Some (Some _) => Returns None
            end) (fun image =>
      Returns (inl {| llm.part_Type := type_; llm.part_Text := text;
                      llm.part_ImageURL := image |}))))
  | Some _ => Returns (inr (errors_New "content part must be an object"))
  end.

(** The loop of [parseMessageContent] over the items of a list; [parts] is
    [msg.ContentParts], which keeps the parts appended before an error. *)
Fixpoint parseParts (items : list (option structpb.Value)) (parts : list llm.ContentPart)
  : Outcome (list llm.ContentPart * option error) :=
  match items with
  | [] => Returns (parts, None)
  | item :: rest =>
      match parseContentPart item with
      | Panics => Panics
      | Returns (inr err) => Returns (parts, Some err)
      | Returns (inl part) => parseParts rest (parts ++ [part])
      end
  end.

(** [parseMessageContent] writes to [*msg]: the message after the call and
    the error. *)
Definition parseMessageContent (content : option structpb.Value) (msg : llm.ChatMessage)
  : Outcome (llm.ChatMessage * option error) :=
  match content with
  | None => Returns (msg, None)
  | Some (structpb.StringValue s) =>
      Returns ({| llm.msg_Role := llm.msg_Role msg; llm.msg_Content := s;
                  llm.msg_ContentParts := llm.msg_ContentParts msg;
                  llm.msg_Name := llm.msg_Name msg |}, None)
  | Some (structpb.ListValue None) => Returns (msg, None)
  | Some (structpb.ListValue (Some values)) =>
      match parseParts values [] with
      | Panics => Panics
      | Returns (parts, err) =>
          Returns ({| llm.msg_Role := llm.msg_Role msg; llm.msg_Content := llm.msg_Content msg;
                      llm.msg_ContentParts := parts; llm.msg_Name := llm.msg_Name msg |}, err)
      end
  | Some structpb.NullValue => Returns (msg, None)
  | Some _ => Returns (msg, Some (errors_New "content must be a string or array"))
  end.

(** The messages of the chat call. A [nil] message of a request reads, by
    its getters, as the message with empty fields and no content. *)
Record pbChatMessage : Type := {
  pbm_Role : string;
  pbm_Content : option structpb.Value;
  pbm_Name : string
}.

Record CreateChatCompletionRequest : Type := {
  pbc_Model : string;
  pbc_Messages : list pbChatMessage;
  pbc_Temperature : llm.float64;
  pbc_MaxTokens : Z;
  pbc_User : string
}.

Record pbChatCompletionChoice : Type := {
  pbch_Index : Z;
  pbch_Message : pbChatMessage;
  pbch_FinishReason : string
}.

Record pbTokenUsage : Type := {
  pbu_PromptTokens : Z;
  pbu_CompletionTokens : Z;
  pbu_TotalTokens : Z
}.

Record CreateChatCompletionResponse : Type := {
  pbcr_Id : string;
  pbcr_Created : Z;
  pbcr_Model : string;
  pbcr_Choices : list pbChatCompletionChoice;
  pbcr_Usage : pbTokenUsage
}.

(** The first loop of [CreateChatCompletion]: the messages converted so far
    are [msgs]; a message whose content does not parse ends the call. *)
Fixpoint convertMessages (ms : list pbChatMessage) (msgs : list llm.ChatMessage)
  : Outcome (list llm.ChatMessage + Status) :=
  match ms with
  | [] => Returns (inl msgs)
  | m :: rest =>
      let msg := {| llm.msg_Role := pbm_Role m; llm.msg_Content := "";
                    llm.msg_ContentParts := []; llm.msg_Name := pbm_Name m |} in
      match parseMessageContent (pbm_Content m) msg with
      | Panics => Panics
      | Returns (_, Some err) =>
          Returns (inr {| code := InvalidArgument;
                          message := "invalid message content: " +:+ Error err |})
      | Returns (msg', None) => convertMessages rest (msgs ++ [msg'])
      end
  end.

(** The handler [CreateChatCompletion]. *)
Definition CreateChatCompletion {S : Type} (s : LLMGatewayService S) (ctx : Context)
    (req : CreateChatCompletionRequest) (st : S) (now : time.Time)
  : Outcome (S * (option CreateChatCompletionResponse * option Status)
             * option (string * usagecallback.Payload)) :=
  match convertMessages (pbc_Messages req) [] with
  | Panics => Panics
  | Returns (inr status) => Returns (st, (None, Some status), None)
  | Returns (inl msgs) =>
      match llmgateway.CreateChatCompletion (app s) st
              {| llm.chat_Model := pbc_Model req; llm.chat_Messages := msgs;
                 llm.chat_Temperature := pbc_Temperature req;
                 llm.chat_MaxTokens := pbc_MaxTokens req;
                 llm.chat_User := pbc_User req |} with
      | (st', inr err) => Returns (st', (None, toStatusErr (Some err)), None)
      | (st', inl res) =>
          let sent :=
            maybeSendUsageCallback s ctx "chat.completions"
              {| llm.gen_ID := llm.chatr_ID res; llm.gen_Model := llm.chatr_Model res;
                 llm.gen_Created := llm.chatr_Created res;
                 llm.gen_Usage := llm.chatr_Usage res |} now in
          let choices :=
            map (fun c =>
                   {| pbch_Index := llm.choice_Index c;
                      pbch_Message :=
                        {| pbm_Role := llm.msg_Role (llm.choice_Message c);
                           pbm_Content :=
                             Some (structpb.NewStringValue
                                     (llm.msg_Content (llm.choice_Message c)));
                           pbm_Name := llm.msg_Name (llm.choice_Message c) |};
                      pbch_FinishReason := llm.choice_FinishReason c |})
              (llm.chatr_Choices res) in
          Returns
            (st',
             (Some {| pbcr_Id := llm.chatr_ID res; pbcr_Created := llm.chatr_Created res;
                      pbcr_Model := llm.chatr_Model res; pbcr_Choices := choices;
                      pbcr_Usage :=
                        {| pbu_PromptTokens := llm.PromptTokens (llm.chatr_Usage res);
                           pbu_CompletionTokens := llm.CompletionTokens (llm.chatr_Usage res);
                           pbu_TotalTokens := llm.TotalTokens (llm.chatr_Usage res) |} |},
              None),
             sent)
      end
  end.

End grpcadapter.

(** * Specification-side definitions and example data *)

(** ** The canonical string (§4.2) *)

(** The condition of the HTTP branch. *)
Definition http_branch (i : SignatureInput) : bool :=
  negb (is_empty (in_HTTPMethod i)) && negb (is_empty (in_HTTPPath i)).

(** The canonical string in the words of the specification: the fields of
    the branch joined by newlines. *)
Definition join_lines (fields : list string) : string := String.concat LF fields.

Definition resource_spec (i : SignatureInput) : string :=
  in_HTTPPath i +:+ (if is_empty (in_HTTPQuery i) then "" else "?" +:+ in_HTTPQuery i).

Definition canonical_spec (i : SignatureInput) : string :=
  if http_branch i then
    join_lines [ FormatInt (in_Timestamp i); in_Nonce i; in_HTTPMethod i; resource_spec i;
                 in_BodySHA256 i; in_CallbackURL i ]
  else
    join_lines [ FormatInt (in_Timestamp i); in_Nonce i; "GRPC"; in_GRPCFullMethod i;
                 in_CallbackURL i ].

(** Two inputs with the same value in every field. *)
Definition same_fields (a b : SignatureInput) : Prop :=
  in_AccessKeyID a = in_AccessKeyID b ∧ in_Signature a = in_Signature b
  ∧ in_Timestamp a = in_Timestamp b ∧ in_Nonce a = in_Nonce b
  ∧ in_CallbackURL a = in_CallbackURL b ∧ in_HTTPMethod a = in_HTTPMethod b
  ∧ in_HTTPPath a = in_HTTPPath b ∧ in_HTTPQuery a = in_HTTPQuery b
  ∧ in_BodySHA256 a = in_BodySHA256 b ∧ in_GRPCFullMethod a = in_GRPCFullMethod b.

Definition example_http : SignatureInput :=
  {| in_AccessKeyID := "ak"; in_Signature := "00"; in_Timestamp := 1700000000;
     in_Nonce := "n1"; in_CallbackURL := "https://example.com/cb";
     in_HTTPMethod := "POST"; in_HTTPPath := "/v1/embeddings"; in_HTTPQuery := "a=1";
     in_BodySHA256 := "e3b0";
     in_GRPCFullMethod := "/llmgateway.v1.LLMGatewayService/CreateEmbeddings" |}.

Definition example_rpc : SignatureInput :=
  {| in_AccessKeyID := "ak"; in_Signature := "00"; in_Timestamp := 1700000000;
     in_Nonce := "n1"; in_CallbackURL := "https://example.com/cb";
     in_HTTPMethod := ""; in_HTTPPath := "/v1/embeddings"; in_HTTPQuery := "a=1";
     in_BodySHA256 := "e3b0";
     in_GRPCFullMethod := "/llmgateway.v1.LLMGatewayService/CreateEmbeddings" |}.

(** The number of newline bytes of a string. *)
Fixpoint count_LF (s : string) : nat :=
  match s with
  | EmptyString => 0%nat
  | String c rest =>
      if Z_of_ascii c =? 10 then S (count_LF rest) else count_LF rest
  end.

(** A string without a newline byte. *)
Definition no_LF (s : string) : Prop := count_LF s = 0%nat.

(** A pair of inputs, one for each branch, with the same canonical string:
    the callback URL of the RPC input spans two lines. *)
Definition collide_http : SignatureInput :=
  {| in_AccessKeyID := "000102030405060708090a0b0c0d0e0f"; in_Signature := "";
     in_Timestamp := 1700000060; in_Nonce := "n1";
     in_CallbackURL := "https://example.com/cb";
     in_HTTPMethod := "GRPC"; in_HTTPPath := "/llmgateway.v1.LLMGatewayService/ListModels";
     in_HTTPQuery := "";
     in_BodySHA256 := "e3b0c44298fc1c149afbf4c8996fb92427ae41e4649b934ca495991b7852b855";
     in_GRPCFullMethod := "/llmgateway.v1.LLMGatewayService/CreateEmbeddings" |}.

Definition collide_rpc : SignatureInput :=
  {| in_AccessKeyID := "000102030405060708090a0b0c0d0e0f"; in_Signature := "";
     in_Timestamp := 1700000060; in_Nonce := "n1";
     in_CallbackURL :=
       "e3b0c44298fc1c149afbf4c8996fb92427ae41e4649b934ca495991b7852b855" +:+ LF
       +:+ "https://example.com/cb";
     in_HTTPMethod := ""; in_HTTPPath := ""; in_HTTPQuery := ""; in_BodySHA256 := "";
     in_GRPCFullMethod := "/llmgateway.v1.LLMGatewayService/ListModels" |}.

(** ** Signature verification (§4.3) *)

(** The conditions under which the specification lets a signature verify
    for [subj]: the four required fields are present, the timestamp is within
    five minutes of [now], the record of the access key exists and has not
    expired, and the signature decodes to the HMAC of the canonical string
    under the record's secret. *)
Definition verifies (m : Manager) (i : SignatureInput) (now : time.Time) (subj : string)
  : Prop :=
  in_AccessKeyID i ≠ "" ∧ in_Signature i ≠ "" ∧ in_Nonce i ≠ "" ∧ in_Timestamp i ≠ 0
  ∧ now - 5 * time.Minute ≤ time.Unix (in_Timestamp i) 0 ≤ now + 5 * time.Minute
  ∧ ∃ rec : tempRecord,
      temps m !! in_AccessKeyID i = Some rec
      ∧ now ≤ expiresAt rec
      ∧ hex.DecodeString (in_Signature i)
        = (hmac.SumSHA256 (bytes_of_string (secret rec))
             (bytes_of_string (canonicalString i)), None)
      ∧ subj = subject rec.

(** ** Example data: a manager with one service token, a credential issued
       from it, and a request signed with that credential *)

Definition demo_tokens : list ServiceToken := [ {| Name := "svc"; Token := "tok-1" |} ].

Definition demo_mgr0 : Manager := NewManager demo_tokens (15 * time.Minute).

(** 48 bytes of the random tape: [0x00 .. 0x2f]. *)
Definition demo_tape : list byte := map (fun n => byte_of_Z (Z.of_nat n)) (seq 0 48).

(** The time of issuance, in nanoseconds. *)
Definition demo_T : time.Time := time.Unix 1700000000 0.

Definition demo_issue : Manager * list byte * (TemporaryCredentials + error) :=
  IssueTemporaryCredentials demo_mgr0 demo_tape "tok-1" demo_T.

Definition demo_mgr : Manager := fst (fst demo_issue).

Definition demo_akid : string := "000102030405060708090a0b0c0d0e0f".
Definition demo_secret : string := "EBESExQVFhcYGRobHB0eHyAhIiMkJSYnKCkqKywtLi8".

(** [i] with its signature replaced by the one computed under [secret]. *)
Definition sign (secret : string) (i : SignatureInput) : SignatureInput :=
  {| in_AccessKeyID := in_AccessKeyID i;
     in_Signature := hmacSHA256Hex secret (canonicalString i);
     in_Timestamp := in_Timestamp i; in_Nonce := in_Nonce i;
     in_CallbackURL := in_CallbackURL i; in_HTTPMethod := in_HTTPMethod i;
     in_HTTPPath := in_HTTPPath i; in_HTTPQuery := in_HTTPQuery i;
     in_BodySHA256 := in_BodySHA256 i; in_GRPCFullMethod := in_GRPCFullMethod i |}.

Definition demo_request : SignatureInput :=
  {| in_AccessKeyID := demo_akid; in_Signature := ""; in_Timestamp := 1700000060;
     in_Nonce := "n1"; in_CallbackURL := "";
     in_HTTPMethod := ""; in_HTTPPath := ""; in_HTTPQuery := ""; in_BodySHA256 := "";
     in_GRPCFullMethod := "/llmgateway.v1.LLMGatewayService/ListModels" |}.

Definition demo_signed : SignatureInput := sign demo_secret demo_request.

(** One minute after issuance. *)
Definition demo_now : time.Time := time.Unix 1700000060 0.

Definition demo_creds : TemporaryCredentials :=
  {| AccessKeyID := demo_akid; AccessKeySecret := demo_secret;
     ExpiresAt := demo_T + 15 * time.Minute; Subject := "svc" |}.

(** The same request sent sixteen minutes after issuance, with a timestamp
    and a signature of that time. *)
Definition demo_late_request : SignatureInput :=
  {| in_AccessKeyID := demo_akid; in_Signature := ""; in_Timestamp := 1700000960;
     in_Nonce := "n2"; in_CallbackURL := "";
     in_HTTPMethod := ""; in_HTTPPath := ""; in_HTTPQuery := ""; in_BodySHA256 := "";
     in_GRPCFullMethod := "/llmgateway.v1.LLMGatewayService/ListModels" |}.

Definition demo_late_signed : SignatureInput := sign demo_secret demo_late_request.

Definition demo_late : time.Time := time.Unix 1700000960 0.

(** ** An instance of [url.Parse] for the examples

    [url_ref.Parse] follows [net/url.Parse] for the two fields [Scheme] and
    [Host] on strings without percent escapes, userinfo or bracketed IP
    literals and with at most one colon in the authority; a string with
    ["%"], ["@"], ["["] or ["]"] is outside this instance, which reports it
    as an error. The theorems hold for every parser; this one evaluates the
    examples. *)
Module url_ref.

Definition byte_in (c : ascii) (set : string) : bool :=
  existsb (Ascii.eqb c) (list_ascii_of_string set).

Definition contains (c : ascii) (s : string) : bool := byte_in c s.

Definition is_alpha (c : ascii) : bool :=
  let n := Z_of_ascii c in
  ((97 <=? n) && (n <=? 122)) || ((65 <=? n) && (n <=? 90)).

Definition is_num (c : ascii) : bool :=
  let n := Z_of_ascii c in (48 <=? n) && (n <=? 57).

(** [strings.Cut(s, sep)] for a separator of one byte: the text before the
    first [sep] and the text after it. *)
Fixpoint cut (sep : ascii) (s : string) : string * string :=
  match s with
  | EmptyString => (EmptyString, EmptyString)
  | String c rest =>
      if Ascii.eqb c sep then (EmptyString, rest)
      else let '(before, after) := cut sep rest in (String c before, after)
  end.

(** [stringContainsCTLByte] *)
Definition containsCTLByte (s : string) : bool :=
  existsb (fun c => (Z_of_ascii c <? 32) || (Z_of_ascii c =? 127)) (list_ascii_of_string s).

Inductive scheme_scan : Type :=
| Found (scheme rest : string)
| NoScheme
| MissingScheme.

(** The loop of [getScheme] from index [i]. *)
Fixpoint scan (i : nat) (s : string) : scheme_scan :=
  match s with
  | EmptyString => NoScheme
  | String c rest =>
      let continue :=
        match scan (S i) rest with
        | Found scheme rest' => Found (String c scheme) rest'
        | other => other
        end in
      if is_alpha c then continue
      else if is_num c || byte_in c "+-." then
        if (i =? 0)%nat then NoScheme else continue
      else if Ascii.eqb c ":" then
        if (i =? 0)%nat then MissingScheme else Found EmptyString rest
      else NoScheme
  end.

(** [validOptionalPort]: empty, or a colon followed by digits. *)
Definition validOptionalPort (port : string) : bool :=
  match port with
  | EmptyString => true
  | String c digits => Ascii.eqb c ":" && forallb is_num (list_ascii_of_string digits)
  end.

(** The bytes [unescape] accepts unescaped in a host. *)
Definition validHostByte (c : ascii) : bool :=
  is_alpha c || is_num c || byte_in c "!$&'()*+,;=:<>-_.~" || (127 <? Z_of_ascii c)
  || (Z_of_ascii c =? 34).

Definition parseHost (host : string) : string + error :=
  let port := snd (cut ":" host) in
  if contains ":" host
     && negb (validOptionalPort (String ":" port)) then
    inr (errors_New "invalid port after host")
  else if contains ":" port then inr (errors_New "outside the instance")
  else if forallb validHostByte (list_ascii_of_string host) then inl host
  else inr (errors_New "invalid character in host name").

Definition Parse (rawURL : string) : url.URL + error :=
  if existsb (fun c => byte_in c "%@[]") (list_ascii_of_string rawURL) then
    inr (errors_New "outside the instance")
  else
    let '(u, _) := cut "#" rawURL in
    if containsCTLByte u then inr (errors_New "net/url: invalid control character in URL")
    else
      match scan 0 u with
      | MissingScheme => inr (errors_New "missing protocol scheme")
      | found =>
          let '(scheme, rest) :=
            match found with
            | Found scheme rest => (strings.ToLower scheme, rest)
            | _ => (EmptyString, u)
            end in
          let '(rest, _) := cut "?" rest in
          if negb (strings.HasPrefix rest "/") then
            if negb (is_empty scheme) then inl {| url.Scheme := scheme; url.Host := "" |}
            else if contains ":" (fst (cut "/" rest)) then
              inr (errors_New "first path segment in URL cannot contain colon")
            else inl {| url.Scheme := scheme; url.Host := "" |}
          else if (negb (is_empty scheme) || negb (strings.HasPrefix rest "///"))
                  && strings.HasPrefix rest "//" then
            let authority := fst (cut "/" (String.substring 2 (String.length rest - 2) rest)) in
            match parseHost authority with
            | inr e => inr e
            | inl host => inl {| url.Scheme := scheme; url.Host := host |}
            end
          else inl {| url.Scheme := scheme; url.Host := "" |}
      end.

End url_ref.

(** ** The interceptor *)

(** The context of an inbound call as the gRPC server hands it to the
    interceptor: the metadata of the call and no value of this package. *)
Definition inbound (md : gmap string (list string)) : Context :=
  {| ctxSubject := None; ctxMethod := None; incomingMD := md |}.

(** A manager built from an empty list of service tokens. *)
Definition disabled_mgr : Manager := NewManager [] 0.

(** The metadata of a call signed with the demo credential: the request
    [demo_request] for the issuance method. *)
Definition issue_method : string := "/llmgateway.v1.LLMGatewayService/IssueTemporaryCredentials".

Definition signed_md (i : SignatureInput) : gmap string (list string) :=
  <[mdAccessKeyID := [in_AccessKeyID i]]>
    (<[mdSignature := [in_Signature i]]>
       (<[mdTimestamp := [FormatInt (in_Timestamp i)]]>
          (<[mdNonce := [in_Nonce i]]> ∅))).

Definition demo_issue_request : SignatureInput :=
  {| in_AccessKeyID := demo_akid; in_Signature := ""; in_Timestamp := 1700000060;
     in_Nonce := "n3"; in_CallbackURL := "";
     in_HTTPMethod := ""; in_HTTPPath := ""; in_HTTPQuery := ""; in_BodySHA256 := "";
     in_GRPCFullMethod := issue_method |}.

Definition demo_issue_md : gmap string (list string) :=
  signed_md (sign demo_secret demo_issue_request).

(** ** The timestamp header *)

Definition is_digit (c : ascii) : bool := (48 <=? Z_of_ascii c) && (Z_of_ascii c <=? 57).

(** A timestamp string that is empty or has, at some index [k], a byte that
    is no digit, other than a minus sign at index 0. *)
Definition malformed_timestamp (s : string) : Prop :=
  s = ""
  ∨ ∃ (k : nat) (c : ascii),
      String.get k s = Some c ∧ is_digit c = false ∧ ¬ (k = 0%nat ∧ c = "-"%char).

(** ** The HTTP bridge *)

(** The keys under which [http.Header] holds the four forwarded headers. *)
Definition forwarded_headers : list string :=
  [ "X-Llmgw-Http-Method"; "X-Llmgw-Http-Path"; "X-Llmgw-Http-Query"; "X-Llmgw-Body-Sha256" ].


(** The headers of a request after the first three [Set]s of the handler. *)
Definition stamped (r : httpgateway.Request) : gmap string (list string) :=
  httpgateway.Header_Set
    (httpgateway.Header_Set
       (httpgateway.Header_Set (httpgateway.Header r) "X-LLMGW-HTTP-Method"
          (httpgateway.Method_ r))
       "X-LLMGW-HTTP-Path" (httpgateway.URL_Path r))
    "X-LLMGW-HTTP-Query" (httpgateway.URL_RawQuery r).

(** The request that the handler hands to the gateway mux: the stamped
    headers with the hash of [hashed] as the fourth, and the body [body]. *)
Definition bridged (r : httpgateway.Request) (body : httpgateway.Body) (hashed : list byte)
  : httpgateway.Request :=
  {| httpgateway.Method_ := httpgateway.Method_ r;
     httpgateway.URL_Path := httpgateway.URL_Path r;
     httpgateway.URL_RawQuery := httpgateway.URL_RawQuery r;
     httpgateway.Header :=
       httpgateway.Header_Set (stamped r) "X-LLMGW-Body-SHA256"
         (hex.EncodeToString (sha256.Sum256 hashed));
     httpgateway.Body_ := body |}.


(** A signed request, and the same request with values of the caller's for
    the four forwarded headers. *)
Definition demo_http_request : httpgateway.Request :=
  {| httpgateway.Method_ := "POST";
     httpgateway.URL_Path := "/v1/embeddings";
     httpgateway.URL_RawQuery := "";
     httpgateway.Header :=
       <["X-Access-Key-Id" := [demo_akid]]>
         (<["X-Signature" := ["00"]]>
            (<["X-Timestamp" := ["1700000060"]]> (<["X-Nonce" := ["n1"]]> ∅)));
     httpgateway.Body_ :=
       {| httpgateway.data := bytes_of_string "{}"; httpgateway.readError := false |} |}.

Definition demo_http_spoofed : httpgateway.Request :=
  httpgateway.with_Header demo_http_request
    (<["X-Llmgw-Http-Method" := ["GET"]]>
       (<["X-Llmgw-Http-Path" := ["/v1/models"]]>
          (<["X-Llmgw-Http-Query" := ["x=1"]]>
             (<["X-Llmgw-Body-Sha256" := ["00"; "11"]]>
                (httpgateway.Header demo_http_request))))).

(** ** The usage-callback allowlist (§4.5) *)

(** A malformed callback URL in the words of the specification: a string
    that does not parse, or whose scheme is neither [http] nor [https], or
    whose host is empty. *)
Definition malformed_url (url_Parse : string → url.URL + error) (u : string) : Prop :=
  match url_Parse u with
  | inr _ => True
  | inl p => (url.Scheme p ≠ "http" ∧ url.Scheme p ≠ "https") ∨ url.Host p = ""
  end.

(** The context of a call that the interceptor authenticated by service
    token for the subject [subj]. *)
Definition service_token_ctx (subj : string) (md : gmap string (list string)) : Context :=
  WithMethod (WithSubject (inbound md) subj) MethodServiceToken.

Definition demo_urls : list string :=
  [ "https://example.com/cb"; "http://a.example:8080/x"; "https://example.com/cb" ].

(** [m] with the allowlist entry of ["svc"] set to the URLs of [urls]. *)
Definition with_svc_urls (m : Manager) (urls : list string) : Manager :=
  set_allowlist m (<["svc" := list_to_set urls]> (usageCallbackAllowlist m)).

(** [m] without an allowlist entry for ["svc"]. *)
Definition without_svc (m : Manager) : Manager :=
  set_allowlist m (delete "svc" (usageCallbackAllowlist m)).

(** * Further specification-side definitions *)

(** ** Service tokens *)

(** The subject of a configured token: its name, or ["service"] when it has
    none. *)
Definition subject_of (t : ServiceToken) : string :=
  if is_empty (Name t) then "service" else Name t.

(** The last entry of a token list that has the non-empty token [k]. *)
Fixpoint last_match (l : list ServiceToken) (k : string) : option ServiceToken :=
  match l with
  | [] => None
  | t :: rest =>
      match last_match rest k with
      | Some u => Some u
      | None => if negb (is_empty (Token t)) && String.eqb (Token t) k then Some t else None
      end
  end.

(** Every character of a string is a lower-case hexadecimal digit. *)
Definition lower_hex (s : string) : Prop :=
  Forall (fun c => In c (list_ascii_of_string hex.hextable)) (list_ascii_of_string s).

(** Every derived-credential record is bound to a non-empty subject. *)
Definition subjects_bound (m : Manager) : Prop :=
  ∀ (k : string) (rec : tempRecord), temps m !! k = Some rec → subject rec ≠ "".

(** ** Example data: two issuances in a row *)

(** 96 bytes of the random tape: [0x00 .. 0x5f]. *)
Definition demo_tape96 : list byte := map (fun n => byte_of_Z (Z.of_nat n)) (seq 0 96).

Definition demo_tape_rest : list byte := map (fun n => byte_of_Z (Z.of_nat n)) (seq 48 48).

Definition demo_T2 : time.Time := time.Unix 1700000001 0.

Definition demo_creds2 : TemporaryCredentials :=
  {| AccessKeyID := "303132333435363738393a3b3c3d3e3f";
     AccessKeySecret := "QEFCQ0RFRkdISUpLTE1OT1BRUlNUVVZXWFlaW1xdXl8";
     ExpiresAt := demo_T2 + 15 * time.Minute; Subject := "svc" |}.

Definition demo_mgr2 : Manager :=
  fst (fst (IssueTemporaryCredentials demo_mgr demo_tape_rest "tok-1" demo_T2)).

(** ** The outcome of [authenticate] *)

(** The first value of the service-token metadata of a context. *)
Definition service_token_of (ctx : Context) : string :=
  first (MD_Get (incomingMD ctx) mdServiceToken).

(** The metadata of a native gRPC call that carries the HTTP signing context
    itself: signed for [GET /v1/models], sent to any method. *)
Definition demo_smuggled_request : SignatureInput :=
  {| in_AccessKeyID := demo_akid; in_Signature := ""; in_Timestamp := 1700000060;
     in_Nonce := "n4"; in_CallbackURL := "";
     in_HTTPMethod := "GET"; in_HTTPPath := "/v1/models"; in_HTTPQuery := "";
     in_BodySHA256 := "e3b0c44298fc1c149afbf4c8996fb92427ae41e4649b934ca495991b7852b855";
     in_GRPCFullMethod := "" |}.

Definition demo_smuggled_md : gmap string (list string) :=
  <[mdHTTPMethod := ["GET"]]>
    (<[mdHTTPPath := ["/v1/models"]]>
       (<[mdBodySHA256 :=
            ["e3b0c44298fc1c149afbf4c8996fb92427ae41e4649b934ca495991b7852b855"]]>
          (signed_md (sign demo_secret demo_smuggled_request)))).

(** The metadata of [demo_request], signed, for a call of [SetUsageCallback]. *)
Definition set_callback_method : string := "/llmgateway.v1.LLMGatewayService/SetUsageCallback".

Definition demo_set_callback_request : SignatureInput :=
  {| in_AccessKeyID := demo_akid; in_Signature := ""; in_Timestamp := 1700000060;
     in_Nonce := "n5"; in_CallbackURL := "";
     in_HTTPMethod := ""; in_HTTPPath := ""; in_HTTPQuery := ""; in_BodySHA256 := "";
     in_GRPCFullMethod := set_callback_method |}.

Definition demo_set_callback_md : gmap string (list string) :=
  signed_md (sign demo_secret demo_set_callback_request).

(** ** The allowlist as a whole *)

(** Every entry of the allowlist is a non-empty set of non-empty URLs that
    are not malformed. *)
Definition allowlist_valid (url_Parse : string → url.URL + error) (m : Manager) : Prop :=
  ∀ (s : string) (set : gset string),
    usageCallbackAllowlist m !! s = Some set →
    set ≠ ∅ ∧ ∀ u : string, u ∈ set → u ≠ "" ∧ ¬ malformed_url url_Parse u.

(** ** Decimal timestamps *)

(** The number read from the digits of [d] after the number [n]. *)
Fixpoint digits_value (d : Decimal.uint) (n : Z) : Z :=
  match d with
  | Decimal.Nil => n
  | Decimal.D0 l => digits_value l (n * 10 + 0)
  | Decimal.D1 l => digits_value l (n * 10 + 1)
  | Decimal.D2 l => digits_value l (n * 10 + 2)
  | Decimal.D3 l => digits_value l (n * 10 + 3)
  | Decimal.D4 l => digits_value l (n * 10 + 4)
  | Decimal.D5 l => digits_value l (n * 10 + 5)
  | Decimal.D6 l => digits_value l (n * 10 + 6)
  | Decimal.D7 l => digits_value l (n * 10 + 7)
  | Decimal.D8 l => digits_value l (n * 10 + 8)
  | Decimal.D9 l => digits_value l (n * 10 + 9)
  end.

(** The range of [int64]. *)
Definition int64_range (z : Z) : Prop := -9223372036854775808 ≤ z ≤ 9223372036854775807.

(** ** The HTTP bridge: a body over the limit *)

(** A signed request whose body has one byte more than [maxBody]. *)
Definition demo_http_oversized : httpgateway.Request :=
  httpgateway.with_Body demo_http_request
    {| httpgateway.data := repeat x00 (Z.to_nat (httpgateway.maxBody + 1));
       httpgateway.readError := false |}.

(** ** Routing and the model catalogue *)

(** The last spec of a list with the ID [k]. *)
Fixpoint last_spec (l : list llmgateway.ModelSpec) (k : string) : option llmgateway.ModelSpec :=
  match l with
  | [] => None
  | m :: rest =>
      match last_spec rest k with
      | Some u => Some u
      | None => if String.eqb (llmgateway.spec_ID m) k then Some m else None
      end
  end.

(** A string without the byte [sep]. *)
Definition no_byte (sep : ascii) (s : string) : Prop := ¬ In sep (list_ascii_of_string s).

(** A service without a catalogue entry: only the names of the providers. *)
Definition without_catalogue {S : Type} (s : llmgateway.Service S) : llmgateway.Service S :=
  {| llmgateway.providers := llmgateway.providers s;
     llmgateway.models := ∅;
     llmgateway.generations := llmgateway.generations s |}.

(** A service without a generation repository, on a state of no content. *)
Definition without_repository {S : Type} (s : llmgateway.Service S) : llmgateway.Service unit :=
  {| llmgateway.providers := llmgateway.providers s;
     llmgateway.models := llmgateway.models s;
     llmgateway.generations := None |}.

(** Example data: one provider that answers every request, a catalogue of
    three specs, and a repository whose [Save] always fails. *)
Definition demo_provider : llmgateway.Provider :=
  {| llmgateway.CreateChatCompletion_ := fun req =>
       inl {| llm.chatr_ID := "chat-1"; llm.chatr_Created := 1700000000;
              llm.chatr_Model := llm.chat_Model req; llm.chatr_Choices := [];
              llm.chatr_Usage := {| llm.PromptTokens := 1; llm.CompletionTokens := 2;
                                    llm.TotalTokens := 3 |} |};
     llmgateway.CreateEmbeddings_ := fun req =>
       inl {| llm.embr_ID := "emb-1"; llm.embr_Model := llm.embq_Model req;
              llm.embr_Data := [];
              llm.embr_Usage := {| llm.embu_PromptTokens := 4; llm.embu_TotalTokens := 4 |} |} |}.

Definition demo_specs : list llmgateway.ModelSpec :=
  [ {| llmgateway.spec_ID := "openrouter/openai/gpt-4o"; llmgateway.spec_Name := "GPT-4o";
       llmgateway.spec_Provider := "openrouter"; llmgateway.spec_Capabilities := ["chat"];
       llmgateway.spec_UpstreamModel := "openai/gpt-4o" |};
    {| llmgateway.spec_ID := "dashscope/qwen-turbo"; llmgateway.spec_Name := "Qwen";
       llmgateway.spec_Provider := "dashscope"; llmgateway.spec_Capabilities := ["chat"];
       llmgateway.spec_UpstreamModel := "" |};
    {| llmgateway.spec_ID := "dashscope/qwen-turbo"; llmgateway.spec_Name := "Qwen Turbo";
       llmgateway.spec_Provider := "dashscope"; llmgateway.spec_Capabilities := ["chat"];
       llmgateway.spec_UpstreamModel := "" |} ].

Definition failing_repository : llmgateway.GenerationRepository (list llm.Generation) :=
  {| llmgateway.Save := fun st gen => (st, Some (errors_New "disk full"));
     llmgateway.Get := fun st id => inr (errors_New "not found") |}.

Definition demo_service : llmgateway.Service (list llm.Generation) :=
  llmgateway.NewService (<["dashscope" := demo_provider]> ∅) demo_specs
    (Some failing_repository).

Definition demo_embeddings_request : llm.EmbeddingsRequest :=
  {| llm.embq_Model := "dashscope/text-embedding-v3"; llm.embq_Input := ["hello"];
     llm.embq_User := "" |}.

(** A repository that keeps every generation it is given, the last one
    first. *)
Definition recording_repository : llmgateway.GenerationRepository (list llm.Generation) :=
  {| llmgateway.Save := fun st gen => (gen :: st, None);
     llmgateway.Get := fun st id =>
       match find (fun g => String.eqb (llm.gen_ID g) id) st with
       | Some g => inl g
       | None => inr (errors_New "generation not found")
       end |}.

(** A provider that answers under a model name of its own. *)
Definition renaming_provider : llmgateway.Provider :=
  {| llmgateway.CreateChatCompletion_ := fun req =>
       inl {| llm.chatr_ID := "chat-2"; llm.chatr_Created := 1700000001;
              llm.chatr_Model := "qwen-turbo-2024"; llm.chatr_Choices := [];
              llm.chatr_Usage := {| llm.PromptTokens := 1; llm.CompletionTokens := 2;
                                    llm.TotalTokens := 3 |} |};
     llmgateway.CreateEmbeddings_ := fun req =>
       inl {| llm.embr_ID := "emb-2"; llm.embr_Model := "text-embedding-v3-2024";
              llm.embr_Data := [ {| llm.emb_Index := 0; llm.emb_Vector := [1; 2] |} ];
              llm.embr_Usage := {| llm.embu_PromptTokens := 4; llm.embu_TotalTokens := 4 |} |} |}.

Definition recording_service : llmgateway.Service (list llm.Generation) :=
  llmgateway.NewService (<["dashscope" := renaming_provider]> ∅) demo_specs
    (Some recording_repository).

(** ** The adapter *)

(** The ten metadata names that the interceptor and the handlers read. *)
Definition auth_metadata_keys : list string :=
  [ mdServiceToken; mdAccessKeyID; mdSignature; mdTimestamp; mdNonce; mdCallbackURL;
    mdHTTPMethod; mdHTTPPath; mdHTTPQuery; mdBodySHA256 ].

(** A header name of ASCII bytes only, as every name that the HTTP server
    accepts is. *)
Definition ascii_only (s : string) : bool :=
  forallb (fun c => Z_of_ascii c <? 128) (list_ascii_of_string s).

(** The context of a call that carries the demo service token. *)
Definition demo_token_ctx : Context := inbound (<[mdServiceToken := ["tok-1"]]> ∅).

(** The status codes of a failed issuance. *)
Definition issuance_failure (authMgr : option Manager) (tok : string) (tape tape' : list byte)
    (st : Status) : Prop :=
  (EnabledPtr authMgr = false ∧ code st = FailedPrecondition ∧ tape' = tape)
  ∨ (∃ m, authMgr = Some m ∧ Enabled m = true
          ∧ snd (AuthenticateServiceToken m tok) = false
          ∧ st = {| code := Unauthenticated; message := "invalid service token" |}
          ∧ tape' = tape)
  ∨ (∃ m, authMgr = Some m ∧ Enabled m = true
          ∧ snd (AuthenticateServiceToken m tok) = true
          ∧ (length tape < 48)%nat
          ∧ code st = Internal).

(** The context that a unary handler behind the interceptor runs on, or the
    status of the rejection. *)
Definition unary_context (mgr : option Manager) (ctx : Context) (fullMethod : string)
    (now : time.Time) : Context + Status :=
  snd (UnaryServerInterceptor mgr ctx fullMethod now (fun c (_ : unit) => (tt, inl c)) tt).

(** The demo manager with two callback URLs registered for ["svc"], the
    adapter service on it, and a call of ["svc"] that names one of them. *)
Definition demo_callback_mgr : Manager := with_svc_urls demo_mgr demo_urls.

Definition demo_adapter : grpcadapter.LLMGatewayService (list llm.Generation) :=
  grpcadapter.NewLLMGatewayService recording_service (Some demo_callback_mgr).

Definition demo_callback_ctx : Context :=
  WithMethod
    (WithSubject
       (inbound (<[mdCallbackURL := ["https://example.com/cb"]]>
                   (<["x-request-id" := ["req-7"]]> ∅)))
       "svc")
    MethodSignature.

Definition demo_pb_request : grpcadapter.CreateEmbeddingsRequest :=
  {| grpcadapter.pbq_Model := "dashscope/text-embedding-v3";
     grpcadapter.pbq_Input := ["hello"]; grpcadapter.pbq_User := "" |}.

(** ** Message content *)

(** A content part that is an object. *)
Definition is_object (v : option structpb.Value) : bool :=
  match v with
  | Some (structpb.StructValue (Some _)) => true
  | _ => false
  end.

(** A content that parses: absent, null, a string, or a list of objects. *)
Definition content_ok (content : option structpb.Value) : bool :=
  match content with
  | None => true
  | Some structpb.NullValue => true
  | Some (structpb.StringValue _) => true
  | Some (structpb.ListValue None) => true
  | Some (structpb.ListValue (Some values)) => forallb is_object values
  | Some _ => false
  end.

(** None of the fields [names] is present with a [nil] value. *)
Definition fields_present (fields : gmap string (option structpb.Value)) (names : list string)
  : bool :=
  forallb (fun name => match fields !! name with
                       | Some None => false
                       | _ => true
                       end) names.

(** A list item without a [nil] pointer where the parser reads through one,
    as every value decoded from the wire is. *)
Definition part_sound (v : option structpb.Value) : bool :=
  match v with
  | None => false
  | Some (structpb.StructValue (Some fields)) =>
      fields_present fields ["type"; "text"; "image_url"]
      && match fields !! "image_url" with
         | Some (Some (structpb.StructValue (Some imgFields))) =>
             fields_present imgFields ["url"; "detail"]
         | _ => true
         end
  | Some _ => true
  end.

Definition content_sound (content : option structpb.Value) : bool :=
  match content with
  | Some (structpb.ListValue (Some values)) => forallb part_sound values
  | _ => true
  end.

(** The string of the field [name] of an object, when it has one. *)
Definition string_field (fields : gmap string (option structpb.Value)) (name : string)
  : option string :=
  match fields !! name with
  | Some (Some (structpb.StringValue s)) => Some s
  | _ => None
  end.

(** A text part and an image part. *)
Definition demo_text_part : gmap string (option structpb.Value) :=
  <["type" := Some (structpb.StringValue "text")]>
    (<["text" := Some (structpb.StringValue "what is this?")]> ∅).

Definition demo_image_part : gmap string (option structpb.Value) :=
  <["type" := Some (structpb.StringValue "image_url")]>
    (<["image_url" :=
         Some (structpb.StructValue
                 (Some (<["url" := Some (structpb.StringValue "https://example.com/a.png")]>
                          ∅)))]> ∅).

Definition demo_content : option structpb.Value :=
  Some (structpb.ListValue
          (Some [ Some (structpb.StructValue (Some demo_text_part));
                  Some (structpb.StructValue (Some demo_image_part)) ])).

Definition demo_message : llm.ChatMessage :=
  {| llm.msg_Role := "user"; llm.msg_Content := ""; llm.msg_ContentParts := [];
     llm.msg_Name := "ann" |}.

Definition demo_chat_request : grpcadapter.CreateChatCompletionRequest :=
  {| grpcadapter.pbc_Model := "dashscope/qwen-turbo";
     grpcadapter.pbc_Messages :=
       [ {| grpcadapter.pbm_Role := "system";
            grpcadapter.pbm_Content := Some (structpb.StringValue "be brief");
            grpcadapter.pbm_Name := "" |};
         {| grpcadapter.pbm_Role := "user"; grpcadapter.pbm_Content := demo_content;
            grpcadapter.pbm_Name := "ann" |} ];
     grpcadapter.pbc_Temperature := 0; grpcadapter.pbc_MaxTokens := 16;
     grpcadapter.pbc_User := "" |}.

(** * Properties *)

(** ** The primitives against published values *)

(** Published test vectors (FIPS 180-4 examples, RFC 4231 test case 2). *)
Example sha256_abc :
  hex.EncodeToString (sha256.Sum256 (bytes_of_string "abc"))
  = "ba7816bf8f01cfea414140de5dae2223b00361a396177a9cb410ff61f20015ad".
Proof. vm_compute. reflexivity. Qed.

Example sha256_empty :
  hex.EncodeToString (sha256.Sum256 [])
  = "e3b0c44298fc1c149afbf4c8996fb92427ae41e4649b934ca495991b7852b855".
Proof. vm_compute. reflexivity. Qed.

Example sha256_two_blocks :
  hex.EncodeToString (sha256.Sum256
    (bytes_of_string "abcdbcdecdefdefgefghfghighijhijkijkljklmklmnlmnomnopnopq"))
  = "248d6a61d20638b8e5c026930c3e6039a33ce45964ff2167f6ecedd419db06c1".
Proof. vm_compute. reflexivity. Qed.

Example hmac_rfc4231_2 :
  hex.EncodeToString (hmac.SumSHA256 (bytes_of_string "Jefe")
    (bytes_of_string "what do ya want for nothing?"))
  = "5bdcc146bf60754e6a042426089575c75a003f089d2739839dec58b964ec3843".
Proof. vm_compute. reflexivity. Qed.

Example base64_foobar :
  base64.RawURLEncodeToString (bytes_of_string "fooba") = "Zm9vYmE".
Proof. vm_compute. reflexivity. Qed.

(** ** Strings *)

Lemma is_empty_true (s : string) : is_empty s = true ↔ s = "".
Proof. destruct s; simpl; split; congruence. Qed.

Lemma is_empty_false (s : string) : is_empty s = false ↔ s ≠ "".
Proof. destruct s; simpl; split; congruence. Qed.

Example FormatInt_examples :
  FormatInt 0 = "0" ∧ FormatInt 1700000000 = "1700000000" ∧ FormatInt (-42) = "-42".
Proof. repeat split. Qed.

(** ** The canonical string (§4.2) *)

Lemma append_String (c : ascii) (s t : string) : String c s +:+ t = String c (s +:+ t).
Proof. reflexivity. Qed.

Lemma append_empty_r (s : string) : s +:+ "" = s.
Proof. induction s as [|c s IH]; [reflexivity | now rewrite append_String, IH]. Qed.

Lemma canonicalString_spec (i : SignatureInput) : canonicalString i = canonical_spec i.
Proof.
  unfold canonicalString, canonical_spec, http_branch, resource_spec, join_lines.
  destruct (negb (is_empty (in_HTTPMethod i)) && negb (is_empty (in_HTTPPath i))); simpl;
    [|reflexivity].
  destruct (is_empty (in_HTTPQuery i)); simpl; [|reflexivity].
  now rewrite append_empty_r.
Qed.

(** The canonical string reads eight of the ten fields. *)
Lemma canonicalString_fields (a b : SignatureInput) :
  in_Timestamp a = in_Timestamp b → in_Nonce a = in_Nonce b →
  in_CallbackURL a = in_CallbackURL b → in_HTTPMethod a = in_HTTPMethod b →
  in_HTTPPath a = in_HTTPPath b → in_HTTPQuery a = in_HTTPQuery b →
  in_BodySHA256 a = in_BodySHA256 b → in_GRPCFullMethod a = in_GRPCFullMethod b →
  canonicalString a = canonicalString b.
Proof.
  intros Ht Hn Hc Hm Hp Hq Hb Hg. unfold canonicalString.
  now rewrite Ht, Hn, Hc, Hm, Hp, Hq, Hb, Hg.
Qed.

(** C2. [canonicalString] is the newline-joined string of the
    specification: in the HTTP branch (method and path both non-empty)
    timestamp, nonce, method, resource (path, and ["?"] with the query exactly
    when the query is non-empty), body hash, callback URL; in every other case
    timestamp, nonce, ["GRPC"], the full method name, callback URL. Inputs with
    the same field values have the same canonical string and the same expected
    signature under every secret. *)
Theorem canonicalString_format :
  ∀ i : SignatureInput,
    canonicalString i = canonical_spec i
    ∧ ∀ j : SignatureInput, same_fields i j →
        canonicalString i = canonicalString j
        ∧ ∀ secret, hmacSHA256Hex secret (canonicalString i)
                    = hmacSHA256Hex secret (canonicalString j).
Proof.
  intros i. split; [apply canonicalString_spec|].
  intros j (_ & _ & Ht & Hn & Hc & Hm & Hp & Hq & Hb & Hg).
  assert (E : canonicalString i = canonicalString j)
    by now apply canonicalString_fields.
  split; [exact E|]. intros s. now rewrite E.
Qed.

Example canonicalString_http :
  canonicalString example_http
  = "1700000000" +:+ LF +:+ "n1" +:+ LF +:+ "POST" +:+ LF +:+ "/v1/embeddings?a=1" +:+ LF
      +:+ "e3b0" +:+ LF +:+ "https://example.com/cb".
Proof. reflexivity. Qed.

Example canonicalString_rpc :
  canonicalString example_rpc
  = "1700000000" +:+ LF +:+ "n1" +:+ LF +:+ "GRPC" +:+ LF
      +:+ "/llmgateway.v1.LLMGatewayService/CreateEmbeddings" +:+ LF
      +:+ "https://example.com/cb".
Proof. reflexivity. Qed.

Lemma canonicalString_format_witness :
  same_fields example_http example_http
  ∧ canonicalString example_http = canonical_spec example_http
  ∧ canonicalString example_http = canonicalString example_http.
Proof.
  split; [repeat split|].
  split; [exact (proj1 (canonicalString_format example_http))|].
  refine (proj1 (proj2 (canonicalString_format example_http) example_http _)).
  repeat split.
Defined.

(** ** Hexadecimal round trip and constant-time comparison *)

Lemma hex_digits_of_byte (v : byte) :
  let hi := byte_of_ascii (hex.hexdigit (Z.shiftr (Z_of_byte v) 4)) in
  let lo := byte_of_ascii (hex.hexdigit (Z.land (Z_of_byte v) 15)) in
  (15 <? hex.reverseHexTable hi) = false
  ∧ (15 <? hex.reverseHexTable lo) = false
  ∧ byte_of_Z (Z.lor (Z.shiftl (hex.reverseHexTable hi) 4) (hex.reverseHexTable lo)) = v.
Proof. destruct v; vm_compute; repeat split. Qed.

Lemma hex_Decode_Encode (bs : list byte) :
  hex.DecodeString (hex.EncodeToString bs) = (bs, None).
Proof.
  unfold hex.DecodeString, bytes_of_string.
  induction bs as [|v bs IH]; [reflexivity|].
  destruct (hex_digits_of_byte v) as (Hhi & Hlo & Hv).
  change (list_byte_of_string (hex.EncodeToString (v :: bs)))
    with (byte_of_ascii (hex.hexdigit (Z.shiftr (Z_of_byte v) 4))
          :: byte_of_ascii (hex.hexdigit (Z.land (Z_of_byte v) 15))
          :: list_byte_of_string (hex.EncodeToString bs)).
  cbn [hex.Decode]. cbv zeta in Hhi, Hlo, Hv.
  rewrite Hhi, Hlo, IH, Hv. reflexivity.
Qed.

Lemma hmac_Equal_eq (a b : list byte) : hmac.Equal a b = true ↔ a = b.
Proof.
  revert b. induction a as [|x a IH]; intros [|y b]; simpl; split; try congruence.
  - intros [Hx Hab]%andb_prop. apply byte_dec_bl in Hx. apply IH in Hab. congruence.
  - intros [= -> ->]. rewrite byte_dec_lb by reflexivity. simpl. now apply IH.
Qed.

(** ** Signature verification (§4.3) *)

Lemma verifies_functional m i now s1 s2 :
  verifies m i now s1 → verifies m i now s2 → s1 = s2.
Proof.
  intros (_ & _ & _ & _ & _ & r1 & H1 & _ & _ & ->) (_ & _ & _ & _ & _ & r2 & H2 & _ & _ & ->).
  congruence.
Qed.

(** With auth enabled, [AuthenticateSignature] has two outcomes: the subject
    of the record when the input verifies, the rejection [("", false)] when it
    does not. *)
Lemma AuthenticateSignature_cases (m : Manager) (i : SignatureInput) (now : time.Time) :
  Enabled m = true →
  (∃ s, verifies m i now s ∧ AuthenticateSignature m i now = (s, true))
  ∨ ((∀ s, ¬ verifies m i now s) ∧ AuthenticateSignature m i now = ("", false)).
Proof.
  intros He. unfold AuthenticateSignature, verifies. rewrite He. cbn [negb].
  destruct (is_empty (in_AccessKeyID i)) eqn:Ea.
  { right. split; [|reflexivity]. apply is_empty_true in Ea. intros s (H & _). congruence. }
  destruct (is_empty (in_Signature i)) eqn:Es.
  { right. split; [|reflexivity]. apply is_empty_true in Es. intros s (_ & H & _). congruence. }
  destruct (Z.eqb_spec (in_Timestamp i) 0) as [Et|Et].
  { right. split; [|reflexivity]. intros s (_ & _ & _ & H & _). congruence. }
  destruct (is_empty (in_Nonce i)) eqn:En.
  { right. split; [|reflexivity]. apply is_empty_true in En. intros s (_ & _ & H & _). congruence. }
  cbn [orb]. apply is_empty_false in Ea, Es, En.
  unfold time.Before, time.After, time.Add.
  destruct (Z.ltb_spec (time.Unix (in_Timestamp i) 0) (now + -5 * time.Minute)) as [Hb|Hb].
  { right. split; [|reflexivity]. intros s (_ & _ & _ & _ & H & _). lia. }
  destruct (Z.ltb_spec (now + 5 * time.Minute) (time.Unix (in_Timestamp i) 0)) as [Hf|Hf].
  { right. split; [|reflexivity]. intros s (_ & _ & _ & _ & H & _). lia. }
  cbn [orb].
  destruct (temps m !! in_AccessKeyID i) as [rec|] eqn:Hrec.
  2:{ right. split; [|reflexivity]. intros s (_ & _ & _ & _ & _ & r & H & _). congruence. }
  destruct (Z.ltb_spec (expiresAt rec) now) as [Hexp|Hexp].
  { right. split; [|reflexivity].
    intros s (_ & _ & _ & _ & _ & r & H & Hle & _). assert (r = rec) by congruence. subst r. lia. }
  unfold hmacSHA256Hex. rewrite hex_Decode_Encode.
  destruct (hex.DecodeString (in_Signature i)) as [b errB] eqn:Hdec.
  destruct errB as [e|]; cbn [is_nil negb orb].
  { right. split; [|reflexivity].
    intros s (_ & _ & _ & _ & _ & r & H & _ & Hd & _). congruence. }
  destruct (hmac.Equal _ b) eqn:Heq; cbn [negb].
  - left. apply hmac_Equal_eq in Heq. subst b. exists (subject rec).
    split; [|reflexivity].
    repeat (split; [assumption || lia|]). exists rec. repeat split; try assumption.
  - right. split; [|reflexivity].
    intros s (_ & _ & _ & _ & _ & r & H & _ & Hd & _).
    assert (r = rec) by congruence. subst r.
    assert (Hb' : hmac.Equal b b = true) by now apply hmac_Equal_eq.
    assert (b = hmac.SumSHA256 (bytes_of_string (secret rec))
                  (bytes_of_string (canonicalString i))) by congruence.
    subst b. congruence.
Qed.

(** C1. With auth enabled, [AuthenticateSignature] returns [(subj, true)]
    exactly when the required fields are present, the timestamp is within five
    minutes of [now] on either side, a record for the access key exists and
    [now] is not after its expiry, the signature hex-decodes to the
    HMAC-SHA256 of the canonical string under the record's secret, and [subj]
    is the record's subject; in every other case it returns [("", false)]. *)
Theorem AuthenticateSignature_iff (m : Manager) (i : SignatureInput) (now : time.Time) :
  Enabled m = true →
  (∀ subj, AuthenticateSignature m i now = (subj, true) ↔ verifies m i now subj)
  ∧ ((¬ ∃ subj, verifies m i now subj) → AuthenticateSignature m i now = ("", false)).
Proof.
  intros He.
  destruct (AuthenticateSignature_cases m i now He) as [(s & Hv & Hr)|(Hn & Hr)].
  - split.
    + intros subj. rewrite Hr. split.
      * now intros [= <-].
      * intros Hv'. now rewrite (verifies_functional _ _ _ _ _ Hv Hv').
    + intros Hno. exfalso. apply Hno. now exists s.
  - split; [|intros _; exact Hr].
    intros subj. rewrite Hr. split; [discriminate|]. intros Hv. now destruct (Hn subj).
Qed.

Lemma AuthenticateSignature_iff_witness :
  Enabled demo_mgr = true
  ∧ verifies demo_mgr demo_signed demo_now "svc"
  ∧ AuthenticateSignature demo_mgr demo_signed demo_now = ("svc", true).
Proof.
  assert (He : Enabled demo_mgr = true) by reflexivity.
  assert (Hr : AuthenticateSignature demo_mgr demo_signed demo_now = ("svc", true))
    by (vm_compute; reflexivity).
  split; [exact He|]. split; [|exact Hr].
  exact (proj1 (proj1 (AuthenticateSignature_iff demo_mgr demo_signed demo_now He) "svc") Hr).
Defined.

(** ** The two branches of the canonical string *)

Lemma count_LF_app (a b : string) : count_LF (a +:+ b) = (count_LF a + count_LF b)%nat.
Proof.
  induction a as [|c a IH]; [reflexivity|].
  rewrite append_String. cbn [count_LF]. rewrite IH.
  destruct (Z_of_ascii c =? 10); reflexivity.
Qed.

Lemma count_LF_uint (d : Decimal.uint) : count_LF (NilEmpty.string_of_uint d) = 0%nat.
Proof. induction d; cbn [NilEmpty.string_of_uint count_LF]; try rewrite IHd; reflexivity. Qed.

Lemma count_LF_FormatInt (z : Z) : count_LF (FormatInt z) = 0%nat.
Proof.
  unfold FormatInt. destruct (Z.to_int z); cbn [NilEmpty.string_of_int count_LF];
    rewrite count_LF_uint; reflexivity.
Qed.

Lemma count_LF_LF : count_LF LF = 1%nat.
Proof. reflexivity. Qed.

(** The canonical string of the HTTP branch has at least five newlines. *)
Lemma count_LF_http (i : SignatureInput) :
  http_branch i = true → (5 ≤ count_LF (canonicalString i))%nat.
Proof.
  intros H. rewrite canonicalString_spec. unfold canonical_spec. rewrite H.
  unfold join_lines. cbn [String.concat].
  rewrite !count_LF_app, !count_LF_LF. lia.
Qed.

(** The one of the RPC branch has four, and those of its three free fields. *)
Lemma count_LF_rpc (i : SignatureInput) :
  http_branch i = false →
  count_LF (canonicalString i)
  = (4 + count_LF (in_Nonce i) + count_LF (in_GRPCFullMethod i)
     + count_LF (in_CallbackURL i))%nat.
Proof.
  intros H. rewrite canonicalString_spec. unfold canonical_spec. rewrite H.
  unfold join_lines. cbn [String.concat].
  rewrite !count_LF_app, !count_LF_LF, count_LF_FormatInt.
  change (count_LF "GRPC") with 0%nat. lia.
Qed.

(** A successful verification exhibits the record and the tag. *)
Lemma AuthenticateSignature_true_inv (m : Manager) (i : SignatureInput) (now : time.Time)
    (s : string) :
  Enabled m = true → AuthenticateSignature m i now = (s, true) → verifies m i now s.
Proof.
  intros He Hr.
  destruct (AuthenticateSignature_cases m i now He) as [(s' & Hv & Hr')|(_ & Hr')];
    rewrite Hr' in Hr; [|discriminate].
  now injection Hr as <-.
Qed.

(** C3, as amended. When the nonce, the full method name and the callback
    URL of the RPC-branch input contain no newline, its canonical string
    differs from that of every HTTP-branch input; a signature that verifies
    for both inputs against one record is then the HMAC-SHA256 tag of two
    different messages under the record's secret. *)
Theorem canonicalString_branches_distinct (a b : SignatureInput) :
  http_branch a = true → http_branch b = false →
  no_LF (in_Nonce b) → no_LF (in_GRPCFullMethod b) → no_LF (in_CallbackURL b) →
  canonicalString a ≠ canonicalString b
  ∧ ∀ (m : Manager) (now : time.Time) (sa sb : string),
      Enabled m = true →
      in_AccessKeyID a = in_AccessKeyID b → in_Signature a = in_Signature b →
      AuthenticateSignature m a now = (sa, true) →
      AuthenticateSignature m b now = (sb, true) →
      ∃ rec : tempRecord,
        temps m !! in_AccessKeyID a = Some rec
        ∧ hmac.SumSHA256 (bytes_of_string (secret rec)) (bytes_of_string (canonicalString a))
          = hmac.SumSHA256 (bytes_of_string (secret rec)) (bytes_of_string (canonicalString b)).
Proof.
  unfold no_LF. intros Ha Hb Hn Hg Hc.
  assert (Hne : canonicalString a ≠ canonicalString b).
  { intros E. pose proof (count_LF_http a Ha) as H5.
    rewrite E, (count_LF_rpc b Hb), Hn, Hg, Hc in H5. lia. }
  split; [exact Hne|].
  intros m now sa sb He Hk Hs Hva Hvb.
  apply AuthenticateSignature_true_inv in Hva; [|exact He].
  apply AuthenticateSignature_true_inv in Hvb; [|exact He].
  destruct Hva as (_ & _ & _ & _ & _ & ra & Hra & _ & Hda & _).
  destruct Hvb as (_ & _ & _ & _ & _ & rb & Hrb & _ & Hdb & _).
  rewrite <- Hk in Hrb. assert (rb = ra) by congruence. subst rb.
  exists ra. split; [exact Hra|]. rewrite <- Hs in Hdb. congruence.
Qed.

Lemma canonicalString_branches_distinct_witness :
  http_branch example_http = true ∧ http_branch example_rpc = false
  ∧ canonicalString example_http ≠ canonicalString example_rpc.
Proof.
  split; [reflexivity|]. split; [reflexivity|].
  exact (proj1 (canonicalString_branches_distinct example_http example_rpc
                  eq_refl eq_refl eq_refl eq_refl eq_refl)).
Defined.

(** C3, as stated, fails: an HTTP-branch input whose method is ["GRPC"] and
    an RPC-branch input whose callback URL holds the body hash, a newline and
    the callback URL of the first have the same canonical string, and one
    signature verifies for both. *)
Lemma canonicalString_branches_collide :
  http_branch collide_http = true ∧ http_branch collide_rpc = false
  ∧ canonicalString collide_http = canonicalString collide_rpc
  ∧ in_Signature (sign demo_secret collide_http) = in_Signature (sign demo_secret collide_rpc)
  ∧ AuthenticateSignature demo_mgr (sign demo_secret collide_http) demo_now = ("svc", true)
  ∧ AuthenticateSignature demo_mgr (sign demo_secret collide_rpc) demo_now = ("svc", true).
Proof. vm_compute. repeat split. Qed.
(** ** Lifetime of a derived credential (§4.1, §4.3) *)

Lemma blocks_length (n : nat) (h p : list Z) :
  length h = 8%nat → length (sha256.blocks n h p) = 8%nat.
Proof.
  revert h p. induction n as [|n IH]; intros h p Hh; [exact Hh|].
  cbn [sha256.blocks]. destruct p as [|x p]; [exact Hh|].
  apply IH. unfold sha256.block.
  destruct (fold_left sha256.round _ _). reflexivity.
Qed.

Lemma flat_map_be32_length (l : list Z) :
  length (flat_map sha256.be32 l) = (4 * length l)%nat.
Proof.
  induction l as [|x l IH]; [reflexivity|].
  cbn [flat_map]. rewrite length_app, IH. simpl. lia.
Qed.

(** A SHA-256 digest has 32 bytes. *)
Lemma Sum256_length (d : list byte) : length (sha256.Sum256 d) = 32%nat.
Proof.
  unfold sha256.Sum256. rewrite length_map, flat_map_be32_length, blocks_length; reflexivity.
Qed.

Lemma hmac_SumSHA256_length (key msg : list byte) :
  length (hmac.SumSHA256 key msg) = 32%nat.
Proof. unfold hmac.SumSHA256. apply Sum256_length. Qed.

Lemma hex_EncodeToString_nonempty (b : list byte) :
  b ≠ [] → hex.EncodeToString b ≠ "".
Proof. destruct b; [congruence | discriminate]. Qed.

Lemma hmacSHA256Hex_nonempty (secret msg : string) : hmacSHA256Hex secret msg ≠ "".
Proof.
  unfold hmacSHA256Hex. apply hex_EncodeToString_nonempty.
  intros E. pose proof (hmac_SumSHA256_length (bytes_of_string secret) (bytes_of_string msg)) as H.
  rewrite E in H. discriminate.
Qed.

Lemma rand_Read_length (tape b tape' : list byte) (n : nat) :
  rand_Read tape n = inl (b, tape') → length b = n.
Proof.
  unfold rand_Read. destruct (Nat.leb_spec n (length tape)) as [H|H]; [|discriminate].
  intros [= <- _]. rewrite length_firstn. lia.
Qed.

(** What a successful issuance did. *)
Lemma IssueTemporaryCredentials_inv (m m' : Manager) (tape tape' : list byte)
    (tok : string) (T : time.Time) (creds : TemporaryCredentials) :
  IssueTemporaryCredentials m tape tok T = (m', tape', inl creds) →
  Enabled m = true
  ∧ AuthenticateServiceToken m tok = (Subject creds, true)
  ∧ AccessKeyID creds ≠ ""
  ∧ ExpiresAt creds = T + tempTTL m
  ∧ Enabled m' = true
  ∧ temps m' = <[AccessKeyID creds :=
                   {| secret := AccessKeySecret creds; expiresAt := ExpiresAt creds;
                      subject := Subject creds |}]> (temps m).
Proof.
  unfold IssueTemporaryCredentials.
  destruct (Enabled m) eqn:He; cbn [negb]; [|discriminate].
  destruct (AuthenticateServiceToken m tok) as [subj ok]. destruct ok; cbn [negb]; [|discriminate].
  unfold randHex, randB64.
  destruct (rand_Read tape 16) as [[b1 tape1]|e1] eqn:H1; [|discriminate].
  destruct (rand_Read tape1 32) as [[b2 tape2]|e2] eqn:H2; [|discriminate].
  intros [= <- _ <-]. cbn.
  repeat split; try assumption.
  apply hex_EncodeToString_nonempty. apply rand_Read_length in H1.
  destruct b1; [discriminate | congruence].
Qed.

(** C4. A credential issued at time [T] by a manager with TTL [D] expires at
    [T + D]. A request for its access key with a fresh timestamp and the
    signature computed under its secret verifies, for the subject of the
    credential, at every time [T'] with [T ≤ T' ≤ T + D], and is rejected at
    every [T' > T + D]; the expired record is still in the store. *)
Theorem derived_credential_lifetime (m m' : Manager) (tape tape' : list byte)
    (tok : string) (T : time.Time) (creds : TemporaryCredentials) :
  IssueTemporaryCredentials m tape tok T = (m', tape', inl creds) →
  ExpiresAt creds = T + tempTTL m
  ∧ ∀ (i : SignatureInput) (T' : time.Time),
      in_AccessKeyID i = AccessKeyID creds →
      in_Nonce i ≠ "" → in_Timestamp i ≠ 0 →
      T' - 5 * time.Minute ≤ time.Unix (in_Timestamp i) 0 ≤ T' + 5 * time.Minute →
      in_Signature i = hmacSHA256Hex (AccessKeySecret creds) (canonicalString i) →
      (T ≤ T' ≤ T + tempTTL m → AuthenticateSignature m' i T' = (Subject creds, true))
      ∧ (T + tempTTL m < T' →
           AuthenticateSignature m' i T' = ("", false)
           ∧ temps m' !! AccessKeyID creds
             = Some {| secret := AccessKeySecret creds; expiresAt := T + tempTTL m;
                       subject := Subject creds |}).
Proof.
  intros Hissue.
  destruct (IssueTemporaryCredentials_inv _ _ _ _ _ _ _ Hissue)
    as (He & _ & Hak & Hexp & He' & Htemps).
  split; [exact Hexp|].
  intros i T' Hid Hnonce Hts Hfresh Hsig.
  assert (Hrec : temps m' !! in_AccessKeyID i
                 = Some {| secret := AccessKeySecret creds; expiresAt := T + tempTTL m;
                           subject := Subject creds |}).
  { rewrite Htemps, Hid, Hexp. apply lookup_insert_eq. }
  destruct (AuthenticateSignature_cases m' i T' He') as [(s & Hv & Hr)|(Hn & Hr)].
  - destruct Hv as (_ & _ & _ & _ & _ & rec & Hrec' & Hle & _ & ->).
    rewrite Hrec in Hrec'. injection Hrec' as <-. cbn [expiresAt subject] in Hle, Hr.
    split; [intros _; exact Hr|].
    intros Hlate. lia.
  - split.
    + intros [_ Hin]. exfalso. apply (Hn (Subject creds)).
      unfold verifies. rewrite Hid at 1. rewrite Hsig at 1.
      repeat (split; [assumption || apply hmacSHA256Hex_nonempty || lia|]).
      eexists. split; [exact Hrec|]. cbn [expiresAt secret subject]. split; [lia|].
      split; [|reflexivity].
      rewrite Hsig. unfold hmacSHA256Hex. apply hex_Decode_Encode.
    + intros _. split; [exact Hr|]. rewrite <- Hid. exact Hrec.
Qed.

Lemma derived_credential_lifetime_witness :
  IssueTemporaryCredentials demo_mgr0 demo_tape "tok-1" demo_T = (demo_mgr, [], inl demo_creds)
  ∧ ExpiresAt demo_creds = demo_T + tempTTL demo_mgr0
  ∧ AuthenticateSignature demo_mgr demo_signed demo_now = ("svc", true)
  ∧ AuthenticateSignature demo_mgr demo_late_signed demo_late = ("", false).
Proof.
  assert (Hissue :
    IssueTemporaryCredentials demo_mgr0 demo_tape "tok-1" demo_T
    = (demo_mgr, [], inl demo_creds)) by (vm_compute; reflexivity).
  split; [exact Hissue|].
  destruct (derived_credential_lifetime _ _ _ _ _ _ _ Hissue) as [Hexp Hall].
  split; [exact Hexp|].
  split.
  - assert (Hid : in_AccessKeyID demo_signed = AccessKeyID demo_creds) by reflexivity.
    assert (Hn : in_Nonce demo_signed ≠ "") by discriminate.
    assert (Hts : in_Timestamp demo_signed ≠ 0) by discriminate.
    assert (Hfresh : demo_now - 5 * time.Minute ≤ time.Unix (in_Timestamp demo_signed) 0
                     ≤ demo_now + 5 * time.Minute) by (vm_compute; split; discriminate).
    assert (Hsig : in_Signature demo_signed
                   = hmacSHA256Hex (AccessKeySecret demo_creds) (canonicalString demo_signed))
      by (vm_compute; reflexivity).
    apply (proj1 (Hall demo_signed demo_now Hid Hn Hts Hfresh Hsig)).
    vm_compute. split; discriminate.
  - assert (Hid : in_AccessKeyID demo_late_signed = AccessKeyID demo_creds) by reflexivity.
    assert (Hn : in_Nonce demo_late_signed ≠ "") by discriminate.
    assert (Hts : in_Timestamp demo_late_signed ≠ 0) by discriminate.
    assert (Hfresh : demo_late - 5 * time.Minute ≤ time.Unix (in_Timestamp demo_late_signed) 0
                     ≤ demo_late + 5 * time.Minute) by (vm_compute; split; discriminate).
    assert (Hsig : in_Signature demo_late_signed
                   = hmacSHA256Hex (AccessKeySecret demo_creds)
                       (canonicalString demo_late_signed))
      by (vm_compute; reflexivity).
    apply (proj2 (Hall demo_late_signed demo_late Hid Hn Hts Hfresh Hsig)).
    vm_compute. reflexivity.
Defined.

(** ** The decision protocol of the interceptor (§4.4) *)

(** C6. With auth enabled, a call of a method whose name ends in
    [/IssueTemporaryCredentials] and whose metadata carries no service token
    is rejected with [Unauthenticated] by [authenticate] and by both
    interceptors, whatever the other metadata and the credential store hold;
    the handler does not run and signature verification plays no part. *)
Theorem issuance_requires_service_token (m : Manager) (ctx : Context)
    (fullMethod : string) (now : time.Time) :
  Enabled m = true →
  strings.HasSuffix fullMethod "/IssueTemporaryCredentials" = true →
  first (MD_Get (incomingMD ctx) mdServiceToken) = "" →
  let rejected := {| code := Unauthenticated; message := "service token required" |} in
  authenticate ctx m fullMethod now = inr rejected
  ∧ (∀ (S Resp : Type) (handler : Context → S → S * (Resp + Status)) (st : S),
       UnaryServerInterceptor (Some m) ctx fullMethod now handler st = (st, inr rejected))
  ∧ (∀ (S : Type) (handler : Context → S → S * option Status) (st : S),
       StreamServerInterceptor (Some m) ctx fullMethod now handler st = (st, Some rejected)).
Proof.
  intros He Hsuf Htok rejected.
  assert (Ha : authenticate ctx m fullMethod now = inr rejected).
  { unfold authenticate. rewrite Htok. cbn [is_empty negb]. now rewrite Hsuf. }
  split; [exact Ha|]. split; intros.
  - unfold UnaryServerInterceptor. now rewrite He, Ha.
  - unfold StreamServerInterceptor. now rewrite He, Ha.
Qed.

(** The rejected call of the witness carries a signature that verifies. *)
Lemma issuance_requires_service_token_witness :
  AuthenticateSignature demo_mgr (signatureInputOf demo_issue_md issue_method) demo_now
  = ("svc", true)
  ∧ authenticate (inbound demo_issue_md) demo_mgr issue_method demo_now
    = inr {| code := Unauthenticated; message := "service token required" |}.
Proof.
  split; [vm_compute; reflexivity|].
  assert (He : Enabled demo_mgr = true) by reflexivity.
  assert (Hsuf : strings.HasSuffix issue_method "/IssueTemporaryCredentials" = true)
    by (vm_compute; reflexivity).
  assert (Htok : first (MD_Get (incomingMD (inbound demo_issue_md)) mdServiceToken) = "")
    by (vm_compute; reflexivity).
  exact (proj1 (issuance_requires_service_token demo_mgr (inbound demo_issue_md)
                  issue_method demo_now He Hsuf Htok)).
Defined.

(** ** The timestamp header *)

Lemma Z_of_ascii_inj (a b : ascii) : Z_of_ascii a = Z_of_ascii b → a = b.
Proof.
  unfold Z_of_ascii. intros H. apply N2Z.inj in H.
  rewrite <- (ascii_N_embedding a), <- (ascii_N_embedding b). now rewrite H.
Qed.

(** The loop returns 0 as soon as the rest of the string has a byte that is
    no digit, other than a minus sign at index 0 of the whole string. *)
Lemma parseInt64_from_bad (s : string) :
  ∀ (i : nat) (n sign : Z) (k : nat) (c : ascii),
    String.get k s = Some c → is_digit c = false →
    ¬ ((i + k)%nat = 0%nat ∧ c = "-"%char) →
    parseInt64_from s i n sign = 0.
Proof.
  induction s as [|r s IH]; intros i n sign k c Hget Hnd Hminus; [discriminate|].
  cbn [parseInt64_from].
  destruct k as [|k].
  - cbn in Hget. injection Hget as ->.
    destruct ((i =? 0)%nat && (Z_of_ascii c =? 45)) eqn:E.
    + exfalso. apply andb_prop in E as [Ei Ec].
      apply Nat.eqb_eq in Ei. apply Z.eqb_eq in Ec. apply Hminus. split; [lia|].
      now apply Z_of_ascii_inj.
    + unfold is_digit in Hnd.
      destruct (Z.ltb_spec (Z_of_ascii c) 48), (Z.ltb_spec 57 (Z_of_ascii c));
        cbn [orb]; try reflexivity.
      exfalso. apply andb_false_iff in Hnd as [H'|H']; apply Z.leb_gt in H'; lia.
  - cbn in Hget.
    assert (Hrest : ∀ n' sign', parseInt64_from s (S i) n' sign' = 0).
    { intros n' sign'. apply (IH (S i) n' sign' k c Hget Hnd). intros [H0 _]. lia. }
    destruct ((i =? 0)%nat && (Z_of_ascii r =? 45)); [apply Hrest|].
    destruct ((Z_of_ascii r <? 48) || (57 <? Z_of_ascii r)); [reflexivity | apply Hrest].
Qed.

Lemma parseInt64_malformed (s : string) : malformed_timestamp s → parseInt64 s = 0.
Proof.
  intros [->|(k & c & Hget & Hnd & Hminus)]; [reflexivity|].
  unfold parseInt64. apply (parseInt64_from_bad s 0 0 1 k c Hget Hnd). exact Hminus.
Qed.

Lemma AuthenticateSignature_zero_timestamp (m : Manager) (i : SignatureInput)
    (now : time.Time) :
  Enabled m = true → in_Timestamp i = 0 → AuthenticateSignature m i now = ("", false).
Proof.
  intros He Hz. unfold AuthenticateSignature. rewrite He, Hz. cbn [negb Z.eqb].
  destruct (is_empty (in_AccessKeyID i)), (is_empty (in_Signature i)); reflexivity.
Qed.

(** C10. [parseInt64] returns 0 on every string that is empty or has a byte
    that is no digit (a minus sign at index 0 apart); with auth enabled,
    [AuthenticateSignature] rejects every input whose timestamp is 0; hence a
    call whose [x-timestamp] header is malformed, or is the literal ["0"], is
    never authenticated by signature. *)
Theorem malformed_timestamp_never_authenticates :
  (∀ s : string, malformed_timestamp s → parseInt64 s = 0)
  ∧ (∀ (m : Manager) (i : SignatureInput) (now : time.Time),
       Enabled m = true → in_Timestamp i = 0 → AuthenticateSignature m i now = ("", false))
  ∧ (∀ (m : Manager) (ctx : Context) (fullMethod : string) (now : time.Time) (subj : string),
       Enabled m = true →
       (malformed_timestamp (first (MD_Get (incomingMD ctx) mdTimestamp))
        ∨ first (MD_Get (incomingMD ctx) mdTimestamp) = "0") →
       authenticate ctx m fullMethod now ≠ inl (subj, MethodSignature)).
Proof.
  split; [exact parseInt64_malformed|]. split; [exact AuthenticateSignature_zero_timestamp|].
  intros m ctx fullMethod now subj He Hts.
  assert (Hz : parseInt64 (first (MD_Get (incomingMD ctx) mdTimestamp)) = 0).
  { destruct Hts as [Hbad| ->]; [now apply parseInt64_malformed | reflexivity]. }
  unfold authenticate.
  destruct (is_empty (first (MD_Get (incomingMD ctx) mdServiceToken))); cbn [negb].
  - destruct (strings.HasSuffix fullMethod "/IssueTemporaryCredentials"); [discriminate|].
    rewrite AuthenticateSignature_zero_timestamp; [discriminate | exact He | exact Hz].
  - destruct (AuthenticateServiceToken m _) as [s [|]]; discriminate.
Qed.

Lemma malformed_timestamp_never_authenticates_witness :
  malformed_timestamp "17e8" ∧ parseInt64 "17e8" = 0
  ∧ AuthenticateSignature demo_mgr
      (signatureInputOf (<[mdTimestamp := ["0"]]> demo_issue_md) "/svc/ListModels") demo_now
    = ("", false).
Proof.
  assert (Hbad : malformed_timestamp "17e8").
  { right. exists 2%nat, "e"%char. split; [reflexivity|]. split; [reflexivity|].
    intros [H _]. discriminate. }
  split; [exact Hbad|].
  split; [exact (proj1 malformed_timestamp_never_authenticates "17e8" Hbad)|].
  apply (proj1 (proj2 malformed_timestamp_never_authenticates)); reflexivity.
Defined.

(** ** Disabled mode (§4.1, §4.4) *)

(** C5, as amended. When auth is disabled, both interceptors hand every call
    to its handler with the context unchanged, so that an inbound call
    reaches the handler with an empty subject and no method; the handlers of
    the two protected operations do not bypass their gating: they reject such
    a call with [PermissionDenied] and leave the manager as it is. *)
Theorem disabled_mode_passes_and_gates (url_Parse : string → url.URL + error)
    (m : Manager) (fullMethod : string) (now : time.Time) :
  Enabled m = false →
  (∀ (S Resp : Type) (ctx : Context) (handler : Context → S → S * (Resp + Status)) (st : S),
     UnaryServerInterceptor (Some m) ctx fullMethod now handler st = handler ctx st)
  ∧ (∀ (S : Type) (ctx : Context) (handler : Context → S → S * option Status) (st : S),
       StreamServerInterceptor (Some m) ctx fullMethod now handler st = handler ctx st)
  ∧ ∀ md : gmap string (list string),
      SubjectFromContext (inbound md) = "" ∧ MethodFromContext (inbound md) = ""
      ∧ (∀ urls : list string,
           SetUsageCallback url_Parse (inbound md) urls (Some m)
           = (Some m, inr {| code := PermissionDenied; message := "service token required" |}))
      ∧ GetUsageCallback (inbound md) (Some m)
        = (Some m, inr {| code := PermissionDenied; message := "service token required" |}).
Proof.
  intros He. split; [|split].
  - intros. unfold UnaryServerInterceptor. now rewrite He.
  - intros. unfold StreamServerInterceptor. now rewrite He.
  - intros md. repeat split.
Qed.

Lemma disabled_mode_passes_and_gates_witness :
  Enabled disabled_mgr = false
  ∧ UnaryServerInterceptor (Some disabled_mgr) (inbound ∅)
      "/llmgateway.v1.LLMGatewayService/GetUsageCallback" demo_now
      (fun ctx => GetUsageCallback ctx) (Some disabled_mgr)
    = GetUsageCallback (inbound ∅) (Some disabled_mgr).
Proof.
  split; [reflexivity|].
  exact (proj1 (disabled_mode_passes_and_gates url_ref.Parse disabled_mgr
                  "/llmgateway.v1.LLMGatewayService/GetUsageCallback" demo_now eq_refl)
           _ _ (inbound ∅) (fun ctx => GetUsageCallback ctx) (Some disabled_mgr)).
Defined.

(** C5, as stated, fails: with no service token configured, a call of
    [SetUsageCallback] or [GetUsageCallback] passes the interceptor and is
    rejected by the handler for its auth method. *)
Lemma disabled_mode_rejects_usage_callback :
  Enabled disabled_mgr = false
  ∧ UnaryServerInterceptor (Some disabled_mgr) (inbound ∅)
      "/llmgateway.v1.LLMGatewayService/SetUsageCallback" demo_now
      (fun ctx => SetUsageCallback url_ref.Parse ctx ["https://example.com/cb"])
      (Some disabled_mgr)
    = (Some disabled_mgr,
       inr {| code := PermissionDenied; message := "service token required" |})
  ∧ UnaryServerInterceptor (Some disabled_mgr) (inbound ∅)
      "/llmgateway.v1.LLMGatewayService/GetUsageCallback" demo_now
      (fun ctx => GetUsageCallback ctx) (Some disabled_mgr)
    = (Some disabled_mgr,
       inr {| code := PermissionDenied; message := "service token required" |}).
Proof. repeat split. Qed.

(** ** The HTTP bridge (§6) *)

Lemma Header_Set_lookup (h : gmap string (list string)) (key value k : string) :
  httpgateway.Header_Set h key value !! k
  = if decide (httpgateway.CanonicalMIMEHeaderKey key = k) then Some [value] else h !! k.
Proof. unfold httpgateway.Header_Set. apply lookup_insert. Qed.

Lemma Header_Get_agree (h1 h2 : gmap string (list string)) (key : string) :
  h1 !! httpgateway.CanonicalMIMEHeaderKey key = h2 !! httpgateway.CanonicalMIMEHeaderKey key →
  httpgateway.Header_Get h1 key = httpgateway.Header_Get h2 key.
Proof. unfold httpgateway.Header_Get. now intros ->. Qed.

Lemma stamped_lookup (r : httpgateway.Request) (k : string) :
  stamped r !! k
  = if decide ("X-Llmgw-Http-Query" = k) then Some [httpgateway.URL_RawQuery r]
    else if decide ("X-Llmgw-Http-Path" = k) then Some [httpgateway.URL_Path r]
    else if decide ("X-Llmgw-Http-Method" = k) then Some [httpgateway.Method_ r]
    else httpgateway.Header r !! k.
Proof. unfold stamped. rewrite !Header_Set_lookup. reflexivity. Qed.

Lemma bridged_lookup (r : httpgateway.Request) (body : httpgateway.Body)
    (hashed : list byte) (k : string) :
  httpgateway.Header (bridged r body hashed) !! k
  = if decide ("X-Llmgw-Body-Sha256" = k)
    then Some [hex.EncodeToString (sha256.Sum256 hashed)]
    else stamped r !! k.
Proof. unfold bridged. cbn [httpgateway.Header]. rewrite Header_Set_lookup. reflexivity. Qed.

(** The handler in terms of [stamped] and [bridged]. *)
Lemma handler_unfold (r : httpgateway.Request) :
  httpgateway.handler r
  = if negb (httpgateway.hasSig (stamped r)) then
      httpgateway.ServeGateway (bridged r (httpgateway.Body_ r) [])
    else
      let '(b, err) :=
        httpgateway.ReadAllLimited (httpgateway.Body_ r) (httpgateway.maxBody + 1) in
      if err || (httpgateway.maxBody <? Z.of_nat (length b)) then
        httpgateway.HttpError "request body too large for signature verification"
          httpgateway.StatusRequestEntityTooLarge
      else
        httpgateway.ServeGateway
          (bridged r {| httpgateway.data := b; httpgateway.readError := false |} b).
Proof.
  unfold httpgateway.handler. cbv zeta.
  cbn [httpgateway.Header httpgateway.Method_ httpgateway.URL_Path httpgateway.URL_RawQuery
       httpgateway.Body_ httpgateway.with_Header httpgateway.with_Body].
  fold (stamped r).
  destruct (httpgateway.hasSig (stamped r)); cbn [negb]; [|reflexivity].
  destruct (httpgateway.ReadAllLimited _ _) as [b err].
  destruct (err || _); reflexivity.
Qed.

(** The four headers that decide [hasSig] are none of the stamped ones. *)
Lemma hasSig_stamped (r : httpgateway.Request) :
  httpgateway.hasSig (stamped r) = httpgateway.hasSig (httpgateway.Header r).
Proof.
  unfold httpgateway.hasSig.
  rewrite (Header_Get_agree (stamped r) (httpgateway.Header r) "X-Access-Key-Id"),
          (Header_Get_agree (stamped r) (httpgateway.Header r) "X-Signature"),
          (Header_Get_agree (stamped r) (httpgateway.Header r) "X-Timestamp"),
          (Header_Get_agree (stamped r) (httpgateway.Header r) "X-Nonce");
    [reflexivity|..]; rewrite stamped_lookup; reflexivity.
Qed.



Lemma take_length (l : list byte) :
  ∀ n : Z, 0 ≤ n ≤ Z.of_nat (length l) → Z.of_nat (length (httpgateway.take n l)) = n.
Proof.
  induction l as [|x l IH]; intros n Hn; cbn [httpgateway.take length] in *; [lia|].
  destruct (Z.leb_spec n 0); cbn [length]; [lia|].
  rewrite Nat2Z.inj_succ, IH; lia.
Qed.




Example bridge_forwards_actual_values :
  ∃ r' : httpgateway.Request,
    httpgateway.handler demo_http_spoofed = httpgateway.ServeGateway r'
    ∧ httpgateway.Header r' !! "X-Llmgw-Http-Method" = Some ["POST"]
    ∧ httpgateway.Header r' !! "X-Llmgw-Http-Path" = Some ["/v1/embeddings"]
    ∧ httpgateway.Header r' !! "X-Llmgw-Http-Query" = Some [""]
    ∧ httpgateway.Header r' !! "X-Llmgw-Body-Sha256"
      = Some ["44136fa355b3678a1146ad16f7e8649e94fb4fc21fe77e8310c060f61caaff8a"].
Proof. eexists. split; [vm_compute; reflexivity|]. vm_compute. repeat split. Qed.

(** ** The usage-callback allowlist (§4.5) *)

Section AllowlistProperties.

Variable url_Parse : string → url.URL + error.

Lemma validateCallbackURL_malformed (u : string) :
  validateCallbackURL url_Parse u ≠ None ↔ malformed_url url_Parse u.
Proof.
  unfold validateCallbackURL, malformed_url.
  destruct (url_Parse u) as [p|e]; [|split; [auto | discriminate]].
  destruct (String.eqb_spec (url.Scheme p) "http") as [Eh|Eh];
    destruct (String.eqb_spec (url.Scheme p) "https") as [Es|Es]; cbn [negb andb];
    try (destruct (is_empty (url.Host p)) eqn:Eh0;
         [apply is_empty_true in Eh0 | apply is_empty_false in Eh0]);
    split; try discriminate; try congruence; auto; intros [[? ?]|?]; congruence.
Qed.

Lemma validateCallbackURL_forbidden (u : string) (err : error) :
  validateCallbackURL url_Parse u = Some err → errors_Is err ErrForbidden = true.
Proof.
  unfold validateCallbackURL.
  destruct (url_Parse u) as [p|e]; [|now intros [= <-]].
  destruct (negb _ && negb _); [now intros [= <-]|].
  destruct (is_empty _); [now intros [= <-] | discriminate].
Qed.

(** The loop fails as soon as the list has a non-empty malformed URL. *)
Lemma collectURLs_malformed (urls : list string) :
  (∃ u, u ∈ urls ∧ u ≠ "" ∧ malformed_url url_Parse u) →
  ∀ set : gset string,
    ∃ err, collectURLs url_Parse urls set = inr err ∧ errors_Is err ErrForbidden = true.
Proof.
  induction urls as [|x urls IH]; intros (u & Hin & Hne & Hbad) set.
  { now apply elem_of_nil in Hin. }
  cbn [collectURLs].
  destruct (validateCallbackURL url_Parse x) as [err|] eqn:Hx.
  - destruct (is_empty x) eqn:Ex.
    + apply elem_of_cons in Hin as [->|Hin].
      * apply is_empty_true in Ex. congruence.
      * apply IH. eauto.
    + exists err. split; [reflexivity|]. eapply validateCallbackURL_forbidden, Hx.
  - assert (Hin' : u ∈ urls).
    { apply elem_of_cons in Hin as [->|Hin]; [|exact Hin].
      apply validateCallbackURL_malformed in Hbad. congruence. }
    destruct (is_empty x); apply IH; eauto.
Qed.

(** On a list of non-empty valid URLs the loop adds every URL to the set. *)
Lemma collectURLs_valid (urls : list string) :
  (∀ u, u ∈ urls → u ≠ "" ∧ ¬ malformed_url url_Parse u) →
  ∀ set : gset string, collectURLs url_Parse urls set = inl (list_to_set urls ∪ set).
Proof.
  induction urls as [|x urls IH]; intros Hall set; cbn [collectURLs list_to_set].
  { now rewrite (left_id_L ∅ (∪)). }
  destruct (Hall x) as [Hne Hok]; [apply elem_of_cons; auto|].
  apply is_empty_false in Hne. rewrite Hne.
  destruct (validateCallbackURL url_Parse x) as [err|] eqn:Hx.
  { exfalso. apply Hok, validateCallbackURL_malformed. congruence. }
  rewrite IH; [f_equal|].
  { now rewrite (comm_L (∪) {[x]} (list_to_set urls)), <- (assoc_L (∪)). }
  intros u Hu. apply Hall, elem_of_cons. auto.
Qed.

(** C8, as amended. If the list has a malformed URL that is not the empty
    string, [SetUsageCallbackAllowlist] returns an error that wraps
    [ErrForbidden] and the manager it was given, for every manager and
    subject; the handler reports it as [InvalidArgument] to a caller
    authenticated by service token, and the manager is unchanged. *)
Theorem SetUsageCallback_rejects_malformed (m : Manager) (subject : string)
    (urls : list string) :
  (∃ u, u ∈ urls ∧ u ≠ "" ∧ malformed_url url_Parse u) →
  (∃ err, SetUsageCallbackAllowlist url_Parse m subject urls = (m, Some err)
          ∧ errors_Is err ErrForbidden = true)
  ∧ ∀ ctx : Context,
      MethodFromContext ctx = MethodServiceToken →
      SubjectFromContext ctx = subject → subject ≠ "" →
      ∃ msg, SetUsageCallback url_Parse ctx urls (Some m)
             = (Some m, inr {| code := InvalidArgument; message := msg |}).
Proof.
  intros Hbad.
  assert (Hm : ∃ err, SetUsageCallbackAllowlist url_Parse m subject urls = (m, Some err)
                      ∧ errors_Is err ErrForbidden = true).
  { unfold SetUsageCallbackAllowlist.
    destruct (Enabled m); cbn [negb]; [|eexists; split; reflexivity].
    destruct (is_empty subject); [eexists; split; reflexivity|].
    destruct (collectURLs_malformed urls Hbad ∅) as (err & -> & Hf). eauto. }
  split; [exact Hm|].
  intros ctx Hmeth Hsubj Hne. destruct Hm as (err & Hset & Hf).
  unfold SetUsageCallback. rewrite Hmeth, Hsubj. cbn [String.eqb negb].
  rewrite String.eqb_refl. cbn [negb].
  apply is_empty_false in Hne. rewrite Hne, Hset, Hf. eauto.
Qed.

(** C9. For a caller authenticated by service token with a non-empty
    subject, on an enabled manager: [SetUsageCallback] with a list of valid
    URLs and a following [GetUsageCallback] both return the same list, which
    is sorted, has no duplicates and has exactly the URLs of the input; when
    the input is empty the list is empty and the map has no entry for the
    subject, and otherwise the entry is the set of the URLs. *)
Theorem allowlist_set_then_get (m : Manager) (ctx : Context) (urls : list string) :
  malformed_url url_Parse "" →
  Enabled m = true →
  MethodFromContext ctx = MethodServiceToken →
  SubjectFromContext ctx ≠ "" →
  (∀ u, u ∈ urls → ¬ malformed_url url_Parse u) →
  ∃ (m' : Manager) (l : list string),
    SetUsageCallback url_Parse ctx urls (Some m) = (Some m', inl l)
    ∧ GetUsageCallback ctx (Some m') = (Some m', inl l)
    ∧ Sorted String.le l ∧ NoDup l ∧ (∀ u, u ∈ l ↔ u ∈ urls)
    ∧ (urls = [] → l = [] ∧ usageCallbackAllowlist m' !! SubjectFromContext ctx = None)
    ∧ (urls ≠ [] →
         usageCallbackAllowlist m' !! SubjectFromContext ctx = Some (list_to_set urls)).
Proof.
  intros Hempty He Hmeth Hsubj Hall.
  assert (Hall' : ∀ u, u ∈ urls → u ≠ "" ∧ ¬ malformed_url url_Parse u).
  { intros u Hu. split; [|now apply Hall]. intros ->. now apply (Hall "" Hu). }
  set (subj := SubjectFromContext ctx) in *.
  assert (Hsub := Hsubj). apply is_empty_false in Hsub.
  assert (Hget : ∀ m', GetUsageCallback ctx (Some m')
                       = (Some m', inl (UsageCallbackAllowlist m' subj))).
  { intros m'. unfold GetUsageCallback. rewrite Hmeth. cbn [negb].
    rewrite String.eqb_refl. cbn [negb]. fold subj. now rewrite Hsub. }
  assert (Hset : ∀ m', SetUsageCallbackAllowlist url_Parse m subj urls = (m', None) →
                       SetUsageCallback url_Parse ctx urls (Some m)
                       = (Some m', inl (UsageCallbackAllowlist m' subj))).
  { intros m' Hm'. unfold SetUsageCallback. rewrite Hmeth. cbn [negb].
    rewrite String.eqb_refl. cbn [negb]. fold subj. now rewrite Hsub, Hm'. }
  unfold SetUsageCallbackAllowlist in Hset. rewrite He, Hsub in Hset. cbn [negb] in Hset.
  rewrite (collectURLs_valid urls Hall' ∅), (right_id_L ∅ (∪)) in Hset.
  destruct urls as [|x urls].
  - exists (set_allowlist m (delete subj (usageCallbackAllowlist m))), [].
    assert (Hl : UsageCallbackAllowlist
                   (set_allowlist m (delete subj (usageCallbackAllowlist m))) subj = []).
    { unfold UsageCallbackAllowlist, Enabled. cbn [enabled set_allowlist usageCallbackAllowlist].
      unfold Enabled in He. rewrite He, Hsub. cbn [negb]. now rewrite lookup_delete_eq. }
    pose proof (Hset _ eq_refl) as Hs. pose proof (Hget (set_allowlist m
      (delete subj (usageCallbackAllowlist m)))) as Hg. rewrite Hl in Hs, Hg.
    split; [exact Hs|]. split; [exact Hg|].
    split; [constructor|]. split; [constructor|]. split; [reflexivity|].
    split; [|congruence]. intros _. split; [reflexivity|].
    cbn [set_allowlist usageCallbackAllowlist]. apply lookup_delete_eq.
  - set (s := list_to_set (x :: urls) : gset string) in *.
    assert (Hsize : (size s =? 0)%nat = false).
    { apply Nat.eqb_neq. intros Hz. apply size_empty_inv in Hz.
      apply (not_elem_of_empty (C := gset string) x), Hz.
      subst s. apply elem_of_list_to_set, elem_of_cons. now left. }
    rewrite Hsize in Hset.
    set (m' := set_allowlist m (<[subj := s]> (usageCallbackAllowlist m))) in *.
    assert (Hl : UsageCallbackAllowlist m' subj = merge_sort String.le (elements s)).
    { unfold UsageCallbackAllowlist, Enabled. subst m'.
      cbn [enabled set_allowlist usageCallbackAllowlist].
      unfold Enabled in He. rewrite He, Hsub. cbn [negb].
      now rewrite lookup_insert_eq, Hsize. }
    exists m', (merge_sort String.le (elements s)).
    pose proof (Hset _ eq_refl) as Hs. pose proof (Hget m') as Hg. rewrite Hl in Hs, Hg.
    split; [exact Hs|]. split; [exact Hg|].
    split; [apply Sorted_merge_sort; apply _|].
    split; [rewrite merge_sort_Permutation; apply NoDup_elements|].
    split; [|split; [discriminate|]].
    + intros u. rewrite merge_sort_Permutation, elem_of_elements. subst s.
      apply elem_of_list_to_set.
    + intros _. subst m'. cbn [set_allowlist usageCallbackAllowlist].
      apply lookup_insert_eq.
Qed.

End AllowlistProperties.

Lemma SetUsageCallback_rejects_malformed_witness :
  (∃ u, u ∈ ["https://example.com/cb"; "ftp://x"] ∧ u ≠ "" ∧ malformed_url url_ref.Parse u)
  ∧ ∃ err, SetUsageCallbackAllowlist url_ref.Parse demo_mgr "svc"
             ["https://example.com/cb"; "ftp://x"] = (demo_mgr, Some err)
           ∧ errors_Is err ErrForbidden = true.
Proof.
  assert (Hbad : ∃ u, u ∈ ["https://example.com/cb"; "ftp://x"] ∧ u ≠ ""
                      ∧ malformed_url url_ref.Parse u).
  { exists "ftp://x". split; [apply elem_of_cons; right; apply elem_of_cons; left; reflexivity|].
    split; [discriminate|]. vm_compute. left. split; discriminate. }
  split; [exact Hbad|].
  exact (proj1 (SetUsageCallback_rejects_malformed url_ref.Parse demo_mgr "svc" _ Hbad)).
Defined.

(** C8, as stated, fails: the empty string is malformed (no scheme, no
    host), yet a list that holds it next to a valid URL is accepted, and the
    valid URL is registered. *)
Lemma SetUsageCallback_accepts_empty_string :
  malformed_url url_ref.Parse ""
  ∧ "" ∈ [""; "https://example.com/cb"]
  ∧ SetUsageCallback url_ref.Parse (service_token_ctx "svc" ∅)
      [""; "https://example.com/cb"] (Some demo_mgr)
    = (Some (with_svc_urls demo_mgr ["https://example.com/cb"]),
       inl ["https://example.com/cb"])
  ∧ usageCallbackAllowlist demo_mgr !! "svc" = None
  ∧ usageCallbackAllowlist (with_svc_urls demo_mgr ["https://example.com/cb"]) !! "svc"
    = Some {["https://example.com/cb"]}.
Proof.
  split; [vm_compute; left; split; discriminate|].
  split; [apply elem_of_cons; left; reflexivity|].
  split; [vm_compute; reflexivity|]. split; vm_compute; reflexivity.
Qed.

Lemma allowlist_set_then_get_witness :
  ∃ (m' : Manager) (l : list string),
    SetUsageCallback url_ref.Parse (service_token_ctx "svc" ∅) demo_urls (Some demo_mgr)
    = (Some m', inl l)
    ∧ GetUsageCallback (service_token_ctx "svc" ∅) (Some m') = (Some m', inl l)
    ∧ Sorted String.le l ∧ NoDup l ∧ (∀ u, u ∈ l ↔ u ∈ demo_urls).
Proof.
  assert (Hempty : malformed_url url_ref.Parse "") by (vm_compute; left; split; discriminate).
  assert (He : Enabled demo_mgr = true) by reflexivity.
  assert (Hmeth : MethodFromContext (service_token_ctx "svc" ∅) = MethodServiceToken)
    by reflexivity.
  assert (Hsubj : SubjectFromContext (service_token_ctx "svc" ∅) ≠ "") by discriminate.
  assert (Hall : ∀ u, u ∈ demo_urls → ¬ malformed_url url_ref.Parse u).
  { intros u Hu. unfold demo_urls in Hu. rewrite !elem_of_cons, elem_of_nil in Hu.
    destruct Hu as [->|[->|[->|[]]]]; vm_compute; intros [[H1 H2]|H];
      solve [apply H1; reflexivity | apply H2; reflexivity | discriminate H]. }
  destruct (allowlist_set_then_get url_ref.Parse demo_mgr (service_token_ctx "svc" ∅)
              demo_urls Hempty He Hmeth Hsubj Hall)
    as (m' & l & Hs & Hg & Hsorted & Hnodup & Hmem & _).
  exists m', l. exact (conj Hs (conj Hg (conj Hsorted (conj Hnodup Hmem)))).
Defined.

(** The example of the specification: set one URL, read it back; set the
    empty list, read the empty list, and the entry of the subject is gone. *)
Example allowlist_example :
  let ctx := service_token_ctx "svc" ∅ in
  let m1 := with_svc_urls demo_mgr ["https://example.com/cb"] in
  let m2 := without_svc m1 in
  SetUsageCallback url_ref.Parse ctx ["https://example.com/cb"] (Some demo_mgr)
  = (Some m1, inl ["https://example.com/cb"])
  ∧ GetUsageCallback ctx (Some m1) = (Some m1, inl ["https://example.com/cb"])
  ∧ SetUsageCallback url_ref.Parse ctx [] (Some m1) = (Some m2, inl [])
  ∧ GetUsageCallback ctx (Some m2) = (Some m2, inl [])
  ∧ usageCallbackAllowlist m2 !! "svc" = None.
Proof. vm_compute. repeat split. Qed.

(** A sorted read-back: the duplicates of [demo_urls] are gone and the URLs
    are in bytewise order. *)
Example allowlist_sorted_example :
  snd (SetUsageCallback url_ref.Parse (service_token_ctx "svc" ∅) demo_urls (Some demo_mgr))
  = inl ["http://a.example:8080/x"; "https://example.com/cb"].
Proof. vm_compute. reflexivity. Qed.

(** * Further properties of the code *)

(** ** Service tokens (manager.go) *)

Lemma tokenMap_lookup (l : list ServiceToken) :
  ∀ (st : gmap string ServiceToken) (k : string),
    tokenMap l st !! k
    = match last_match l k with
      | Some t => Some t
      | None => st !! k
      end.
Proof.
  induction l as [|t rest IH]; intros st k; [reflexivity|].
  cbn [tokenMap last_match].
  destruct (is_empty (Token t)) eqn:Et; cbn [negb andb].
  - rewrite IH. now destruct (last_match rest k).
  - rewrite IH. destruct (last_match rest k); [reflexivity|].
    rewrite lookup_insert.
    destruct (String.eqb_spec (Token t) k) as [E|E]; case_decide; congruence.
Qed.

Lemma last_match_Some (l : list ServiceToken) (k : string) (t : ServiceToken) :
  last_match l k = Some t → t ∈ l ∧ Token t = k ∧ k ≠ "".
Proof.
  induction l as [|x rest IH]; [discriminate|]. cbn [last_match].
  destruct (last_match rest k) as [u|].
  - intros [= ->]. destruct (IH eq_refl) as (Hin & Hk & Hne).
    split; [apply elem_of_cons; auto | auto].
  - destruct (is_empty (Token x)) eqn:Ex; cbn [negb andb]; [discriminate|].
    destruct (String.eqb_spec (Token x) k) as [E|E]; [|discriminate].
    intros [= ->]. split; [apply elem_of_cons; auto|]. split; [exact E|].
    apply is_empty_false in Ex. congruence.
Qed.

Lemma last_match_None (l : list ServiceToken) (k : string) :
  last_match l k = None → ∀ t, t ∈ l → Token t = k → k = "".
Proof.
  induction l as [|x rest IH]; intros Hn t Hin Hk; [now apply elem_of_nil in Hin|].
  cbn [last_match] in Hn. destruct (last_match rest k) as [u|]; [discriminate|].
  apply elem_of_cons in Hin as [->|Hin]; [|now apply (IH eq_refl t)].
  destruct (is_empty (Token x)) eqn:Ex; cbn [negb andb] in Hn.
  - apply is_empty_true in Ex. congruence.
  - rewrite <- Hk, String.eqb_refl in Hn. discriminate.
Qed.

(** X1. A manager built by [NewManager] is enabled exactly when the list has
    a token that is not empty; its TTL is the given one when that is
    positive and 15 minutes otherwise, and both stores start empty. *)
Theorem NewManager_enabled_iff (tokens : list ServiceToken) (ttl : time.Duration) :
  (Enabled (NewManager tokens ttl) = true ↔ ∃ t, t ∈ tokens ∧ Token t ≠ "")
  ∧ 0 < tempTTL (NewManager tokens ttl)
  ∧ (0 < ttl → tempTTL (NewManager tokens ttl) = ttl)
  ∧ (ttl ≤ 0 → tempTTL (NewManager tokens ttl) = 15 * time.Minute)
  ∧ temps (NewManager tokens ttl) = ∅
  ∧ usageCallbackAllowlist (NewManager tokens ttl) = ∅.
Proof.
  split.
  - unfold Enabled, NewManager. cbn [enabled]. rewrite Nat.ltb_lt. split.
    + intros Hs.
      destruct (map_choose (tokenMap tokens ∅)) as (k & t & Hk).
      { intros E. rewrite E, map_size_empty in Hs. lia. }
      rewrite tokenMap_lookup in Hk.
      destruct (last_match tokens k) as [u|] eqn:Hl; [|now rewrite lookup_empty in Hk].
      apply last_match_Some in Hl as (Hin & Htok & Hne). exists u. split; congruence.
    + intros (t & Hin & Hne).
      assert (Hl : is_Some (tokenMap tokens ∅ !! Token t)).
      { rewrite tokenMap_lookup. destruct (last_match tokens (Token t)) eqn:Hl; [eauto|].
        exfalso. apply Hne. now apply (last_match_None _ _ Hl t). }
      destruct Hl as [u Hu].
      destruct (decide (size (tokenMap tokens ∅) = 0%nat)) as [Hz|Hz]; [|lia].
      apply map_size_empty_inv in Hz. rewrite Hz, lookup_empty in Hu. discriminate.
  - unfold NewManager. cbn [tempTTL temps usageCallbackAllowlist].
    destruct (Z.leb_spec ttl 0); repeat split; try reflexivity; try lia;
      intros; vm_compute; reflexivity.
Qed.

(** X2. On a manager built by [NewManager] from a list with a non-empty
    token, [AuthenticateServiceToken] accepts exactly the non-empty tokens of
    the list; the subject is that of the last entry with the token, and it is
    never empty. Every other token is rejected with an empty subject. *)
Theorem AuthenticateServiceToken_NewManager (tokens : list ServiceToken)
    (ttl : time.Duration) (tok : string) :
  Enabled (NewManager tokens ttl) = true →
  AuthenticateServiceToken (NewManager tokens ttl) tok
  = match last_match tokens tok with
    | Some t => (subject_of t, true)
    | None => ("", false)
    end
  ∧ (snd (AuthenticateServiceToken (NewManager tokens ttl) tok) = true
     ↔ tok ≠ "" ∧ ∃ t, t ∈ tokens ∧ Token t = tok)
  ∧ (snd (AuthenticateServiceToken (NewManager tokens ttl) tok) = true →
     fst (AuthenticateServiceToken (NewManager tokens ttl) tok) ≠ "").
Proof.
  intros He.
  assert (Heq : AuthenticateServiceToken (NewManager tokens ttl) tok
                = match last_match tokens tok with
                  | Some t => (subject_of t, true)
                  | None => ("", false)
                  end).
  { unfold AuthenticateServiceToken. rewrite He. cbn [negb].
    destruct (is_empty tok) eqn:Et.
    - apply is_empty_true in Et. subst tok.
      destruct (last_match tokens "") as [u|] eqn:Hl; [|reflexivity].
      now apply last_match_Some in Hl as (_ & _ & Hne).
    - change (serviceTokens (NewManager tokens ttl)) with (tokenMap tokens ∅).
      rewrite tokenMap_lookup, lookup_empty.
      destruct (last_match tokens tok) as [u|]; [|reflexivity].
      unfold subject_of. now destruct (is_empty (Name u)). }
  split; [exact Heq|]. rewrite Heq.
  destruct (last_match tokens tok) as [u|] eqn:Hl; cbn [fst snd].
  - apply last_match_Some in Hl as (Hin & Htok & Hne). split.
    + split; [intros _; split; [exact Hne | eauto] | reflexivity].
    + intros _. unfold subject_of. destruct (is_empty (Name u)) eqn:En; [discriminate|].
      now apply is_empty_false.
  - split; [|discriminate]. split; [discriminate|].
    intros (Hne & t & Hin & Htok). exfalso. apply Hne.
    now apply (last_match_None _ _ Hl t).
Qed.

Lemma AuthenticateServiceToken_NewManager_witness :
  Enabled (NewManager demo_tokens 0) = true
  ∧ AuthenticateServiceToken (NewManager demo_tokens 0) "tok-1" = ("svc", true)
  ∧ AuthenticateServiceToken (NewManager demo_tokens 0) "tok-2" = ("", false).
Proof.
  assert (He : Enabled (NewManager demo_tokens 0) = true) by reflexivity.
  split; [exact He|]. split.
  - exact (proj1 (AuthenticateServiceToken_NewManager demo_tokens 0 "tok-1" He)).
  - exact (proj1 (AuthenticateServiceToken_NewManager demo_tokens 0 "tok-2" He)).
Defined.

(** ** Issuance (manager.go) *)

Lemma hex_EncodeToString_length (b : list byte) :
  String.length (hex.EncodeToString b) = (2 * length b)%nat.
Proof. induction b as [|v b IH]; [reflexivity|]. cbn [hex.EncodeToString String.length length]. lia. Qed.

Lemma hex_EncodeToString_inj (a b : list byte) :
  hex.EncodeToString a = hex.EncodeToString b → a = b.
Proof.
  intros E. pose proof (hex_Decode_Encode a) as Ha. rewrite E, hex_Decode_Encode in Ha.
  congruence.
Qed.

Lemma hexdigit_lower (v : byte) :
  In (hex.hexdigit (Z.shiftr (Z_of_byte v) 4)) (list_ascii_of_string hex.hextable)
  ∧ In (hex.hexdigit (Z.land (Z_of_byte v) 15)) (list_ascii_of_string hex.hextable).
Proof. destruct v; vm_compute; split; tauto. Qed.

Lemma hex_EncodeToString_lower (b : list byte) : lower_hex (hex.EncodeToString b).
Proof.
  unfold lower_hex. induction b as [|v b IH]; [constructor|].
  cbn [hex.EncodeToString list_ascii_of_string].
  destruct (hexdigit_lower v) as [Hhi Hlo].
  constructor; [exact Hhi|]. constructor; [exact Hlo | exact IH].
Qed.

(** The unpadded base64 text of [n] bytes has [(4n + 2) / 3] characters. *)
Lemma base64_length_le (n : nat) :
  ∀ b : list byte, (length b ≤ n)%nat →
    String.length (base64.RawURLEncodeToString b) = ((4 * length b + 2) / 3)%nat.
Proof.
  induction n as [|n IH]; intros b Hb.
  { destruct b; [reflexivity | cbn in Hb; lia]. }
  destruct b as [|b0 [|b1 [|b2 rest]]]; try reflexivity.
  cbn [base64.RawURLEncodeToString String.length length] in *.
  rewrite IH by lia.
  replace (4 * S (S (S (length rest))) + 2)%nat with ((4 * length rest + 2) + 4 * 3)%nat by lia.
  rewrite Nat.div_add by lia. lia.
Qed.

Lemma base64_length (b : list byte) :
  String.length (base64.RawURLEncodeToString b) = ((4 * length b + 2) / 3)%nat.
Proof. now apply (base64_length_le (length b)). Qed.

Lemma rand_Read_tape (tape b tape' : list byte) (n : nat) :
  rand_Read tape n = inl (b, tape') → tape = b ++ tape' ∧ length b = n.
Proof.
  unfold rand_Read. destruct (Nat.leb_spec n (length tape)) as [H|H]; [|discriminate].
  intros [= <- <-]. rewrite firstn_skipn, length_firstn. split; [reflexivity | lia].
Qed.

(** A failed issuance returns the manager it was given. *)
Lemma IssueTemporaryCredentials_failure_unchanged (m m' : Manager) (tape tape' : list byte)
    (tok : string) (T : time.Time) (err : error) :
  IssueTemporaryCredentials m tape tok T = (m', tape', inr err) → m' = m.
Proof.
  unfold IssueTemporaryCredentials.
  destruct (Enabled m); cbn [negb]; [|now intros [= <- _ _]].
  destruct (AuthenticateServiceToken m tok) as [subj ok]. destruct ok; cbn [negb];
    [|now intros [= <- _ _]].
  destruct (randHex tape 16) as [[akid tape1]|e1]; [|now intros [= <- _ _]].
  destruct (randB64 tape1 32) as [[sec tape2]|e2]; [discriminate | now intros [= <- _ _]].
Qed.

(** The random bytes behind the two strings of a credential. *)
Lemma IssueTemporaryCredentials_bytes (m m' : Manager) (tape tape' : list byte)
    (tok : string) (T : time.Time) (creds : TemporaryCredentials) :
  IssueTemporaryCredentials m tape tok T = (m', tape', inl creds) →
  ∃ b1 b2 : list byte,
    tape = b1 ++ b2 ++ tape' ∧ length b1 = 16%nat ∧ length b2 = 32%nat
    ∧ AccessKeyID creds = hex.EncodeToString b1
    ∧ AccessKeySecret creds = base64.RawURLEncodeToString b2
    ∧ AuthenticateServiceToken m tok = (Subject creds, true).
Proof.
  unfold IssueTemporaryCredentials.
  destruct (Enabled m) eqn:He; cbn [negb]; [|discriminate].
  destruct (AuthenticateServiceToken m tok) as [subj ok]. destruct ok; cbn [negb]; [|discriminate].
  unfold randHex, randB64.
  destruct (rand_Read tape 16) as [[b1 tape1]|e1] eqn:H1; [|discriminate].
  destruct (rand_Read tape1 32) as [[b2 tape2]|e2] eqn:H2; [|discriminate].
  intros [= <- <- <-]. cbn [AccessKeyID AccessKeySecret Subject].
  apply rand_Read_tape in H1 as [-> Hl1]. apply rand_Read_tape in H2 as [-> Hl2].
  exists b1, b2. repeat split; assumption.
Qed.

(** X3. A failed issuance changes nothing: the manager is the one given.
    When auth is disabled the error wraps [ErrForbidden]; with auth enabled
    and a token that does not authenticate it is [ErrUnauthenticated] and no
    random byte is read. *)
Theorem IssueTemporaryCredentials_failure (m m' : Manager) (tape tape' : list byte)
    (tok : string) (T : time.Time) (err : error) :
  IssueTemporaryCredentials m tape tok T = (m', tape', inr err) →
  m' = m
  ∧ (Enabled m = false → errors_Is err ErrForbidden = true ∧ tape' = tape)
  ∧ (Enabled m = true → snd (AuthenticateServiceToken m tok) = false →
     err = ErrUnauthenticated ∧ tape' = tape).
Proof.
  unfold IssueTemporaryCredentials.
  destruct (Enabled m) eqn:He; cbn [negb].
  2:{ intros [= <- <- <-]. repeat split; discriminate. }
  destruct (AuthenticateServiceToken m tok) as [subj ok]. destruct ok; cbn [negb snd].
  2:{ intros [= <- <- <-]. repeat split; discriminate. }
  destruct (randHex tape 16) as [[akid tape1]|e1].
  2:{ intros [= <- <- <-]. repeat split; discriminate. }
  destruct (randB64 tape1 32) as [[sec tape2]|e2]; [discriminate|].
  intros [= <- <- <-]. repeat split; discriminate.
Qed.

Lemma IssueTemporaryCredentials_failure_witness :
  IssueTemporaryCredentials demo_mgr0 demo_tape "wrong" demo_T
  = (demo_mgr0, demo_tape, inr ErrUnauthenticated)
  ∧ IssueTemporaryCredentials demo_mgr0 [] "tok-1" demo_T
    = (demo_mgr0, [], inr (errors_New "crypto/rand: read failed"))
  ∧ (ErrUnauthenticated = ErrUnauthenticated ∧ demo_tape = demo_tape).
Proof.
  assert (H1 : IssueTemporaryCredentials demo_mgr0 demo_tape "wrong" demo_T
               = (demo_mgr0, demo_tape, inr ErrUnauthenticated)) by (vm_compute; reflexivity).
  assert (H2 : IssueTemporaryCredentials demo_mgr0 [] "tok-1" demo_T
               = (demo_mgr0, [], inr (errors_New "crypto/rand: read failed")))
    by (vm_compute; reflexivity).
  assert (He : Enabled demo_mgr0 = true) by (vm_compute; reflexivity).
  assert (Ha : snd (AuthenticateServiceToken demo_mgr0 "wrong") = false)
    by (vm_compute; reflexivity).
  split; [exact H1|]. split; [exact H2|].
  exact (proj2 (proj2 (IssueTemporaryCredentials_failure _ _ _ _ _ _ _ H1)) He Ha).
Defined.

(** X4. A successful issuance reads 48 random bytes, 16 for the access key
    and 32 for the secret: the access key is the lower-case hexadecimal text
    of the first 16 (32 characters), the secret the unpadded URL-safe base64
    text of the next 32 (43 characters). The subject is the one the service
    token authenticates as. *)
Theorem IssueTemporaryCredentials_shape (m m' : Manager) (tape tape' : list byte)
    (tok : string) (T : time.Time) (creds : TemporaryCredentials) :
  IssueTemporaryCredentials m tape tok T = (m', tape', inl creds) →
  ∃ b1 b2 : list byte,
    tape = b1 ++ b2 ++ tape' ∧ length b1 = 16%nat ∧ length b2 = 32%nat
    ∧ AccessKeyID creds = hex.EncodeToString b1
    ∧ AccessKeySecret creds = base64.RawURLEncodeToString b2
    ∧ String.length (AccessKeyID creds) = 32%nat
    ∧ lower_hex (AccessKeyID creds)
    ∧ String.length (AccessKeySecret creds) = 43%nat
    ∧ AuthenticateServiceToken m tok = (Subject creds, true).
Proof.
  intros Hissue.
  destruct (IssueTemporaryCredentials_bytes _ _ _ _ _ _ _ Hissue)
    as (b1 & b2 & Ht & Hl1 & Hl2 & Ha & Hs & Hauth).
  exists b1, b2. rewrite Ha, Hs, hex_EncodeToString_length, base64_length, Hl1, Hl2.
  repeat split; try assumption; try reflexivity. apply hex_EncodeToString_lower.
Qed.

Lemma IssueTemporaryCredentials_shape_witness :
  ∃ b1 b2 : list byte,
    demo_tape = b1 ++ b2 ++ [] ∧ AccessKeyID demo_creds = hex.EncodeToString b1
    ∧ AccessKeySecret demo_creds = base64.RawURLEncodeToString b2.
Proof.
  assert (Hissue :
    IssueTemporaryCredentials demo_mgr0 demo_tape "tok-1" demo_T
    = (demo_mgr, [], inl demo_creds)) by (vm_compute; reflexivity).
  destruct (IssueTemporaryCredentials_shape _ _ _ _ _ _ _ Hissue)
    as (b1 & b2 & Ht & _ & _ & Ha & Hs & _).
  exists b1, b2. exact (conj Ht (conj Ha Hs)).
Defined.

(** X5. A successful issuance changes the credential store at the new
    access key only: the flags, the tokens, the TTL and the allowlist are
    unchanged, every other record is as before, and a request for another
    access key is verified as before. *)
Theorem IssueTemporaryCredentials_frame (m m' : Manager) (tape tape' : list byte)
    (tok : string) (T : time.Time) (creds : TemporaryCredentials) :
  IssueTemporaryCredentials m tape tok T = (m', tape', inl creds) →
  enabled m' = enabled m ∧ serviceTokens m' = serviceTokens m ∧ tempTTL m' = tempTTL m
  ∧ usageCallbackAllowlist m' = usageCallbackAllowlist m
  ∧ (∀ k : string, k ≠ AccessKeyID creds → temps m' !! k = temps m !! k)
  ∧ (∀ (i : SignatureInput) (now : time.Time),
       in_AccessKeyID i ≠ AccessKeyID creds →
       AuthenticateSignature m' i now = AuthenticateSignature m i now)
  ∧ (∀ token : string, AuthenticateServiceToken m' token = AuthenticateServiceToken m token).
Proof.
  intros Hissue.
  assert (Hm' : m' = set_temps m (<[AccessKeyID creds :=
                   {| secret := AccessKeySecret creds; expiresAt := ExpiresAt creds;
                      subject := Subject creds |}]> (temps m))).
  { revert Hissue. unfold IssueTemporaryCredentials.
    destruct (Enabled m); cbn [negb]; [|discriminate].
    destruct (AuthenticateServiceToken m tok) as [subj ok]. destruct ok; cbn [negb]; [|discriminate].
    destruct (randHex tape 16) as [[akid tape1]|e1]; [|discriminate].
    destruct (randB64 tape1 32) as [[sec tape2]|e2]; [|discriminate].
    now intros [= <- <- <-]. }
  subst m'. cbn [set_temps enabled serviceTokens tempTTL usageCallbackAllowlist temps].
  repeat split.
  - intros k Hk. now apply lookup_insert_ne.
  - intros i now Hk. unfold AuthenticateSignature, Enabled.
    cbn [set_temps enabled temps]. now rewrite lookup_insert_ne.
Qed.

Lemma IssueTemporaryCredentials_frame_witness :
  usageCallbackAllowlist demo_mgr = usageCallbackAllowlist demo_mgr0
  ∧ temps demo_mgr !! "ffff" = temps demo_mgr0 !! "ffff".
Proof.
  assert (Hissue :
    IssueTemporaryCredentials demo_mgr0 demo_tape "tok-1" demo_T
    = (demo_mgr, [], inl demo_creds)) by (vm_compute; reflexivity).
  destruct (IssueTemporaryCredentials_frame _ _ _ _ _ _ _ Hissue)
    as (_ & _ & _ & Hal & Hk & _).
  split; [exact Hal|]. apply Hk. discriminate.
Defined.

(** X6. Two issuances in a row whose 16 random bytes for the access key
    differ give two different access keys, and the record of the first
    credential is still in the store after the second, so that both
    credentials are live. *)
Theorem IssueTemporaryCredentials_twice (m m1 m2 : Manager) (tape tape1 tape2 : list byte)
    (tok1 tok2 : string) (T1 T2 : time.Time) (c1 c2 : TemporaryCredentials) :
  IssueTemporaryCredentials m tape tok1 T1 = (m1, tape1, inl c1) →
  IssueTemporaryCredentials m1 tape1 tok2 T2 = (m2, tape2, inl c2) →
  firstn 16 tape ≠ firstn 16 tape1 →
  AccessKeyID c1 ≠ AccessKeyID c2
  ∧ temps m2 !! AccessKeyID c1
    = Some {| secret := AccessKeySecret c1; expiresAt := ExpiresAt c1; subject := Subject c1 |}
  ∧ temps m2 !! AccessKeyID c2
    = Some {| secret := AccessKeySecret c2; expiresAt := ExpiresAt c2; subject := Subject c2 |}.
Proof.
  intros H1 H2 Hrand.
  destruct (IssueTemporaryCredentials_bytes _ _ _ _ _ _ _ H1)
    as (a1 & a2 & Ht1 & Hl1 & _ & Hk1 & _).
  destruct (IssueTemporaryCredentials_bytes _ _ _ _ _ _ _ H2)
    as (b1 & b2 & Ht2 & Hl2 & _ & Hk2 & _).
  assert (Hne : AccessKeyID c1 ≠ AccessKeyID c2).
  { rewrite Hk1, Hk2. intros E. apply hex_EncodeToString_inj in E. apply Hrand.
    assert (F1 : firstn 16 tape = a1) by (rewrite Ht1, <- Hl1; apply take_app_length).
    assert (F2 : firstn 16 tape1 = b1) by (rewrite Ht2, <- Hl2; apply take_app_length).
    congruence. }
  destruct (IssueTemporaryCredentials_inv _ _ _ _ _ _ _ H1) as (_ & _ & _ & _ & _ & Hs1).
  destruct (IssueTemporaryCredentials_inv _ _ _ _ _ _ _ H2) as (_ & _ & _ & _ & _ & Hs2).
  split; [exact Hne|]. rewrite Hs2. split.
  - rewrite lookup_insert_ne by congruence. rewrite Hs1. apply lookup_insert_eq.
  - apply lookup_insert_eq.
Qed.

Lemma IssueTemporaryCredentials_twice_witness :
  AccessKeyID demo_creds ≠ AccessKeyID demo_creds2
  ∧ temps demo_mgr2 !! AccessKeyID demo_creds
    = Some {| secret := demo_secret; expiresAt := demo_T + 15 * time.Minute; subject := "svc" |}.
Proof.
  assert (H1 : IssueTemporaryCredentials demo_mgr0 demo_tape96 "tok-1" demo_T
               = (demo_mgr, demo_tape_rest, inl demo_creds)) by (vm_compute; reflexivity).
  assert (H2 : IssueTemporaryCredentials demo_mgr demo_tape_rest "tok-1" demo_T2
               = (demo_mgr2, [], inl demo_creds2)) by (vm_compute; reflexivity).
  assert (Hr : firstn 16 demo_tape96 ≠ firstn 16 demo_tape_rest) by (vm_compute; discriminate).
  destruct (IssueTemporaryCredentials_twice _ _ _ _ _ _ _ _ _ _ _ _ H1 H2 Hr) as (Hne & Hk1 & _).
  exact (conj Hne Hk1).
Defined.

(** ** Signature verification (manager.go) *)

(** The result depends on the input through five values only. *)
Lemma AuthenticateSignature_ext (m : Manager) (i j : SignatureInput) (now : time.Time) :
  in_AccessKeyID i = in_AccessKeyID j → in_Signature i = in_Signature j →
  in_Timestamp i = in_Timestamp j → in_Nonce i = in_Nonce j →
  canonicalString i = canonicalString j →
  AuthenticateSignature m i now = AuthenticateSignature m j now.
Proof.
  intros Ha Hs Ht Hn Hc. unfold AuthenticateSignature. now rewrite Ha, Hs, Ht, Hn, Hc.
Qed.

(** X7. Verification keeps no trace of a request: an input that verifies at
    one time verifies again, for the same subject, at every other time that
    is within five minutes of its timestamp and not after the expiry of the
    record. *)
Theorem AuthenticateSignature_replay (m : Manager) (i : SignatureInput)
    (now now' : time.Time) (s : string) (rec : tempRecord) :
  Enabled m = true →
  AuthenticateSignature m i now = (s, true) →
  temps m !! in_AccessKeyID i = Some rec →
  now' - 5 * time.Minute ≤ time.Unix (in_Timestamp i) 0 ≤ now' + 5 * time.Minute →
  now' ≤ expiresAt rec →
  AuthenticateSignature m i now' = (s, true).
Proof.
  intros He Hok Hrec Hfresh Hexp.
  apply AuthenticateSignature_true_inv in Hok; [|exact He].
  destruct Hok as (Ha & Hs & Hn & Ht & _ & r & Hr & _ & Hd & ->).
  assert (r = rec) by congruence. subst r.
  destruct (AuthenticateSignature_cases m i now' He) as [(s' & Hv & Hres)|(Hno & _)].
  - rewrite Hres. f_equal. destruct Hv as (_ & _ & _ & _ & _ & r & Hr' & _ & _ & ->).
    congruence.
  - exfalso. apply (Hno (subject rec)). unfold verifies.
    repeat (split; [assumption|]). exists rec. repeat split; assumption.
Qed.

Lemma AuthenticateSignature_replay_witness :
  AuthenticateSignature demo_mgr demo_signed (demo_now + 30 * time.Second) = ("svc", true).
Proof.
  assert (He : Enabled demo_mgr = true) by reflexivity.
  assert (Hok : AuthenticateSignature demo_mgr demo_signed demo_now = ("svc", true))
    by (vm_compute; reflexivity).
  assert (Hrec : temps demo_mgr !! in_AccessKeyID demo_signed
                 = Some {| secret := demo_secret; expiresAt := demo_T + 15 * time.Minute;
                           subject := "svc" |}) by (vm_compute; reflexivity).
  apply (AuthenticateSignature_replay demo_mgr demo_signed demo_now _ "svc" _ He Hok Hrec);
    vm_compute; try split; discriminate.
Defined.

Lemma hex_Decode_length_le (n : nat) :
  ∀ (src b : list byte), (length src ≤ n)%nat →
    hex.Decode src = (b, None) → length src = (2 * length b)%nat.
Proof.
  induction n as [|n IH]; intros src b Hn.
  { destruct src; [now intros [= <-] | cbn in Hn; lia]. }
  destruct src as [|p [|q rest]].
  - now intros [= <-].
  - cbn [hex.Decode]. destruct (15 <? hex.reverseHexTable p); discriminate.
  - cbn [hex.Decode].
    destruct (15 <? hex.reverseHexTable p); [discriminate|].
    destruct (15 <? hex.reverseHexTable q); [discriminate|].
    destruct (hex.Decode rest) as [dst err] eqn:Hrest.
    intros [= <- ->]. cbn [length] in *. rewrite (IH rest dst); [lia | lia | exact Hrest].
Qed.

Lemma bytes_of_string_length (s : string) : length (bytes_of_string s) = String.length s.
Proof.
  unfold bytes_of_string, list_byte_of_string. rewrite length_map.
  induction s as [|c s IH]; [reflexivity|]. cbn. now rewrite IH.
Qed.

(** X8. With auth enabled, a signature that verifies has exactly 64
    characters: it decodes to the 32 bytes of an HMAC-SHA256 tag, so that a
    truncated or extended signature never verifies. *)
Theorem AuthenticateSignature_signature_length (m : Manager) (i : SignatureInput)
    (now : time.Time) (s : string) :
  Enabled m = true →
  AuthenticateSignature m i now = (s, true) →
  String.length (in_Signature i) = 64%nat.
Proof.
  intros He Hok. apply AuthenticateSignature_true_inv in Hok; [|exact He].
  destruct Hok as (_ & _ & _ & _ & _ & rec & _ & _ & Hd & _).
  unfold hex.DecodeString in Hd.
  rewrite <- bytes_of_string_length.
  rewrite (hex_Decode_length_le _ _ _ (le_n _) Hd), hmac_SumSHA256_length. reflexivity.
Qed.

Lemma AuthenticateSignature_signature_length_witness :
  String.length (in_Signature demo_signed) = 64%nat.
Proof.
  assert (He : Enabled demo_mgr = true) by reflexivity.
  assert (Hok : AuthenticateSignature demo_mgr demo_signed demo_now = ("svc", true))
    by (vm_compute; reflexivity).
  exact (AuthenticateSignature_signature_length demo_mgr demo_signed demo_now "svc" He Hok).
Defined.

(** ** The decision protocol (interceptors.go) *)

Lemma AuthenticateServiceToken_subject (m : Manager) (tok s : string) :
  Enabled m = true → AuthenticateServiceToken m tok = (s, true) → s ≠ "".
Proof.
  intros He. unfold AuthenticateServiceToken. rewrite He. cbn [negb].
  destruct (is_empty tok); [discriminate|].
  destruct (serviceTokens m !! tok) as [t|]; [|discriminate].
  destruct (is_empty (Name t)) eqn:En; cbn [negb]; intros [= <-]; [discriminate|].
  now apply is_empty_false.
Qed.

(** X9. With auth enabled, when the call carries the HTTP signing context in
    its metadata (method and path both non-empty) and no service token, the
    outcome of [authenticate] is the same for every gRPC method other than
    the issuance method: the method called is not covered by the signature. *)
Theorem authenticate_http_context_method_unbound (m : Manager) (ctx : Context)
    (fullMethod1 fullMethod2 : string) (now : time.Time) :
  service_token_of ctx = "" →
  first (MD_Get (incomingMD ctx) mdHTTPMethod) ≠ "" →
  first (MD_Get (incomingMD ctx) mdHTTPPath) ≠ "" →
  strings.HasSuffix fullMethod1 "/IssueTemporaryCredentials" = false →
  strings.HasSuffix fullMethod2 "/IssueTemporaryCredentials" = false →
  authenticate ctx m fullMethod1 now = authenticate ctx m fullMethod2 now.
Proof.
  unfold service_token_of. intros Htok Hm Hp H1 H2. unfold authenticate.
  rewrite Htok, H1, H2. cbn [is_empty negb].
  rewrite (AuthenticateSignature_ext m (signatureInputOf (incomingMD ctx) fullMethod1)
             (signatureInputOf (incomingMD ctx) fullMethod2) now); try reflexivity.
  unfold canonicalString, signatureInputOf.
  cbn [in_HTTPMethod in_HTTPPath in_HTTPQuery in_Timestamp in_Nonce in_BodySHA256
       in_CallbackURL in_GRPCFullMethod].
  apply is_empty_false in Hm, Hp. now rewrite Hm, Hp.
Qed.

Lemma authenticate_http_context_method_unbound_witness :
  authenticate (inbound demo_smuggled_md) demo_mgr
    "/llmgateway.v1.LLMGatewayService/CreateChatCompletion" demo_now
  = inl ("svc", MethodSignature)
  ∧ authenticate (inbound demo_smuggled_md) demo_mgr
      "/llmgateway.v1.LLMGatewayService/ListModels" demo_now
    = inl ("svc", MethodSignature).
Proof.
  assert (H1 : authenticate (inbound demo_smuggled_md) demo_mgr
                 "/llmgateway.v1.LLMGatewayService/ListModels" demo_now
               = inl ("svc", MethodSignature)) by (vm_compute; reflexivity).
  split; [|exact H1]. rewrite <- H1.
  apply authenticate_http_context_method_unbound; vm_compute; (reflexivity || discriminate).
Defined.


Lemma subjects_bound_NewManager (tokens : list ServiceToken) (ttl : time.Duration) :
  subjects_bound (NewManager tokens ttl).
Proof.
  intros k rec Hk. unfold NewManager in Hk. cbn [temps] in Hk.
  now rewrite lookup_empty in Hk.
Qed.

Lemma subjects_bound_Issue (m m' : Manager) (tape tape' : list byte) (tok : string)
    (T : time.Time) (r : TemporaryCredentials + error) :
  subjects_bound m →
  IssueTemporaryCredentials m tape tok T = (m', tape', r) →
  subjects_bound m'.
Proof.
  destruct r as [creds|err]; intros Hb Hissue.
  - destruct (IssueTemporaryCredentials_inv _ _ _ _ _ _ _ Hissue)
      as (He & Hauth & _ & _ & _ & Htemps).
    intros k rec Hk. rewrite Htemps in Hk.
    apply lookup_insert_Some in Hk as [[_ <-]|[_ Hk]]; [|now apply (Hb k)].
    cbn [subject]. now apply (AuthenticateServiceToken_subject m tok).
  - apply IssueTemporaryCredentials_failure_unchanged in Hissue as ->. exact Hb.
Qed.



(** X11. Every stored record is bound to a non-empty subject: this holds of
    every manager built by [NewManager], and [IssueTemporaryCredentials]
    keeps it, whether it succeeds or fails. *)
Theorem subjects_bound_invariant :
  (∀ (tokens : list ServiceToken) (ttl : time.Duration), subjects_bound (NewManager tokens ttl))
  ∧ (∀ (m m' : Manager) (tape tape' : list byte) (tok : string) (T : time.Time)
       (r : TemporaryCredentials + error),
       subjects_bound m →
       IssueTemporaryCredentials m tape tok T = (m', tape', r) →
       subjects_bound m').
Proof. split; [exact subjects_bound_NewManager | exact subjects_bound_Issue]. Qed.

(** ** The protected operations (llmgateway_service.go) *)

(** X12. A caller that the interceptor authenticated by signature cannot
    set or read the allowlist: both handlers answer [PermissionDenied],
    whatever the URLs, and the manager is unchanged. *)
Theorem usage_callback_rejects_signature_identity (url_Parse : string → url.URL + error)
    (m : Manager) (md : gmap string (list string)) (fullMethod : string) (now : time.Time)
    (s : string) (urls : list string) :
  Enabled m = true →
  authenticate (inbound md) m fullMethod now = inl (s, MethodSignature) →
  let denied := {| code := PermissionDenied; message := "service token required" |} in
  UnaryServerInterceptor (Some m) (inbound md) fullMethod now
    (fun ctx => SetUsageCallback url_Parse ctx urls) (Some m) = (Some m, inr denied)
  ∧ UnaryServerInterceptor (Some m) (inbound md) fullMethod now
      (fun ctx => GetUsageCallback ctx) (Some m) = (Some m, inr denied).
Proof.
  intros He Ha denied. unfold UnaryServerInterceptor. rewrite He, Ha. cbn [negb].
  assert (Hm : MethodFromContext (WithMethod (WithSubject (inbound md) s) MethodSignature)
               = MethodSignature).
  { unfold WithSubject. now destruct (is_empty s). }
  unfold SetUsageCallback, GetUsageCallback. rewrite Hm. split; reflexivity.
Qed.

Lemma usage_callback_rejects_signature_identity_witness :
  authenticate (inbound demo_set_callback_md) demo_mgr set_callback_method demo_now
  = inl ("svc", MethodSignature)
  ∧ UnaryServerInterceptor (Some demo_mgr) (inbound demo_set_callback_md) set_callback_method
      demo_now (fun ctx => SetUsageCallback url_ref.Parse ctx ["https://example.com/cb"])
      (Some demo_mgr)
    = (Some demo_mgr, inr {| code := PermissionDenied; message := "service token required" |}).
Proof.
  assert (He : Enabled demo_mgr = true) by reflexivity.
  assert (Ha : authenticate (inbound demo_set_callback_md) demo_mgr set_callback_method demo_now
               = inl ("svc", MethodSignature)) by (vm_compute; reflexivity).
  split; [exact Ha|].
  exact (proj1 (usage_callback_rejects_signature_identity url_ref.Parse demo_mgr
                  demo_set_callback_md set_callback_method demo_now "svc"
                  ["https://example.com/cb"] He Ha)).
Defined.

(** ** The allowlist (manager.go) *)

(** X13. For a URL that is not empty, [IsUsageCallbackAllowed] holds exactly
    when [UsageCallbackAllowlist] lists the URL for the subject. *)
Theorem IsUsageCallbackAllowed_iff_listed (m : Manager) (subject url : string) :
  url ≠ "" →
  (IsUsageCallbackAllowed m subject url = true ↔ url ∈ UsageCallbackAllowlist m subject).
Proof.
  intros Hu. apply is_empty_false in Hu.
  unfold IsUsageCallbackAllowed, UsageCallbackAllowlist. rewrite Hu, orb_false_r.
  destruct (Enabled m); cbn [negb]; [|split; [discriminate | intros H; inversion H]].
  destruct (is_empty subject); [split; [discriminate | intros H; inversion H]|].
  destruct (usageCallbackAllowlist m !! subject) as [set|];
    [|split; [discriminate | intros H; inversion H]].
  destruct (size set =? 0)%nat; [split; [discriminate | intros H; inversion H]|].
  rewrite merge_sort_Permutation, elem_of_elements. apply bool_decide_eq_true.
Qed.

Lemma IsUsageCallbackAllowed_iff_listed_witness :
  IsUsageCallbackAllowed (with_svc_urls demo_mgr demo_urls) "svc" "https://example.com/cb" = true
  ∧ "https://example.com/cb" ∈ UsageCallbackAllowlist (with_svc_urls demo_mgr demo_urls) "svc".
Proof.
  assert (H : IsUsageCallbackAllowed (with_svc_urls demo_mgr demo_urls) "svc"
                "https://example.com/cb" = true) by (vm_compute; reflexivity).
  split; [exact H|].
  apply (IsUsageCallbackAllowed_iff_listed (with_svc_urls demo_mgr demo_urls) "svc"
           "https://example.com/cb"); [discriminate | exact H].
Defined.

Section AllowlistMore.

Variable url_Parse : string → url.URL + error.

(** What the loop collected when it succeeded. *)
Lemma collectURLs_inl (urls : list string) :
  ∀ set set' : gset string,
    collectURLs url_Parse urls set = inl set' →
    (∀ u : string, u ∈ set' ↔ u ∈ set ∨ (u ∈ urls ∧ u ≠ ""))
    ∧ (∀ u : string, u ∈ urls → u ≠ "" → ¬ malformed_url url_Parse u).
Proof.
  induction urls as [|x urls IH]; intros set set'; cbn [collectURLs].
  { intros [= <-]. split.
    - intros u. split; [auto|]. intros [H|[H _]]; [exact H | now apply elem_of_nil in H].
    - intros u H. now apply elem_of_nil in H. }
  destruct (is_empty x) eqn:Ex.
  - intros Hc. destruct (IH _ _ Hc) as [Hmem Hval]. apply is_empty_true in Ex. split.
    + intros u. rewrite Hmem, elem_of_cons. split; [tauto|].
      intros [H|[[->|H] Hne]]; [tauto | congruence | tauto].
    + intros u Hin Hne. apply elem_of_cons in Hin as [->|Hin]; [congruence | now apply Hval].
  - destruct (validateCallbackURL url_Parse x) as [err|] eqn:Hx; [discriminate|].
    intros Hc. destruct (IH _ _ Hc) as [Hmem Hval]. apply is_empty_false in Ex. split.
    + intros u. rewrite Hmem, elem_of_union, elem_of_singleton, elem_of_cons. split.
      * intros [[->|H]|[H Hne]]; tauto.
      * intros [H|[[->|H] Hne]]; tauto.
    + intros u Hin Hne. apply elem_of_cons in Hin as [->|Hin]; [|now apply Hval].
      intros Hbad. apply validateCallbackURL_malformed in Hbad. congruence.
Qed.

Lemma collectURLs_inr (urls : list string) :
  ∀ (set : gset string) (err : error),
    collectURLs url_Parse urls set = inr err → errors_Is err ErrForbidden = true.
Proof.
  induction urls as [|x urls IH]; intros set err; cbn [collectURLs]; [discriminate|].
  destruct (is_empty x); [apply IH|].
  destruct (validateCallbackURL url_Parse x) as [e|] eqn:Hx; [|apply IH].
  intros [= <-]. eapply validateCallbackURL_forbidden, Hx.
Qed.

(** X14. A successful [SetUsageCallbackAllowlist] replaces the set of the
    subject: afterwards a URL is allowed for the subject exactly when it is a
    non-empty URL of the list, whatever was registered before. Every
    non-empty URL of the list is well-formed, the other subjects keep their
    sets, and the credentials, the tokens and the TTL are unchanged. *)
Theorem SetUsageCallbackAllowlist_success (m m' : Manager) (subject : string)
    (urls : list string) :
  SetUsageCallbackAllowlist url_Parse m subject urls = (m', None) →
  Enabled m = true ∧ subject ≠ ""
  ∧ (∀ u : string, IsUsageCallbackAllowed m' subject u = true ↔ u ≠ "" ∧ u ∈ urls)
  ∧ (∀ u : string, u ∈ urls → u ≠ "" → ¬ malformed_url url_Parse u)
  ∧ (∀ s : string, s ≠ subject →
       usageCallbackAllowlist m' !! s = usageCallbackAllowlist m !! s)
  ∧ enabled m' = enabled m ∧ serviceTokens m' = serviceTokens m
  ∧ tempTTL m' = tempTTL m ∧ temps m' = temps m.
Proof.
  unfold SetUsageCallbackAllowlist.
  destruct (Enabled m) eqn:He; cbn [negb]; [|discriminate].
  destruct (is_empty subject) eqn:Es; [discriminate|].
  destruct (collectURLs url_Parse urls ∅) as [set|err] eqn:Hc; [|discriminate].
  destruct (collectURLs_inl _ _ _ Hc) as [Hmem Hval].
  assert (Hmem' : ∀ u, u ∈ set ↔ u ∈ urls ∧ u ≠ "").
  { intros u. rewrite Hmem. split; [intros [H|H]; [now apply not_elem_of_empty in H | exact H]
                                   | auto]. }
  assert (Hallowed : ∀ (a : gmap string (gset string)) u,
            a !! subject = (if (size set =? 0)%nat then None else Some set) →
            IsUsageCallbackAllowed (set_allowlist m a) subject u = true ↔ u ≠ "" ∧ u ∈ urls).
  { intros a u Ha. unfold IsUsageCallbackAllowed, Enabled.
    cbn [set_allowlist enabled usageCallbackAllowlist]. unfold Enabled in He.
    rewrite He, Es, Ha. cbn [negb orb].
    destruct (is_empty u) eqn:Eu.
    { apply is_empty_true in Eu. split; [discriminate | intros [H _]; congruence]. }
    apply is_empty_false in Eu.
    destruct (size set =? 0)%nat eqn:Hsz.
    - apply Nat.eqb_eq, size_empty_inv in Hsz. split; [discriminate|].
      intros [_ Hin]. exfalso. apply (not_elem_of_empty (C := gset string) u), Hsz, Hmem'. auto.
    - rewrite ?Hsz, bool_decide_eq_true, Hmem'. tauto. }
  apply is_empty_false in Es.
  destruct (size set =? 0)%nat eqn:Hsz; intros [= <-];
    cbn [set_allowlist enabled serviceTokens tempTTL temps usageCallbackAllowlist];
    (split; [reflexivity|]); (split; [exact Es|]); (split; [|split; [exact Hval|]]).
  - intros u. apply Hallowed. rewrite ?Hsz. apply lookup_delete_eq.
  - repeat split. intros s Hs. now apply lookup_delete_ne.
  - intros u. apply Hallowed. rewrite ?Hsz. apply lookup_insert_eq.
  - repeat split. intros s Hs. now apply lookup_insert_ne.
Qed.

(** X15. [SetUsageCallbackAllowlist] never fails half-way: when it returns
    an error, the error wraps [ErrForbidden] and the manager is the one
    given; hence [SetUsageCallback] never answers [Internal], and every error
    answer of it leaves the manager unchanged. *)
Theorem SetUsageCallback_failure (m : Manager) (subject : string) (urls : list string) :
  (∀ (m' : Manager) (err : error),
     SetUsageCallbackAllowlist url_Parse m subject urls = (m', Some err) →
     m' = m ∧ errors_Is err ErrForbidden = true)
  ∧ (∀ (ctx : Context) (st : option Manager) (status : Status),
       SetUsageCallback url_Parse ctx urls (Some m) = (st, inr status) →
       st = Some m ∧ code status ≠ Internal).
Proof.
  assert (Hm : ∀ s m' err, SetUsageCallbackAllowlist url_Parse m s urls = (m', Some err) →
                           m' = m ∧ errors_Is err ErrForbidden = true).
  { intros s m' err. unfold SetUsageCallbackAllowlist.
    destruct (Enabled m); cbn [negb]; [|intros [= <- <-]; split; reflexivity].
    destruct (is_empty s); [intros [= <- <-]; split; reflexivity|].
    destruct (collectURLs url_Parse urls ∅) as [set|e] eqn:Hc.
    - destruct (size set =? 0)%nat; discriminate.
    - intros [= <- <-]. split; [reflexivity|]. eapply collectURLs_inr, Hc. }
  split; [apply Hm|].
  intros ctx st status. unfold SetUsageCallback.
  destruct (negb _); [intros [= <- <-]; split; [reflexivity | discriminate]|].
  destruct (is_empty _); [intros [= <- <-]; split; [reflexivity | discriminate]|].
  destruct (SetUsageCallbackAllowlist url_Parse m (SubjectFromContext ctx) urls)
    as [m' [err|]] eqn:Hset; [|discriminate].
  destruct (Hm _ _ _ Hset) as [-> Hf]. rewrite Hf.
  intros [= <- <-]. split; [reflexivity | discriminate].
Qed.

Lemma allowlist_valid_set_allowlist (m : Manager) (a : gmap string (gset string)) :
  (∀ s set, a !! s = Some set →
     set ≠ ∅ ∧ ∀ u : string, u ∈ set → u ≠ "" ∧ ¬ malformed_url url_Parse u) →
  allowlist_valid url_Parse (set_allowlist m a).
Proof. intros H s set. cbn [set_allowlist usageCallbackAllowlist]. apply H. Qed.

(** X16. The allowlist of a manager built by [NewManager] is valid (every
    entry is a non-empty set of non-empty well-formed URLs), and
    [SetUsageCallbackAllowlist] and [IssueTemporaryCredentials] keep it
    valid; on a valid allowlist a URL that [IsUsageCallbackAllowed] accepts
    is never malformed. *)
Theorem allowlist_valid_invariant :
  (∀ (tokens : list ServiceToken) (ttl : time.Duration),
     allowlist_valid url_Parse (NewManager tokens ttl))
  ∧ (∀ (m m' : Manager) (subject : string) (urls : list string) (r : option error),
       allowlist_valid url_Parse m →
       SetUsageCallbackAllowlist url_Parse m subject urls = (m', r) →
       allowlist_valid url_Parse m')
  ∧ (∀ (m m' : Manager) (tape tape' : list byte) (tok : string) (T : time.Time)
       (r : TemporaryCredentials + error),
       allowlist_valid url_Parse m →
       IssueTemporaryCredentials m tape tok T = (m', tape', r) →
       allowlist_valid url_Parse m')
  ∧ (∀ (m : Manager) (subject u : string),
       allowlist_valid url_Parse m →
       IsUsageCallbackAllowed m subject u = true →
       u ≠ "" ∧ ¬ malformed_url url_Parse u).
Proof.
  split; [|split; [|split]].
  - intros tokens ttl s set. unfold NewManager. cbn [usageCallbackAllowlist].
    now rewrite lookup_empty.
  - intros m m' subject urls r Hv. unfold SetUsageCallbackAllowlist.
    destruct (Enabled m); cbn [negb]; [|now intros [= <- _]].
    destruct (is_empty subject); [now intros [= <- _]|].
    destruct (collectURLs url_Parse urls ∅) as [set|e] eqn:Hc; [|now intros [= <- _]].
    destruct (collectURLs_inl _ _ _ Hc) as [Hmem Hval].
    destruct (size set =? 0)%nat eqn:Hsz; intros [= <- _]; apply allowlist_valid_set_allowlist.
    + intros s st Hs. apply lookup_delete_Some in Hs as [_ Hs]. now apply (Hv s).
    + intros s st Hs. apply lookup_insert_Some in Hs as [[_ <-]|[_ Hs]]; [|now apply (Hv s)].
      split.
      * intros ->. now rewrite size_empty in Hsz.
      * intros u Hu. apply Hmem in Hu as [Hu|[Hu Hne]]; [now apply not_elem_of_empty in Hu|].
        split; [exact Hne | now apply Hval].
  - intros m m' tape tape' tok T [creds|err] Hv Hissue.
    + destruct (IssueTemporaryCredentials_inv _ _ _ _ _ _ _ Hissue) as (_ & _ & _ & _ & _ & Ht).
      assert (Ha : usageCallbackAllowlist m' = usageCallbackAllowlist m).
      { revert Hissue. unfold IssueTemporaryCredentials.
        destruct (Enabled m); cbn [negb]; [|discriminate].
        destruct (AuthenticateServiceToken m tok) as [subj ok]. destruct ok; cbn [negb];
          [|discriminate].
        destruct (randHex tape 16) as [[akid tape1]|e1]; [|discriminate].
        destruct (randB64 tape1 32) as [[sec tape2]|e2]; [|discriminate].
        now intros [= <- _ _]. }
      intros s set. rewrite Ha. apply Hv.
    + apply IssueTemporaryCredentials_failure_unchanged in Hissue as ->. exact Hv.
  - intros m subject u Hv. unfold IsUsageCallbackAllowed.
    destruct (Enabled m); cbn [negb]; [|discriminate].
    destruct (is_empty subject || is_empty u); [discriminate|].
    destruct (usageCallbackAllowlist m !! subject) as [set|] eqn:Hs; [|discriminate].
    destruct (size set =? 0)%nat; [discriminate|].
    intros Hin%bool_decide_eq_true. now apply (Hv subject set Hs).
Qed.

End AllowlistMore.

Lemma SetUsageCallbackAllowlist_success_witness :
  SetUsageCallbackAllowlist url_ref.Parse (with_svc_urls demo_mgr ["http://old.example/cb"])
    "svc" demo_urls = (with_svc_urls demo_mgr demo_urls, None)
  ∧ IsUsageCallbackAllowed (with_svc_urls demo_mgr demo_urls) "svc" "http://old.example/cb"
    = false.
Proof.
  assert (H : SetUsageCallbackAllowlist url_ref.Parse
                (with_svc_urls demo_mgr ["http://old.example/cb"]) "svc" demo_urls
              = (with_svc_urls demo_mgr demo_urls, None)) by (vm_compute; reflexivity).
  split; [exact H|].
  destruct (SetUsageCallbackAllowlist_success url_ref.Parse _ _ _ _ H) as (_ & _ & Hal & _).
  destruct (IsUsageCallbackAllowed _ "svc" "http://old.example/cb") eqn:E; [|reflexivity].
  apply Hal in E as [_ Hin]. unfold demo_urls in Hin.
  rewrite !elem_of_cons, elem_of_nil in Hin. destruct Hin as [?|[?|[?|[]]]]; discriminate.
Defined.

(** ** The timestamp header (interceptors.go) *)

Lemma wrap64_mod (z : Z) : wrap64 z mod 18446744073709551616 = z mod 18446744073709551616.
Proof.
  unfold wrap64.
  rewrite Zminus_mod, Zmod_mod, <- Zminus_mod. f_equal. lia.
Qed.

Lemma wrap64_eqm (a b : Z) :
  a mod 18446744073709551616 = b mod 18446744073709551616 → wrap64 a = wrap64 b.
Proof.
  intros H. unfold wrap64. f_equal.
  rewrite (Zplus_mod a), (Zplus_mod b), H. reflexivity.
Qed.

Lemma wrap64_range (z : Z) : int64_range z → wrap64 z = z.
Proof. unfold int64_range, wrap64. intros H. rewrite Z.mod_small; lia. Qed.

(** On the digits of a [Decimal.uint] the loop computes their value, modulo
    [2^64]. *)
Lemma parseInt64_from_digits (d : Decimal.uint) :
  ∀ (i : nat) (n n' sign : Z),
    n mod 18446744073709551616 = n' mod 18446744073709551616 →
    parseInt64_from (NilEmpty.string_of_uint d) i n sign = wrap64 (digits_value d n' * sign).
Proof.
  induction d; intros i n n' sign Hn;
    cbn [NilEmpty.string_of_uint parseInt64_from digits_value];
    try (rewrite andb_false_r; cbn [orb Z_of_ascii];
         apply IHd; rewrite wrap64_mod;
         rewrite (Zplus_mod (n * 10)), (Zplus_mod (n' * 10)),
                 (Zmult_mod n), (Zmult_mod n'), Hn; reflexivity).
  apply wrap64_eqm. now rewrite (Zmult_mod n), (Zmult_mod n'), Hn.
Qed.

Lemma digits_value_of_uint_acc (d : Decimal.uint) :
  ∀ acc : positive, Z.pos (Pos.of_uint_acc d acc) = digits_value d (Z.pos acc).
Proof.
  induction d; intros acc; cbn [Pos.of_uint_acc digits_value]; [reflexivity|..];
    rewrite IHd; f_equal; lia.
Qed.

Lemma digits_value_of_uint (d : Decimal.uint) : Z.of_N (Pos.of_uint d) = digits_value d 0.
Proof.
  induction d; cbn [Pos.of_uint digits_value]; try reflexivity; try exact IHd;
    cbn [Z.of_N]; rewrite digits_value_of_uint_acc; reflexivity.
Qed.

Lemma digits_value_to_uint (p : positive) : digits_value (Pos.to_uint p) 0 = Z.pos p.
Proof. now rewrite <- digits_value_of_uint, DecimalPos.Unsigned.of_to. Qed.

(** X17. [parseInt64] reads back the decimal text of every [int64]: a
    timestamp printed with [%d] is parsed to the same number, negative
    numbers and the two ends of the range included. *)
Theorem parseInt64_FormatInt (z : Z) : int64_range z → parseInt64 (FormatInt z) = z.
Proof.
  intros Hz. unfold parseInt64, FormatInt. destruct z as [|p|p]; [reflexivity|..].
  - cbn [Z.to_int NilEmpty.string_of_int].
    rewrite (parseInt64_from_digits _ 0 0 0 1 eq_refl), digits_value_to_uint, Z.mul_1_r.
    now apply wrap64_range.
  - cbn [Z.to_int NilEmpty.string_of_int parseInt64_from].
    change ((0 =? 0)%nat && (Z_of_ascii "-" =? 45)) with true. cbv iota.
    rewrite (parseInt64_from_digits _ 1 0 0 (-1) eq_refl), digits_value_to_uint.
    replace (Z.pos p * -1) with (Z.neg p) by lia. now apply wrap64_range.
Qed.

Lemma parseInt64_FormatInt_witness :
  parseInt64 "1700000060" = 1700000060
  ∧ parseInt64 "-9223372036854775808" = -9223372036854775808.
Proof.
  split.
  - apply (parseInt64_FormatInt 1700000060). unfold int64_range. lia.
  - apply (parseInt64_FormatInt (-9223372036854775808)). unfold int64_range. lia.
Defined.

(** A number beyond the range wraps around; [2^64] reads as 0, the value of
    a missing timestamp. *)
Example parseInt64_wraps :
  parseInt64 "9223372036854775808" = -9223372036854775808
  ∧ parseInt64 "18446744073709551616" = 0.
Proof. split; reflexivity. Qed.

(** ** The HTTP bridge (httpgateway) *)

(** X18. When a signing header is present, the bridge reads the body up to
    10 MiB: a longer body, or one whose reading fails, is answered with
    status 413 and the gateway is not called; otherwise the gateway gets a
    request with the same bytes as its body. Without a signing header the
    body is not read and is handed on as it is. In both cases every header
    other than the four forwarded ones is handed on unchanged. *)
Theorem bridge_body_limit (r : httpgateway.Request) :
  let too_large :=
    httpgateway.HttpError "request body too large for signature verification" 413 in
  let body := httpgateway.Body_ r in
  (httpgateway.hasSig (httpgateway.Header r) = true →
     (httpgateway.maxBody < Z.of_nat (length (httpgateway.data body)) →
      httpgateway.handler r = too_large)
     ∧ (Z.of_nat (length (httpgateway.data body)) ≤ httpgateway.maxBody →
        httpgateway.readError body = true → httpgateway.handler r = too_large)
     ∧ (Z.of_nat (length (httpgateway.data body)) ≤ httpgateway.maxBody →
        httpgateway.readError body = false →
        httpgateway.handler r
        = httpgateway.ServeGateway
            (bridged r {| httpgateway.data := httpgateway.data body;
                          httpgateway.readError := false |} (httpgateway.data body))))
  ∧ (httpgateway.hasSig (httpgateway.Header r) = false →
     httpgateway.handler r = httpgateway.ServeGateway (bridged r body []))
  ∧ (∀ (b : httpgateway.Body) (hashed : list byte) (k : string),
       k ∉ forwarded_headers →
       httpgateway.Header (bridged r b hashed) !! k = httpgateway.Header r !! k).
Proof.
  intros too_large body. subst body.
  assert (H0 : 0 ≤ httpgateway.maxBody) by (vm_compute; discriminate).
  split; [|split].
  - intros Hsig. rewrite !handler_unfold, hasSig_stamped, Hsig. cbn [negb].
    unfold httpgateway.ReadAllLimited.
    destruct (Z.leb_spec (httpgateway.maxBody + 1)
                (Z.of_nat (length (httpgateway.data (httpgateway.Body_ r))))) as [Hbig|Hsmall].
    + assert (Hlen : (httpgateway.maxBody
                      <? Z.of_nat (length (httpgateway.take (httpgateway.maxBody + 1)
                                             (httpgateway.data (httpgateway.Body_ r)))))
                     = true).
      { rewrite take_length by lia. apply Z.ltb_lt. lia. }
      rewrite Hlen. cbn [orb]. repeat split; try reflexivity; intros; lia.
    + assert (Hlen : (httpgateway.maxBody
                      <? Z.of_nat (length (httpgateway.data (httpgateway.Body_ r)))) = false).
      { apply Z.ltb_ge. lia. }
      rewrite Hlen, orb_false_r. split; [intros; lia|].
      split; intros _ ->; reflexivity.
  - intros Hsig. now rewrite handler_unfold, hasSig_stamped, Hsig.
  - intros b hashed k Hk. unfold forwarded_headers in Hk.
    rewrite !elem_of_cons, elem_of_nil in Hk.
    rewrite bridged_lookup, stamped_lookup.
    repeat case_decide; try reflexivity; exfalso; apply Hk; auto 6.
Qed.

Lemma bridge_body_limit_witness :
  httpgateway.hasSig (httpgateway.Header demo_http_oversized) = true
  ∧ httpgateway.handler demo_http_oversized
    = httpgateway.HttpError "request body too large for signature verification" 413.
Proof.
  assert (Hsig : httpgateway.hasSig (httpgateway.Header demo_http_oversized) = true)
    by reflexivity.
  split; [exact Hsig|].
  apply (proj1 (proj1 (bridge_body_limit demo_http_oversized) Hsig)).
  unfold demo_http_oversized.
  cbn [httpgateway.Body_ httpgateway.with_Body httpgateway.data].
  rewrite repeat_length, Z2Nat.id; [lia|]. vm_compute. discriminate.
Defined.

(** ** Routing (service.go) *)

Lemma SplitN_2_no_sep (sep : ascii) (s : string) :
  no_byte sep s → strings_SplitN_2 s sep = [s].
Proof.
  unfold no_byte. induction s as [|c s IH]; intros Hn; [reflexivity|].
  cbn [strings_SplitN_2 list_ascii_of_string In] in *.
  destruct (Ascii.eqb_spec c sep) as [E|E]; [tauto|].
  rewrite IH by tauto. reflexivity.
Qed.

Lemma SplitN_2_sep (sep : ascii) (a b : string) :
  no_byte sep a → strings_SplitN_2 (a +:+ String sep b) sep = [a; b].
Proof.
  unfold no_byte. induction a as [|c a IH]; intros Hn.
  - change ("" +:+ String sep b) with (String sep b).
    cbn [strings_SplitN_2]. now rewrite Ascii.eqb_refl.
  - rewrite append_String. cbn [strings_SplitN_2 list_ascii_of_string In] in *.
    destruct (Ascii.eqb_spec c sep) as [E|E]; [tauto|].
    rewrite IH by tauto. reflexivity.
Qed.

Lemma InvalidArgument_Is (msg : string) :
  errors_Is (llm.InvalidArgument msg) llm.ErrInvalidArgument = true.
Proof. unfold llm.InvalidArgument. now destruct (is_empty msg). Qed.

(** X19. A routed model that is not in the catalogue is routed by its name:
    [provider/model], split at the first slash, goes to the provider of that
    name with the rest as the upstream model (which may hold further
    slashes); an unknown provider, a name without a slash and an empty part
    are [InvalidArgument] errors. *)
Theorem resolve_by_name (S : Type) (s : llmgateway.Service S) (prov model : string) :
  no_byte "/" prov →
  llmgateway.models s !! (prov +:+ "/" +:+ model) = None →
  llmgateway.resolveProviderAndUpstreamModel s (prov +:+ "/" +:+ model)
  = (if is_empty prov || is_empty model then
       inr (llm.InvalidArgument "invalid model format, expected provider/model")
     else
       match llmgateway.providers s !! prov with
       | Some p => inl (p, model)
       | None => inr (llm.InvalidArgument ("unknown provider: " +:+ prov))
       end)
  ∧ (∀ name : string, no_byte "/" name → llmgateway.models s !! name = None →
       llmgateway.resolveProviderAndUpstreamModel s name
       = inr (llm.InvalidArgument "invalid model format, expected provider/model"))
  ∧ (∀ (name : string) (err : error), llmgateway.models s !! name = None →
       llmgateway.resolveProviderAndUpstreamModel s name = inr err →
       grpcadapter.toStatusErr (Some err)
       = Some {| code := InvalidArgument; message := Error err |}).
Proof.
  intros Hp Hm. split; [|split].
  - unfold llmgateway.resolveProviderAndUpstreamModel. rewrite Hm.
    change (prov +:+ "/" +:+ model) with (prov +:+ String "/" model).
    now rewrite SplitN_2_sep.
  - intros name Hn Hnm. unfold llmgateway.resolveProviderAndUpstreamModel.
    now rewrite Hnm, SplitN_2_no_sep.
  - intros name err Hnm. unfold llmgateway.resolveProviderAndUpstreamModel. rewrite Hnm.
    intros He. unfold grpcadapter.toStatusErr.
    assert (Hi : errors_Is err llm.ErrInvalidArgument = true).
    { destruct (strings_SplitN_2 name "/") as [|p0 [|p1 [|? ?]]];
        try (injection He as <-; apply InvalidArgument_Is).
      destruct (is_empty p0 || is_empty p1); [injection He as <-; apply InvalidArgument_Is|].
      destruct (llmgateway.providers s !! p0); [discriminate|].
      injection He as <-. apply InvalidArgument_Is. }
    now rewrite Hi.
Qed.

Lemma resolve_by_name_witness :
  llmgateway.resolveProviderAndUpstreamModel demo_service "dashscope/text-embedding-v3"
  = inl (demo_provider, "text-embedding-v3")
  ∧ llmgateway.resolveProviderAndUpstreamModel demo_service "dashscope/a/b"
    = inl (demo_provider, "a/b").
Proof.
  assert (Hp : no_byte "/" "dashscope").
  { unfold no_byte. cbn. intros H. repeat destruct H as [H|H]; try discriminate H; exact H. }
  split.
  - refine (proj1 (resolve_by_name _ demo_service "dashscope" "text-embedding-v3" Hp _)).
    vm_compute. reflexivity.
  - refine (proj1 (resolve_by_name _ demo_service "dashscope" "a/b" Hp _)).
    vm_compute. reflexivity.
Defined.

(** X20. For a routed model that is in the catalogue: when the provider of
    the entry is not configured, the call fails with an error that is no
    [InvalidArgument], which the adapter reports as [Internal]. Otherwise,
    with an upstream model set, the entry's provider gets that model whatever
    the ID looks like; without one, the route is that of the ID alone, as if
    the entry were not there: the provider is the one that the ID names, not
    the one of the entry. *)
Theorem resolve_by_catalogue (S : Type) (s : llmgateway.Service S) (routedModel : string)
    (m : llmgateway.ModelSpec) :
  llmgateway.models s !! routedModel = Some m →
  match llmgateway.providers s !! llmgateway.spec_Provider m with
  | None =>
      ∃ err, llmgateway.resolveProviderAndUpstreamModel s routedModel = inr err
             ∧ grpcadapter.toStatusErr (Some err)
               = Some {| code := Internal;
                         message := "no provider configured: "
                                    +:+ llmgateway.spec_Provider m |}
  | Some p =>
      if is_empty (llmgateway.spec_UpstreamModel m) then
        llmgateway.resolveProviderAndUpstreamModel s routedModel
        = llmgateway.resolveProviderAndUpstreamModel (without_catalogue s) routedModel
      else
        llmgateway.resolveProviderAndUpstreamModel s routedModel
        = inl (p, llmgateway.spec_UpstreamModel m)
  end.
Proof.
  intros Hm.
  destruct (llmgateway.providers s !! llmgateway.spec_Provider m) as [p|] eqn:Hp.
  - destruct (is_empty (llmgateway.spec_UpstreamModel m)) eqn:Hu;
      unfold llmgateway.resolveProviderAndUpstreamModel; rewrite Hm, Hp, Hu; cbn [negb];
      [|reflexivity].
    unfold without_catalogue. cbn [llmgateway.models llmgateway.providers].
    now rewrite lookup_empty.
  - eexists. split.
    + unfold llmgateway.resolveProviderAndUpstreamModel. rewrite Hm, Hp. reflexivity.
    + reflexivity.
Qed.

Lemma resolve_by_catalogue_witness :
  ∃ err,
    llmgateway.resolveProviderAndUpstreamModel demo_service "openrouter/openai/gpt-4o"
    = inr err
    ∧ grpcadapter.toStatusErr (Some err)
      = Some {| code := Internal; message := "no provider configured: openrouter" |}.
Proof.
  assert (Hm : llmgateway.models demo_service !! "openrouter/openai/gpt-4o"
               = Some {| llmgateway.spec_ID := "openrouter/openai/gpt-4o";
                         llmgateway.spec_Name := "GPT-4o";
                         llmgateway.spec_Provider := "openrouter";
                         llmgateway.spec_Capabilities := ["chat"];
                         llmgateway.spec_UpstreamModel := "openai/gpt-4o" |})
    by (vm_compute; reflexivity).
  pose proof (resolve_by_catalogue _ demo_service _ _ Hm) as H.
  assert (Hp : llmgateway.providers demo_service !! "openrouter" = None)
    by (vm_compute; reflexivity).
  cbn [llmgateway.spec_Provider] in H. rewrite Hp in H. exact H.
Defined.

(** ** The catalogue (service.go) *)

Lemma modelMap_lookup (l : list llmgateway.ModelSpec) :
  ∀ (mm : gmap string llmgateway.ModelSpec) (k : string),
    llmgateway.modelMap l mm !! k
    = match last_spec l k with
      | Some m => Some m
      | None => mm !! k
      end.
Proof.
  induction l as [|m rest IH]; intros mm k; [reflexivity|].
  cbn [llmgateway.modelMap last_spec]. rewrite IH.
  destruct (last_spec rest k); [reflexivity|].
  rewrite lookup_insert.
  destruct (String.eqb_spec (llmgateway.spec_ID m) k); case_decide; congruence.
Qed.

Lemma last_spec_Some (l : list llmgateway.ModelSpec) (k : string) (m : llmgateway.ModelSpec) :
  last_spec l k = Some m → m ∈ l ∧ llmgateway.spec_ID m = k.
Proof.
  induction l as [|x rest IH]; [discriminate|]. cbn [last_spec].
  destruct (last_spec rest k) as [u|].
  - intros [= ->]. destruct (IH eq_refl). split; [apply elem_of_cons; auto | assumption].
  - destruct (String.eqb_spec (llmgateway.spec_ID x) k); [|discriminate].
    intros [= ->]. split; [apply elem_of_cons; auto | assumption].
Qed.

Lemma modelMap_size (l : list llmgateway.ModelSpec) :
  ∀ mm : gmap string llmgateway.ModelSpec,
    (size (llmgateway.modelMap l mm) ≤ length l + size mm)%nat.
Proof.
  induction l as [|m rest IH]; intros mm; cbn [llmgateway.modelMap length]; [lia|].
  specialize (IH (<[llmgateway.spec_ID m := m]> mm)).
  rewrite map_size_insert in IH.
  destruct (mm !! llmgateway.spec_ID m); unfold id in IH; lia.
Qed.

(** X21. On a service built by [NewService]: [GetModel] of an empty ID and
    of an ID that no spec has fails with [InvalidArgument]; otherwise it
    returns the model of the last spec with the ID. A model with a non-empty
    ID is listed by [ListModels] exactly when [GetModel] of its ID returns
    it, and the list has one model for each ID. *)
Theorem GetModel_ListModels (S : Type) (provs : gmap string llmgateway.Provider)
    (specs : list llmgateway.ModelSpec) (gens : option (llmgateway.GenerationRepository S)) :
  let s := llmgateway.NewService provs specs gens in
  llmgateway.GetModel s "" = inr (llm.InvalidArgument "id is required")
  ∧ (∀ id : string, id ≠ "" →
       llmgateway.GetModel s id
       = match last_spec specs id with
         | Some m => inl (llmgateway.toModel m)
         | None => inr (llm.InvalidArgument ("unknown model: " +:+ id))
         end)
  ∧ ∃ l : list llm.Model,
      llmgateway.ListModels s = inl l
      ∧ (∀ x : llm.Model, llm.model_ID x ≠ "" →
           (x ∈ l ↔ llmgateway.GetModel s (llm.model_ID x) = inl x))
      ∧ NoDup (map llm.model_ID l)
      ∧ (length l ≤ length specs)%nat.
Proof.
  intros s. split; [reflexivity|]. split.
  - intros id Hid. unfold llmgateway.GetModel. apply is_empty_false in Hid. rewrite Hid.
    subst s. cbn [llmgateway.NewService llmgateway.models].
    rewrite modelMap_lookup, lookup_empty. now destruct (last_spec specs id).
  - eexists. split; [reflexivity|].
    subst s. cbn [llmgateway.NewService llmgateway.models].
    set (mm := llmgateway.modelMap specs ∅).
    assert (Hkey : ∀ k m, mm !! k = Some m → llmgateway.spec_ID m = k ∧ m ∈ specs).
    { intros k m. subst mm. rewrite modelMap_lookup, lookup_empty.
      destruct (last_spec specs k) eqn:Hl; [|discriminate].
      intros [= <-]. apply last_spec_Some in Hl. tauto. }
    split; [|split].
    + intros x Hx. rewrite list_elem_of_fmap. unfold llmgateway.GetModel.
      apply is_empty_false in Hx. rewrite Hx.
      cbn [llmgateway.NewService llmgateway.models]. fold mm. split.
      * intros ([k m] & -> & Hin). apply elem_of_map_to_list in Hin.
        destruct (Hkey _ _ Hin) as [Hk _]. cbn [snd llmgateway.toModel llm.model_ID].
        now rewrite Hk, Hin.
      * destruct (mm !! llm.model_ID x) as [m|] eqn:Hm; [|discriminate].
        intros [= <-]. exists (llm.model_ID (llmgateway.toModel m), m).
        split; [reflexivity|]. now apply elem_of_map_to_list.
    + rewrite map_map.
      assert (E : map (fun kv : string * llmgateway.ModelSpec =>
                         llm.model_ID (llmgateway.toModel (snd kv))) (map_to_list mm)
                  = map fst (map_to_list mm)).
      { apply map_ext_in. intros [k m] Hin. apply list_elem_of_In, elem_of_map_to_list in Hin.
        cbn. now apply Hkey. }
      rewrite E. apply NoDup_fst_map_to_list.
    + rewrite length_map, length_map_to_list. subst mm.
      pose proof (modelMap_size specs ∅) as Hs. rewrite map_size_empty in Hs. lia.
Qed.

(** ** The use cases (service.go) *)

Lemma resolve_ext (S1 S2 : Type) (s1 : llmgateway.Service S1) (s2 : llmgateway.Service S2)
    (routedModel : string) :
  llmgateway.providers s1 = llmgateway.providers s2 →
  llmgateway.models s1 = llmgateway.models s2 →
  llmgateway.resolveProviderAndUpstreamModel s1 routedModel
  = llmgateway.resolveProviderAndUpstreamModel s2 routedModel.
Proof. unfold llmgateway.resolveProviderAndUpstreamModel. now intros -> ->. Qed.

(** The errors of the routing. *)
Lemma resolve_errors (S : Type) (s : llmgateway.Service S) (routedModel : string) (err : error) :
  llmgateway.resolveProviderAndUpstreamModel s routedModel = inr err →
  errors_Is err llm.ErrInvalidArgument = true
  ∨ ∃ m, llmgateway.models s !! routedModel = Some m
         ∧ llmgateway.providers s !! llmgateway.spec_Provider m = None
         ∧ err = errors_New ("no provider configured: " +:+ llmgateway.spec_Provider m).
Proof.
  unfold llmgateway.resolveProviderAndUpstreamModel.
  set (derive := match strings_SplitN_2 routedModel "/" with [] => _ | _ => _ end).
  assert (Hd : derive = inr err → errors_Is err llm.ErrInvalidArgument = true).
  { subst derive. intros He.
    destruct (strings_SplitN_2 routedModel "/") as [|p0 [|p1 [|? ?]]];
      try (injection He as <-; apply InvalidArgument_Is).
    destruct (is_empty p0 || is_empty p1); [injection He as <-; apply InvalidArgument_Is|].
    destruct (llmgateway.providers s !! p0); [discriminate|].
    injection He as <-. apply InvalidArgument_Is. }
  destruct (llmgateway.models s !! routedModel) as [m|]; [|auto].
  destruct (llmgateway.providers s !! llmgateway.spec_Provider m) as [p|] eqn:Hp.
  - destruct (negb (is_empty (llmgateway.spec_UpstreamModel m))); [discriminate | auto].
  - intros [= <-]. right. exists m. auto.
Qed.

(** X22. The generation record is saved on a best-effort basis: the answer
    of [CreateEmbeddings] and of [CreateChatCompletion] is the one of the same
    service without a repository, whatever [Save] does or returns; a call
    that fails saves nothing, and so does every call of a service without a
    repository. *)
Theorem Create_best_effort (S : Type) (s : llmgateway.Service S) (st : S) :
  (∀ req : llm.EmbeddingsRequest,
     snd (llmgateway.CreateEmbeddings s st req)
     = snd (llmgateway.CreateEmbeddings (without_repository s) tt req)
     ∧ (∀ err, snd (llmgateway.CreateEmbeddings s st req) = inr err →
               fst (llmgateway.CreateEmbeddings s st req) = st)
     ∧ (llmgateway.generations s = None → fst (llmgateway.CreateEmbeddings s st req) = st))
  ∧ (∀ req : llm.ChatCompletionRequest,
       snd (llmgateway.CreateChatCompletion s st req)
       = snd (llmgateway.CreateChatCompletion (without_repository s) tt req)
       ∧ (∀ err, snd (llmgateway.CreateChatCompletion s st req) = inr err →
                 fst (llmgateway.CreateChatCompletion s st req) = st)
       ∧ (llmgateway.generations s = None →
          fst (llmgateway.CreateChatCompletion s st req) = st)).
Proof.
  split; intros req.
  - unfold llmgateway.CreateEmbeddings.
    rewrite (resolve_ext _ _ (without_repository s) s _ eq_refl eq_refl).
    destruct (is_empty (llm.embq_Model req)); [repeat split|].
    destruct (length (llm.embq_Input req) =? 0)%nat; [repeat split|].
    destruct (llmgateway.resolveProviderAndUpstreamModel s (llm.embq_Model req))
      as [[p up]|e]; [|repeat split].
    destruct (llmgateway.CreateEmbeddings_ p _) as [resp|e]; [|repeat split].
    cbn [fst snd]. split; [reflexivity|]. split; [discriminate|].
    intros Hg. unfold llmgateway.saveBestEffort. now rewrite Hg.
  - unfold llmgateway.CreateChatCompletion.
    rewrite (resolve_ext _ _ (without_repository s) s _ eq_refl eq_refl).
    destruct (is_empty (llm.chat_Model req)); [repeat split|].
    destruct (length (llm.chat_Messages req) =? 0)%nat; [repeat split|].
    destruct (llmgateway.resolveProviderAndUpstreamModel s (llm.chat_Model req))
      as [[p up]|e]; [|repeat split].
    destruct (llmgateway.CreateChatCompletion_ p _) as [resp|e]; [|repeat split].
    cbn [fst snd]. split; [reflexivity|]. split; [discriminate|].
    intros Hg. unfold llmgateway.saveBestEffort. now rewrite Hg.
Qed.

(** The answer does not depend on a repository whose [Save] fails. *)
Example Create_best_effort_failing_save :
  llmgateway.CreateEmbeddings demo_service [] demo_embeddings_request
  = ([], inl {| llm.embr_ID := "emb-1"; llm.embr_Model := "text-embedding-v3";
                llm.embr_Data := [];
                llm.embr_Usage := {| llm.embu_PromptTokens := 4;
                                     llm.embu_TotalTokens := 4 |} |}).
Proof. vm_compute. reflexivity. Qed.

(** X23. An error of [CreateEmbeddings] or [CreateChatCompletion] is one of
    three: an [InvalidArgument] error (an empty model, no input or message, a
    routed model that cannot be routed), the error of a catalogue entry whose
    provider is not configured, or the error that the provider returned for
    the request with the upstream model. *)
Theorem Create_errors (S : Type) (s : llmgateway.Service S) (st : S) :
  (∀ (req : llm.EmbeddingsRequest) (err : error),
     snd (llmgateway.CreateEmbeddings s st req) = inr err →
     errors_Is err llm.ErrInvalidArgument = true
     ∨ (∃ m, llmgateway.models s !! llm.embq_Model req = Some m
             ∧ llmgateway.providers s !! llmgateway.spec_Provider m = None
             ∧ err = errors_New ("no provider configured: " +:+ llmgateway.spec_Provider m))
     ∨ (∃ p upstreamModel,
          llmgateway.resolveProviderAndUpstreamModel s (llm.embq_Model req)
          = inl (p, upstreamModel)
          ∧ llmgateway.CreateEmbeddings_ p
              {| llm.embq_Model := upstreamModel; llm.embq_Input := llm.embq_Input req;
                 llm.embq_User := llm.embq_User req |} = inr err))
  ∧ (∀ (req : llm.ChatCompletionRequest) (err : error),
       snd (llmgateway.CreateChatCompletion s st req) = inr err →
       errors_Is err llm.ErrInvalidArgument = true
       ∨ (∃ m, llmgateway.models s !! llm.chat_Model req = Some m
               ∧ llmgateway.providers s !! llmgateway.spec_Provider m = None
               ∧ err = errors_New ("no provider configured: "
                                   +:+ llmgateway.spec_Provider m))
       ∨ (∃ p upstreamModel,
            llmgateway.resolveProviderAndUpstreamModel s (llm.chat_Model req)
            = inl (p, upstreamModel)
            ∧ llmgateway.CreateChatCompletion_ p
                {| llm.chat_Model := upstreamModel;
                   llm.chat_Messages := llm.chat_Messages req;
                   llm.chat_Temperature := llm.chat_Temperature req;
                   llm.chat_MaxTokens := llm.chat_MaxTokens req;
                   llm.chat_User := llm.chat_User req |} = inr err)).
Proof.
  split; intros req err.
  - unfold llmgateway.CreateEmbeddings.
    destruct (is_empty (llm.embq_Model req));
      [intros [= <-]; left; apply InvalidArgument_Is|].
    destruct (length (llm.embq_Input req) =? 0)%nat;
      [intros [= <-]; left; apply InvalidArgument_Is|].
    destruct (llmgateway.resolveProviderAndUpstreamModel s (llm.embq_Model req))
      as [[p up]|e] eqn:Hr.
    + destruct (llmgateway.CreateEmbeddings_ p _) as [resp|e] eqn:Hp; [discriminate|].
      intros [= <-]. right. right. exists p, up. auto.
    + intros [= <-]. apply resolve_errors in Hr. tauto.
  - unfold llmgateway.CreateChatCompletion.
    destruct (is_empty (llm.chat_Model req));
      [intros [= <-]; left; apply InvalidArgument_Is|].
    destruct (length (llm.chat_Messages req) =? 0)%nat;
      [intros [= <-]; left; apply InvalidArgument_Is|].
    destruct (llmgateway.resolveProviderAndUpstreamModel s (llm.chat_Model req))
      as [[p up]|e] eqn:Hr.
    + destruct (llmgateway.CreateChatCompletion_ p _) as [resp|e] eqn:Hp; [discriminate|].
      intros [= <-]. right. right. exists p, up. auto.
    + intros [= <-]. apply resolve_errors in Hr. tauto.
Qed.

(** ** The interceptors (interceptors.go) *)

(** X24. The stream interceptor decides as the unary one: the stream handler
    runs on the context that a unary handler gets for the same call, and a
    call that the unary interceptor rejects is rejected with the same status
    without running the stream handler. *)
Theorem StreamServerInterceptor_as_unary (S : Type) (mgr : option Manager) (ctx : Context)
    (fullMethod : string) (now : time.Time) (handler : Context → S → S * option Status)
    (st : S) :
  StreamServerInterceptor mgr ctx fullMethod now handler st
  = match unary_context mgr ctx fullMethod now with
    | inl ctx' => handler ctx' st
    | inr status => (st, Some status)
    end.
Proof.
  unfold StreamServerInterceptor, unary_context, UnaryServerInterceptor.
  destruct mgr as [m|]; [|reflexivity].
  destruct (Enabled m); cbn [negb]; [|reflexivity].
  destruct (authenticate ctx m fullMethod now) as [[subject method]|status]; reflexivity.
Qed.

(** ** The header matcher of the HTTP gateway *)

Lemma auth_metadata_keys_lower :
  Forall (fun k => strings.ToLower k = k
                   ∧ strings.ToLower (httpgateway.CanonicalMIMEHeaderKey k) = k)
    auth_metadata_keys.
Proof. repeat constructor. Qed.

(** X25. Every metadata name that the interceptor and the handlers read
    reaches them from the HTTP side. For a header name of ASCII bytes: a name
    that is one of the ten up to the case of its letters is forwarded under
    the lower-case name whatever the default matcher says, and that is the
    name under which the metadata is read; any other name is left to the
    default matcher. The canonical form under which the HTTP server keeps
    each of the ten names is forwarded. *)
Theorem headerMatcher_auth_metadata (DefaultHeaderMatcher : string → string * bool)
    (key : string) :
  ascii_only key = true →
  (strings.ToLower key ∈ auth_metadata_keys →
     httpgateway.headerMatcher DefaultHeaderMatcher key = (strings.ToLower key, true)
     ∧ ∀ (md : gmap string (list string)) (v : list string),
         MD_Get (<[fst (httpgateway.headerMatcher DefaultHeaderMatcher key) := v]> md)
           (strings.ToLower key) = v)
  ∧ (strings.ToLower key ∉ auth_metadata_keys →
     httpgateway.headerMatcher DefaultHeaderMatcher key = DefaultHeaderMatcher key)
  ∧ (∀ k : string, k ∈ auth_metadata_keys →
       httpgateway.headerMatcher DefaultHeaderMatcher (httpgateway.CanonicalMIMEHeaderKey k)
       = (k, true)).
Proof.
  intros _.
  assert (Hm : ∀ key' : string,
            httpgateway.headerMatcher DefaultHeaderMatcher key'
            = if bool_decide (strings.ToLower key' ∈ auth_metadata_keys)
              then (strings.ToLower key', true) else DefaultHeaderMatcher key').
  { intros key'. unfold httpgateway.headerMatcher.
    set (l := [ "x-service-token"; "x-access-key-id"; "x-signature"; "x-timestamp"; "x-nonce";
                "x-usage-callback"; "x-llmgw-http-method"; "x-llmgw-http-path";
                "x-llmgw-http-query"; "x-llmgw-body-sha256" ]).
    change auth_metadata_keys with l.
    destruct (existsb (String.eqb (strings.ToLower key')) l) eqn:He.
    - apply existsb_exists in He as (x & Hin & Hx). apply String.eqb_eq in Hx. subst x.
      apply list_elem_of_In in Hin. now rewrite bool_decide_eq_true_2.
    - rewrite bool_decide_eq_false_2; [reflexivity|]. intros Hin.
      apply list_elem_of_In in Hin.
      assert (existsb (String.eqb (strings.ToLower key')) l = true); [|congruence].
      apply existsb_exists. exists (strings.ToLower key'). split; [exact Hin|].
      apply String.eqb_refl. }
  pose proof auth_metadata_keys_lower as Hl. rewrite Forall_forall in Hl.
  split; [|split].
  - intros Hin. rewrite Hm, bool_decide_eq_true_2 by exact Hin. split; [reflexivity|].
    intros md v. cbn [fst]. unfold MD_Get.
    rewrite (proj1 (Hl _ Hin)), lookup_insert_eq. reflexivity.
  - intros Hn. now rewrite Hm, bool_decide_eq_false_2.
  - intros k Hin. destruct (Hl _ Hin) as [_ Hc]. rewrite Hm, Hc.
    now rewrite bool_decide_eq_true_2.
Qed.

Lemma headerMatcher_auth_metadata_witness :
  httpgateway.headerMatcher (fun key => (key, false)) "X-Llmgw-Body-Sha256"
  = ("x-llmgw-body-sha256", true)
  ∧ httpgateway.headerMatcher (fun key => (key, false)) "Content-Type"
    = ("Content-Type", false).
Proof.
  split.
  - refine (proj1 (proj1 (headerMatcher_auth_metadata (fun key => (key, false))
                            "X-Llmgw-Body-Sha256" eq_refl) _)).
    vm_compute. repeat constructor.
  - refine (proj1 (proj2 (headerMatcher_auth_metadata (fun key => (key, false))
                            "Content-Type" eq_refl)) _).
    vm_compute. intros H. repeat (apply elem_of_cons in H as [H|H]; [discriminate H|]).
    inversion H.
Defined.

(** ** The adapter (llmgateway_service.go) *)

(** X26. The issuance handler answers [FailedPrecondition] when there is no
    manager or auth is disabled, [Unauthenticated] when the service token of
    the metadata does not authenticate, and [Internal] only when fewer than
    48 random bytes can be read; an error answer leaves the manager as it
    was. On success the record of the returned access key holds the returned
    secret and expires [tempTTL] after the call, and the expiry reported in
    seconds is never later than the stored one, and less than a second
    earlier. *)
Theorem IssueTemporaryCredentials_handler (ctx : Context) (authMgr mgr' : option Manager)
    (tape tape' : list byte) (now : time.Time)
    (r : grpcadapter.TemporaryCredentialsResponse + Status) :
  grpcadapter.IssueTemporaryCredentials ctx authMgr tape now = (mgr', tape', r) →
  match r with
  | inr status =>
      mgr' = authMgr ∧ issuance_failure authMgr (service_token_of ctx) tape tape' status
  | inl resp =>
      ∃ (m m' : Manager) (rec : tempRecord),
        authMgr = Some m ∧ mgr' = Some m'
        ∧ temps m' !! grpcadapter.AccessKeyId resp = Some rec
        ∧ secret rec = grpcadapter.AccessKeySecret_ resp
        ∧ expiresAt rec = now + tempTTL m
        ∧ time.Unix (grpcadapter.ExpiresAtUnix resp) 0 ≤ expiresAt rec
          < time.Unix (grpcadapter.ExpiresAtUnix resp + 1) 0
  end.
Proof.
  unfold grpcadapter.IssueTemporaryCredentials. destruct authMgr as [m|].
  2:{ intros [= <- <- <-]. split; [reflexivity|]. left. auto. }
  change (first (MD_Get (incomingMD ctx) "x-service-token")) with (service_token_of ctx).
  destruct (IssueTemporaryCredentials m tape (service_token_of ctx) now)
    as [[m1 tape1] [creds|err]] eqn:Hi; cbv beta iota.
  - intros [= <- <- <-].
    apply IssueTemporaryCredentials_inv in Hi as (_ & _ & _ & Hexp & _ & Ht).
    eexists m, m1, _. split; [reflexivity|]. split; [reflexivity|].
    cbn [grpcadapter.AccessKeyId grpcadapter.AccessKeySecret_ grpcadapter.ExpiresAtUnix].
    rewrite Ht, lookup_insert_eq. split; [reflexivity|]. cbn [secret expiresAt].
    split; [reflexivity|]. split; [exact Hexp|].
    unfold grpcadapter.time_Unix_of, time.Unix, time.Second.
    pose proof (Z.div_mod (ExpiresAt creds) 1000000000 ltac:(lia)) as Hd.
    pose proof (Z.mod_pos_bound (ExpiresAt creds) 1000000000 ltac:(lia)) as Hb.
    lia.
  - pose proof (IssueTemporaryCredentials_failure_unchanged _ _ _ _ _ _ _ Hi) as ->.
    unfold IssueTemporaryCredentials in Hi.
    destruct (Enabled m) eqn:He; cbn [negb] in Hi.
    2:{ injection Hi as <- <-. cbn [errors_Is error_eqb String.eqb Ascii.eqb Bool.eqb orb andb].
        intros [= <- <- <-]. split; [reflexivity|]. left. auto. }
    destruct (AuthenticateServiceToken m (service_token_of ctx)) as [subj ok] eqn:Ha.
    destruct ok; cbn [negb] in Hi.
    2:{ injection Hi as <- <-. cbn [errors_Is error_eqb String.eqb Ascii.eqb Bool.eqb orb andb].
        intros [= <- <- <-]. split; [reflexivity|].
        right. left. exists m. rewrite Ha. auto. }
    assert (Hrand : err = errors_New "crypto/rand: read failed" ∧ (length tape < 48)%nat).
    { unfold randHex, randB64, rand_Read in Hi.
      destruct (Nat.leb_spec 16 (length tape)) as [H16|H16].
      - destruct (Nat.leb_spec 32 (length (skipn 16 tape))) as [H32|H32]; [discriminate|].
        injection Hi as _ <-. rewrite length_skipn in H32. split; [reflexivity | lia].
      - injection Hi as _ <-. split; [reflexivity | lia]. }
    destruct Hrand as [-> Hlen].
    cbn [errors_Is error_eqb String.eqb Ascii.eqb Bool.eqb orb andb Error].
    intros [= <- <- <-]. split; [reflexivity|].
    right. right. exists m. rewrite Ha. auto.
Qed.

Lemma IssueTemporaryCredentials_handler_witness :
  ∃ (m' : Manager) (rec : tempRecord),
    temps m' !! demo_akid = Some rec ∧ secret rec = demo_secret
    ∧ expiresAt rec = demo_T + 15 * time.Minute.
Proof.
  assert (H : grpcadapter.IssueTemporaryCredentials demo_token_ctx (Some demo_mgr0) demo_tape
                demo_T
              = (Some demo_mgr, [],
                 inl {| grpcadapter.AccessKeyId := demo_akid;
                        grpcadapter.AccessKeySecret_ := demo_secret;
                        grpcadapter.ExpiresAtUnix := 1700000900 |}))
    by (vm_compute; reflexivity).
  destruct (IssueTemporaryCredentials_handler _ _ _ _ _ _ _ H)
    as (m & m' & rec & Hm & _ & Hl & Hs & He & _).
  injection Hm as <-. exists m', rec. exact (conj Hl (conj Hs He)).
Defined.

Lemma IsUsageCallbackAllowed_inv (m : Manager) (subject url : string) :
  IsUsageCallbackAllowed m subject url = true
  ↔ Enabled m = true ∧ subject ≠ "" ∧ url ≠ ""
    ∧ ∃ set, usageCallbackAllowlist m !! subject = Some set ∧ url ∈ set.
Proof.
  unfold IsUsageCallbackAllowed. rewrite <- !is_empty_false.
  destruct (Enabled m); cbn [negb]; [|split; [discriminate | intros [? _]; discriminate]].
  destruct (is_empty subject); cbn [orb];
    [split; [discriminate | intros (_ & ? & _); discriminate]|].
  destruct (is_empty url); [split; [discriminate | intros (_ & _ & ? & _); discriminate]|].
  destruct (usageCallbackAllowlist m !! subject) as [set|];
    [|split; [discriminate | intros (_ & _ & _ & ? & ? & _); discriminate]].
  destruct (Nat.eqb_spec (size set) 0) as [Hz|Hz].
  - apply size_empty_inv in Hz. split; [discriminate|].
    intros (_ & _ & _ & set' & [= <-] & Hin). exfalso.
    apply (not_elem_of_empty (C := gset string) url). apply Hz. exact Hin.
  - rewrite bool_decide_eq_true. split.
    + intros Hin. repeat split. exists set. auto.
    + intros (_ & _ & _ & set' & [= <-] & Hin). exact Hin.
Qed.

Lemma UsageCallbackAllowlist_elem (m : Manager) (subject url : string) :
  url ∈ UsageCallbackAllowlist m subject
  ↔ Enabled m = true ∧ subject ≠ ""
    ∧ ∃ set, usageCallbackAllowlist m !! subject = Some set ∧ url ∈ set.
Proof.
  unfold UsageCallbackAllowlist. rewrite <- is_empty_false.
  destruct (Enabled m); cbn [negb];
    [|split; [intros H; inversion H | intros [? _]; discriminate]].
  destruct (is_empty subject);
    [split; [intros H; inversion H | intros (_ & ? & _); discriminate]|].
  destruct (usageCallbackAllowlist m !! subject) as [set|];
    [|split; [intros H; inversion H | intros (_ & _ & ? & ? & _); discriminate]].
  destruct (Nat.eqb_spec (size set) 0) as [Hz|Hz].
  - apply size_empty_inv in Hz. split; [intros H; inversion H|].
    intros (_ & _ & set' & [= <-] & Hin). exfalso.
    apply (not_elem_of_empty (C := gset string) url). apply Hz. exact Hin.
  - rewrite merge_sort_Permutation, elem_of_elements. split.
    + intros Hin. repeat split. exists set. auto.
    + intros (_ & _ & set' & [= <-] & Hin). exact Hin.
Qed.

(** X27. A usage notification is sent exactly when a sender is set, the call
    names a callback URL, and the allowlist of the manager lists that URL for
    the subject of the context; it goes to that URL and names that subject.
    Hence none is sent when auth is disabled or the context has no subject.
    The way the caller authenticated plays no part, and on a valid allowlist
    the URL is never malformed. *)
Theorem maybeSendUsageCallback_allowlisted (S : Type) (s : grpcadapter.LLMGatewayService S)
    (ctx : Context) (op : string) (gen : llm.Generation) (now : time.Time) :
  let u := first (MD_Get (incomingMD ctx) mdCallbackURL) in
  let subject := SubjectFromContext ctx in
  let sent := grpcadapter.maybeSendUsageCallback s ctx op gen now in
  (is_Some sent
   ↔ grpcadapter.cbSender s = true ∧ u ≠ ""
     ∧ ∃ m, grpcadapter.authMgr s = Some m ∧ u ∈ UsageCallbackAllowlist m subject)
  ∧ (∀ v p, sent = Some (v, p) →
       v = u ∧ subject ≠ "" ∧ usagecallback.Subject_ p = subject
       ∧ usagecallback.Operation p = op
       ∧ usagecallback.GenerationID p = llm.gen_ID gen
       ∧ usagecallback.Model_ p = llm.gen_Model gen)
  ∧ (∀ m, grpcadapter.authMgr s = Some m → Enabled m = false → sent = None)
  ∧ (∀ method : Method,
       grpcadapter.maybeSendUsageCallback s (WithMethod ctx method) op gen now = sent)
  ∧ (∀ (url_Parse : string → url.URL + error) (m : Manager) v p,
       grpcadapter.authMgr s = Some m → allowlist_valid url_Parse m →
       sent = Some (v, p) → ¬ malformed_url url_Parse v).
Proof.
  intros u subject sent.
  assert (Hsent : sent
            = match grpcadapter.authMgr s with
              | None => None
              | Some m =>
                  if grpcadapter.cbSender s && IsUsageCallbackAllowed m subject u then
                    grpcadapter.maybeSendUsageCallback s ctx op gen now
                  else None
              end).
  { subst sent. unfold grpcadapter.maybeSendUsageCallback. fold subject.
    change "x-usage-callback" with mdCallbackURL. fold u.
    destruct (grpcadapter.authMgr s) as [m|]; [|reflexivity].
    destruct (grpcadapter.cbSender s); cbn [negb andb]; [|reflexivity].
    destruct (IsUsageCallbackAllowed m subject u) eqn:Ha; cbn [negb]; [reflexivity|].
    destruct (is_empty subject); [reflexivity|]. now destruct (is_empty u). }
  assert (Hsome : ∀ m, grpcadapter.authMgr s = Some m → grpcadapter.cbSender s = true →
            IsUsageCallbackAllowed m subject u = true →
            ∃ p, sent = Some (u, p) ∧ usagecallback.Subject_ p = subject
                 ∧ usagecallback.Operation p = op
                 ∧ usagecallback.GenerationID p = llm.gen_ID gen
                 ∧ usagecallback.Model_ p = llm.gen_Model gen).
  { intros m Hm Hc Ha. subst sent. unfold grpcadapter.maybeSendUsageCallback. fold subject.
    change "x-usage-callback" with mdCallbackURL. fold u. rewrite Hm, Hc, Ha.
    apply IsUsageCallbackAllowed_inv in Ha as (_ & Hs & Hu & _).
    apply is_empty_false in Hs, Hu. rewrite Hs, Hu. cbn [negb].
    eexists. split; [reflexivity|]. repeat split. }
  assert (Hinv : ∀ v p, sent = Some (v, p) →
            ∃ m, grpcadapter.authMgr s = Some m ∧ grpcadapter.cbSender s = true
                 ∧ IsUsageCallbackAllowed m subject u = true).
  { intros v p Hv. rewrite Hsent in Hv.
    destruct (grpcadapter.authMgr s) as [m|]; [|discriminate].
    destruct (grpcadapter.cbSender s); [|discriminate].
    destruct (IsUsageCallbackAllowed m subject u) eqn:Ha; [|discriminate].
    exists m. auto. }
  split; [|split; [|split; [|split]]].
  - split.
    + intros [[v p] Hv]. destruct (Hinv _ _ Hv) as (m & Hm & Hc & Ha).
      split; [exact Hc|].
      pose proof Ha as Hi. apply IsUsageCallbackAllowed_inv in Hi as (He & Hs & Hu & Hset).
      split; [exact Hu|]. exists m. split; [exact Hm|].
      apply UsageCallbackAllowlist_elem. auto.
    + intros (Hc & Hu & m & Hm & Hin).
      apply UsageCallbackAllowlist_elem in Hin as (He & Hs & Hset).
      destruct (Hsome m Hm Hc) as (p & Hp & _); [|rewrite Hp; eauto].
      apply IsUsageCallbackAllowed_inv. auto.
  - intros v p Hv. destruct (Hinv _ _ Hv) as (m & Hm & Hc & Ha).
    destruct (Hsome m Hm Hc Ha) as (p' & Hp & Hs & Ho & Hg & Hmo).
    rewrite Hv in Hp. injection Hp as -> ->.
    apply IsUsageCallbackAllowed_inv in Ha as (_ & Hsub & _).
    repeat split; assumption.
  - intros m Hm He. rewrite Hsent, Hm.
    destruct (IsUsageCallbackAllowed m subject u) eqn:Ha; [|now rewrite andb_false_r].
    apply IsUsageCallbackAllowed_inv in Ha as (He' & _). congruence.
  - intros method. subst sent. unfold grpcadapter.maybeSendUsageCallback.
    assert (Hctx : SubjectFromContext (WithMethod ctx method) = SubjectFromContext ctx
                   ∧ incomingMD (WithMethod ctx method) = incomingMD ctx).
    { unfold WithMethod. now destruct (is_empty method). }
    destruct Hctx as [-> ->]. reflexivity.
  - intros url_Parse m v p Hm Hvalid Hv. destruct (Hinv _ _ Hv) as (m' & Hm' & Hc & Ha).
    rewrite Hm in Hm'. injection Hm' as <-.
    destruct (Hsome m Hm Hc Ha) as (p' & Hp & _). rewrite Hv in Hp. injection Hp as -> _.
    apply IsUsageCallbackAllowed_inv in Ha as (_ & _ & _ & set & Hl & Hin).
    exact (proj2 (proj2 (Hvalid _ _ Hl) _ Hin)).
Qed.

(** X28. The embeddings handler returns either a response or a status, never
    both and never neither. With a status, which is [InvalidArgument] or
    [Internal], nothing is saved and no notification is sent. With a response,
    the generation is saved under the routed model of the request, while the
    response and the notification carry the model name that the provider
    answered with. *)
Theorem CreateEmbeddings_handler (S : Type) (s : grpcadapter.LLMGatewayService S)
    (ctx : Context) (req : grpcadapter.CreateEmbeddingsRequest) (st : S) (now : time.Time) :
  match grpcadapter.CreateEmbeddings s ctx req st now with
  | (st', (None, Some status), sent) =>
      st' = st ∧ sent = None ∧ (code status = InvalidArgument ∨ code status = Internal)
  | (st', (Some resp, None), sent) =>
      ∃ p upstreamModel res,
        llmgateway.resolveProviderAndUpstreamModel (grpcadapter.app s)
          (grpcadapter.pbq_Model req) = inl (p, upstreamModel)
        ∧ llmgateway.CreateEmbeddings_ p
            {| llm.embq_Model := upstreamModel; llm.embq_Input := grpcadapter.pbq_Input req;
               llm.embq_User := grpcadapter.pbq_User req |} = inl res
        ∧ grpcadapter.pbr_Id resp = llm.embr_ID res
        ∧ grpcadapter.pbr_Model resp = llm.embr_Model res
        ∧ length (grpcadapter.pbr_Data resp) = length (llm.embr_Data res)
        ∧ (∃ gen, st' = llmgateway.saveBestEffort (grpcadapter.app s) st gen
                  ∧ llm.gen_ID gen = llm.embr_ID res
                  ∧ llm.gen_Model gen = grpcadapter.pbq_Model req)
        ∧ (∀ u payload, sent = Some (u, payload) →
             usagecallback.GenerationID payload = llm.embr_ID res
             ∧ usagecallback.Model_ payload = llm.embr_Model res
             ∧ usagecallback.Operation payload = "embeddings")
  | _ => False
  end.
Proof.
  unfold grpcadapter.CreateEmbeddings, llmgateway.CreateEmbeddings.
  cbn [llm.embq_Model llm.embq_Input llm.embq_User].
  destruct (is_empty (grpcadapter.pbq_Model req)).
  { cbn. auto. }
  destruct (length (grpcadapter.pbq_Input req) =? 0)%nat.
  { cbn. auto. }
  destruct (llmgateway.resolveProviderAndUpstreamModel (grpcadapter.app s)
              (grpcadapter.pbq_Model req)) as [[p up]|e] eqn:Hr.
  2:{ unfold grpcadapter.toStatusErr.
      destruct (errors_Is e llm.ErrInvalidArgument); cbn [code]; auto. }
  destruct (llmgateway.CreateEmbeddings_ p _) as [res|e] eqn:Hp.
  2:{ unfold grpcadapter.toStatusErr.
      destruct (errors_Is e llm.ErrInvalidArgument); cbn [code]; auto. }
  exists p, up, res. split; [reflexivity|]. split; [exact Hp|].
  cbn [grpcadapter.pbr_Id grpcadapter.pbr_Model grpcadapter.pbr_Data].
  split; [reflexivity|]. split; [reflexivity|]. split; [apply length_map|]. split.
  - eexists. split; [reflexivity|]. split; reflexivity.
  - intros u payload Hs. unfold grpcadapter.maybeSendUsageCallback in Hs.
    destruct (grpcadapter.authMgr s) as [m|]; [|discriminate].
    destruct (negb (grpcadapter.cbSender s)); [discriminate|].
    destruct (is_empty (SubjectFromContext ctx)); [discriminate|].
    destruct (is_empty (first (MD_Get (incomingMD ctx) "x-usage-callback"))); [discriminate|].
    destruct (negb (IsUsageCallbackAllowed m _ _)); [discriminate|].
    injection Hs as _ <-. repeat split.
Qed.

(** The record and the notification of one call name different models. *)
Example CreateEmbeddings_handler_models :
  ∃ resp payload,
    grpcadapter.CreateEmbeddings demo_adapter demo_callback_ctx demo_pb_request [] demo_now
    = ([ {| llm.gen_ID := "emb-2"; llm.gen_Model := "dashscope/text-embedding-v3";
            llm.gen_Created := 0;
            llm.gen_Usage := {| llm.PromptTokens := 4; llm.CompletionTokens := 0;
                                llm.TotalTokens := 4 |} |} ],
       (Some resp, None), Some ("https://example.com/cb", payload))
    ∧ usagecallback.Model_ payload = "text-embedding-v3-2024"
    ∧ usagecallback.Subject_ payload = "svc"
    ∧ usagecallback.RequestID payload = "req-7".
Proof. do 2 eexists. vm_compute. repeat split. Qed.

(** ** Message content (llmgateway_service.go) *)

Lemma fields_present_lookup (fields : gmap string (option structpb.Value))
    (names : list string) (name : string) :
  fields_present fields names = true → In name names → fields !! name ≠ Some None.
Proof.
  unfold fields_present. rewrite forallb_forall. intros H Hin. specialize (H _ Hin).
  intros E. now rewrite E in H.
Qed.

Lemma stringField_sound (fields : gmap string (option structpb.Value)) (name x : string) :
  fields !! name ≠ Some None →
  grpcadapter.stringField fields name x
  = grpcadapter.Returns (default x (string_field fields name)).
Proof.
  unfold grpcadapter.stringField, string_field.
  destruct (fields !! name) as [[v|]|]; [|congruence|reflexivity].
  intros _. now destruct v.
Qed.

(** A sound item is parsed to a part when it is an object and is an error
    otherwise. *)
Lemma parseContentPart_sound (v : option structpb.Value) :
  part_sound v = true →
  match v with
  | Some (structpb.StructValue (Some fields)) =>
      ∃ part, grpcadapter.parseContentPart v = grpcadapter.Returns (inl part)
              ∧ llm.part_Type part = default "" (string_field fields "type")
              ∧ llm.part_Text part = default "" (string_field fields "text")
  | _ =>
      grpcadapter.parseContentPart v
      = grpcadapter.Returns (inr (errors_New "content part must be an object"))
  end.
Proof.
  destruct v as [v|]; [|discriminate]. destruct v as [| | | | |[fields|]|]; try reflexivity.
  cbn [part_sound]. intros Hs. apply andb_prop in Hs as [Hf Hi].
  unfold grpcadapter.parseContentPart.
  rewrite (stringField_sound fields "type")
    by (apply (fields_present_lookup _ _ _ Hf); cbn; auto).
  rewrite (stringField_sound fields "text")
    by (apply (fields_present_lookup _ _ _ Hf); cbn; auto).
  cbn [grpcadapter.bind].
  pose proof (fields_present_lookup _ _ "image_url" Hf ltac:(cbn; auto)) as Himg.
  destruct (fields !! "image_url") as [[img|]|]; [|congruence|].
  - destruct img as [| | | | |[imgFields|]|]; try solve [eexists; repeat split].
    rewrite (stringField_sound imgFields "url")
      by (apply (fields_present_lookup _ _ _ Hi); cbn; auto).
    rewrite (stringField_sound imgFields "detail")
      by (apply (fields_present_lookup _ _ _ Hi); cbn; auto).
    cbn [grpcadapter.bind]. eexists. repeat split.
  - eexists. repeat split.
Qed.

Lemma parseParts_sound (items : list (option structpb.Value)) :
  ∀ acc : list llm.ContentPart,
    forallb part_sound items = true →
    if forallb is_object items then
      ∃ new, grpcadapter.parseParts items acc = grpcadapter.Returns (acc ++ new, None)
             ∧ Forall2 (fun v part => grpcadapter.parseContentPart v
                                      = grpcadapter.Returns (inl part)) items new
    else
      ∃ parts, grpcadapter.parseParts items acc
               = grpcadapter.Returns
                   (parts, Some (errors_New "content part must be an object")).
Proof.
  induction items as [|v rest IH]; intros acc Hs.
  - exists []. rewrite app_nil_r. split; [reflexivity | constructor].
  - cbn [forallb] in Hs. apply andb_prop in Hs as [Hv Hrest].
    pose proof (parseContentPart_sound v Hv) as Hp.
    cbn [forallb grpcadapter.parseParts].
    destruct v as [[| | | | |[fields|]|]|]; cbn [is_object andb]; try (rewrite Hp; eauto).
    destruct Hp as (part & Hp & _). rewrite Hp. specialize (IH (acc ++ [part]) Hrest).
    destruct (forallb is_object rest).
    + destruct IH as (new & -> & Hall). exists (part :: new). rewrite <- app_assoc.
      split; [reflexivity|]. constructor; assumption.
    + exact IH.
Qed.

(** A sound content never panics; it is an error exactly when it is not
    [content_ok], and the role and the name are left as they are. *)
Lemma parseMessageContent_returns (content : option structpb.Value) (msg : llm.ChatMessage) :
  content_sound content = true →
  ∃ msg' err,
    grpcadapter.parseMessageContent content msg = grpcadapter.Returns (msg', err)
    ∧ (err = None ↔ content_ok content = true)
    ∧ llm.msg_Role msg' = llm.msg_Role msg ∧ llm.msg_Name msg' = llm.msg_Name msg.
Proof.
  intros Hs. destruct content as [v|]; [|exists msg, None; repeat split; auto].
  destruct v as [| | | | | |[values|]];
    try solve [eexists _, _; split; [reflexivity|]; repeat split; (discriminate || auto)].
  cbn [content_sound] in Hs. pose proof (parseParts_sound values [] Hs) as Hp.
  cbn [grpcadapter.parseMessageContent content_ok].
  destruct (forallb is_object values).
  - destruct Hp as (new & -> & _). eexists _, _. split; [reflexivity|]. repeat split; auto.
  - destruct Hp as (parts & ->). eexists _, _. split; [reflexivity|].
    repeat split; discriminate.
Qed.

(** X29. On a content without a [nil] pointer inside, [parseMessageContent]
    never panics. It fails exactly when the content is neither absent, null,
    a string, nor a list of objects; unknown fields and fields of another
    kind are ignored. The role and the name of the message are never
    written. A string becomes the text content; a list becomes the content
    parts, one for each item in the order of the list, with the type and the
    text of the item; every other content leaves the message as it is. *)
Theorem parseMessageContent_sound (content : option structpb.Value) (msg : llm.ChatMessage) :
  content_sound content = true →
  ∃ msg' err,
    grpcadapter.parseMessageContent content msg = grpcadapter.Returns (msg', err)
    ∧ (err = None ↔ content_ok content = true)
    ∧ llm.msg_Role msg' = llm.msg_Role msg ∧ llm.msg_Name msg' = llm.msg_Name msg
    ∧ (err = None →
       match content with
       | Some (structpb.StringValue s) =>
           llm.msg_Content msg' = s ∧ llm.msg_ContentParts msg' = llm.msg_ContentParts msg
       | Some (structpb.ListValue (Some values)) =>
           llm.msg_Content msg' = llm.msg_Content msg
           ∧ length (llm.msg_ContentParts msg') = length values
           ∧ ∀ (i : nat) fields,
               values !! i = Some (Some (structpb.StructValue (Some fields))) →
               ∃ part, llm.msg_ContentParts msg' !! i = Some part
                       ∧ llm.part_Type part = default "" (string_field fields "type")
                       ∧ llm.part_Text part = default "" (string_field fields "text")
       | _ => msg' = msg
       end).
Proof.
  intros Hs. destruct (parseMessageContent_returns content msg Hs)
    as (msg' & err & Hp & Herr & Hr & Hn).
  exists msg', err. split; [exact Hp|]. split; [exact Herr|].
  split; [exact Hr|]. split; [exact Hn|].
  intros ->. destruct content as [v|]; [|now injection Hp as <-].
  destruct v as [| | | | | |[values|]]; try (now injection Hp as <-); try discriminate.
  cbn [content_sound] in Hs. pose proof (parseParts_sound values [] Hs) as Hparts.
  cbn [grpcadapter.parseMessageContent] in Hp.
  destruct (forallb is_object values).
  2:{ destruct Hparts as (parts & Hparts). rewrite Hparts in Hp. discriminate. }
  destruct Hparts as (new & Hparts & Hall). rewrite Hparts in Hp. injection Hp as <-.
  cbn [llm.msg_Content llm.msg_ContentParts app]. split; [reflexivity|].
  split; [symmetry; exact (Forall2_length _ _ _ Hall)|].
  intros i fields Hi.
  destruct (Forall2_lookup_l _ _ _ _ _ Hall Hi) as (part & Hpart & Hparse).
  exists part. split; [exact Hpart|].
  assert (Hsound : part_sound (Some (structpb.StructValue (Some fields))) = true).
  { rewrite forallb_forall in Hs. apply Hs. apply list_elem_of_In.
    now apply list_elem_of_lookup_2 in Hi. }
  destruct (parseContentPart_sound _ Hsound) as (part' & Hparse' & Hty & Htx).
  rewrite Hparse in Hparse'. injection Hparse' as <-. auto.
Qed.

Lemma parseMessageContent_sound_witness :
  ∃ msg', grpcadapter.parseMessageContent demo_content demo_message
          = grpcadapter.Returns (msg', None)
          ∧ llm.msg_Role msg' = "user" ∧ length (llm.msg_ContentParts msg') = 2%nat
          ∧ ∃ part, llm.msg_ContentParts msg' !! 0%nat = Some part
                    ∧ llm.part_Text part = "what is this?".
Proof.
  assert (Hs : content_sound demo_content = true) by (vm_compute; reflexivity).
  destruct (parseMessageContent_sound demo_content demo_message Hs)
    as (msg' & err & Hp & Herr & Hr & _ & Hshape).
  assert (He : err = None) by (apply Herr; vm_compute; reflexivity).
  subst err. exists msg'. split; [exact Hp|]. split; [exact Hr|].
  destruct (Hshape eq_refl) as (_ & Hlen & Hparts). split; [exact Hlen|].
  destruct (Hparts 0%nat demo_text_part eq_refl) as (part & Hpart & _ & Htx).
  exists part. split; [exact Hpart|]. rewrite Htx. vm_compute. reflexivity.
Defined.

Lemma convertMessages_sound (ms : list grpcadapter.pbChatMessage) :
  ∀ acc : list llm.ChatMessage,
    Forall (fun m => content_sound (grpcadapter.pbm_Content m) = true) ms →
    if forallb (fun m => content_ok (grpcadapter.pbm_Content m)) ms then
      ∃ new, grpcadapter.convertMessages ms acc = grpcadapter.Returns (inl (acc ++ new))
             ∧ Forall2 (fun m msg => llm.msg_Role msg = grpcadapter.pbm_Role m
                                     ∧ llm.msg_Name msg = grpcadapter.pbm_Name m) ms new
    else
      ∃ status, grpcadapter.convertMessages ms acc = grpcadapter.Returns (inr status)
                ∧ code status = InvalidArgument.
Proof.
  induction ms as [|m rest IH]; intros acc Hs.
  - exists []. rewrite app_nil_r. split; [reflexivity | constructor].
  - apply Forall_cons in Hs as [Hm Hrest].
    cbn [forallb grpcadapter.convertMessages].
    destruct (parseMessageContent_returns (grpcadapter.pbm_Content m)
                {| llm.msg_Role := grpcadapter.pbm_Role m; llm.msg_Content := "";
                   llm.msg_ContentParts := []; llm.msg_Name := grpcadapter.pbm_Name m |} Hm)
      as (msg' & err & Hp & Herr & Hr & Hn).
    rewrite Hp. destruct err as [e|].
    + assert (Hok : content_ok (grpcadapter.pbm_Content m) = false).
      { destruct (content_ok (grpcadapter.pbm_Content m)); [|reflexivity].
        pose proof (proj2 Herr eq_refl) as E. discriminate E. }
      rewrite Hok. cbn [andb]. eexists. split; reflexivity.
    + rewrite (proj1 Herr eq_refl). cbn [andb].
      specialize (IH (acc ++ [msg']) Hrest).
      destruct (forallb (fun m => content_ok (grpcadapter.pbm_Content m)) rest).
      * destruct IH as (new & -> & Hall). exists (msg' :: new). rewrite <- app_assoc.
        split; [reflexivity|]. constructor; [|exact Hall]. exact (conj Hr Hn).
      * exact IH.
Qed.

Lemma CreateChatCompletion_error_state (S : Type) (s : llmgateway.Service S) (st st' : S)
    (req : llm.ChatCompletionRequest) (err : error) :
  llmgateway.CreateChatCompletion s st req = (st', inr err) → st' = st.
Proof.
  unfold llmgateway.CreateChatCompletion.
  destruct (is_empty (llm.chat_Model req)); [now intros [= <- _]|].
  destruct (length (llm.chat_Messages req) =? 0)%nat; [now intros [= <- _]|].
  destruct (llmgateway.resolveProviderAndUpstreamModel s (llm.chat_Model req))
    as [[p up]|e]; [|now intros [= <- _]].
  destruct (llmgateway.CreateChatCompletion_ p _) as [resp|e];
    [discriminate | now intros [= <- _]].
Qed.

(** X30. On a request whose contents have no [nil] pointer inside, the chat
    handler never panics and returns either a response or a status. A message
    whose content does not parse gives [InvalidArgument] before the use case
    is called; with any status nothing is saved and no notification is sent.
    With a response, the use case was called with one message for each
    message of the request, in order and with the same role and name; the
    answer carries the text content of every choice as a string value, and
    the response and the notification carry the model name that the provider
    answered with. *)
Theorem CreateChatCompletion_handler (S : Type) (s : grpcadapter.LLMGatewayService S)
    (ctx : Context) (req : grpcadapter.CreateChatCompletionRequest) (st : S)
    (now : time.Time) :
  Forall (fun m => content_sound (grpcadapter.pbm_Content m) = true)
    (grpcadapter.pbc_Messages req) →
  ∃ st' resp status sent,
    grpcadapter.CreateChatCompletion s ctx req st now
    = grpcadapter.Returns (st', (resp, status), sent)
    ∧ (forallb (fun m => content_ok (grpcadapter.pbm_Content m))
         (grpcadapter.pbc_Messages req) = false →
       resp = None ∧ st' = st ∧ sent = None
       ∧ ∃ e, status = Some e ∧ code e = InvalidArgument)
    ∧ match resp, status with
      | None, Some e =>
          st' = st ∧ sent = None ∧ (code e = InvalidArgument ∨ code e = Internal)
      | Some r, None =>
          ∃ msgs res,
            Forall2 (fun m msg => llm.msg_Role msg = grpcadapter.pbm_Role m
                                  ∧ llm.msg_Name msg = grpcadapter.pbm_Name m)
              (grpcadapter.pbc_Messages req) msgs
            ∧ llmgateway.CreateChatCompletion (grpcadapter.app s) st
                {| llm.chat_Model := grpcadapter.pbc_Model req; llm.chat_Messages := msgs;
                   llm.chat_Temperature := grpcadapter.pbc_Temperature req;
                   llm.chat_MaxTokens := grpcadapter.pbc_MaxTokens req;
                   llm.chat_User := grpcadapter.pbc_User req |} = (st', inl res)
            ∧ grpcadapter.pbcr_Id r = llm.chatr_ID res
            ∧ grpcadapter.pbcr_Model r = llm.chatr_Model res
            ∧ Forall2 (fun c pc =>
                         grpcadapter.pbm_Content (grpcadapter.pbch_Message pc)
                         = Some (structpb.StringValue
                                   (llm.msg_Content (llm.choice_Message c))))
                (llm.chatr_Choices res) (grpcadapter.pbcr_Choices r)
            ∧ (∀ u payload, sent = Some (u, payload) →
                 usagecallback.GenerationID payload = llm.chatr_ID res
                 ∧ usagecallback.Model_ payload = llm.chatr_Model res
                 ∧ usagecallback.Operation payload = "chat.completions")
      | _, _ => False
      end.
Proof.
  intros Hs. pose proof (convertMessages_sound _ [] Hs) as Hc.
  unfold grpcadapter.CreateChatCompletion.
  destruct (forallb (fun m => content_ok (grpcadapter.pbm_Content m))
              (grpcadapter.pbc_Messages req)).
  2:{ destruct Hc as (status & -> & Hcode). eexists _, _, _, _. split; [reflexivity|].
      split; [intros _; repeat split; eauto|]. auto. }
  destruct Hc as (msgs & -> & Hall). cbn [app].
  destruct (llmgateway.CreateChatCompletion (grpcadapter.app s) st _)
    as [st1 [res|err]] eqn:Happ.
  - eexists _, _, _, _. split; [reflexivity|]. split; [discriminate|].
    exists msgs, res. split; [exact Hall|]. split; [exact Happ|].
    cbn [grpcadapter.pbcr_Id grpcadapter.pbcr_Model grpcadapter.pbcr_Choices].
    split; [reflexivity|]. split; [reflexivity|]. split.
    + induction (llm.chatr_Choices res) as [|c l IHl]; constructor; [reflexivity | exact IHl].
    + intros u payload Hsent. unfold grpcadapter.maybeSendUsageCallback in Hsent.
      destruct (grpcadapter.authMgr s) as [m|]; [|discriminate].
      destruct (negb (grpcadapter.cbSender s)); [discriminate|].
      destruct (is_empty (SubjectFromContext ctx)); [discriminate|].
      destruct (is_empty (first (MD_Get (incomingMD ctx) "x-usage-callback")));
        [discriminate|].
      destruct (negb (IsUsageCallbackAllowed m _ _)); [discriminate|].
      injection Hsent as _ <-. repeat split.
  - apply CreateChatCompletion_error_state in Happ as ->.
    eexists _, _, _, _. split; [reflexivity|]. split; [discriminate|].
    unfold grpcadapter.toStatusErr.
    destruct (errors_Is err llm.ErrInvalidArgument); cbn [code]; auto.
Qed.

Lemma CreateChatCompletion_handler_witness :
  Forall (fun m => content_sound (grpcadapter.pbm_Content m) = true)
    (grpcadapter.pbc_Messages demo_chat_request)
  ∧ ∃ st' resp status sent,
      grpcadapter.CreateChatCompletion demo_adapter demo_callback_ctx demo_chat_request []
        demo_now
      = grpcadapter.Returns (st', (resp, status), sent).
Proof.
  assert (Hs : Forall (fun m => content_sound (grpcadapter.pbm_Content m) = true)
                 (grpcadapter.pbc_Messages demo_chat_request))
    by (repeat constructor).
  split; [exact Hs|].
  destruct (CreateChatCompletion_handler _ demo_adapter demo_callback_ctx demo_chat_request
              [] demo_now Hs) as (st' & resp & status & sent & Hrun & _).
  exists st', resp, status, sent. exact Hrun.
Defined.

(** The record of a chat call is saved under the routed model; the answer
    names the model of the provider. *)
Example CreateChatCompletion_handler_models :
  ∃ r sent,
    grpcadapter.CreateChatCompletion demo_adapter demo_callback_ctx demo_chat_request []
      demo_now
    = grpcadapter.Returns
        ([ {| llm.gen_ID := "chat-2"; llm.gen_Model := "dashscope/qwen-turbo";
              llm.gen_Created := 1700000001;
              llm.gen_Usage := {| llm.PromptTokens := 1; llm.CompletionTokens := 2;
                                  llm.TotalTokens := 3 |} |} ],
         (Some r, None), sent)
    ∧ grpcadapter.pbcr_Model r = "qwen-turbo-2024".
Proof. do 2 eexists. vm_compute. split; reflexivity. Qed.
